(** * macaw: the network modules of [src/nn.py]

    A shallow embedding of the modules of [src/nn.py] ([DeepSet], [CVAE],
    [WLinear], [WLinearMix], [BiasLinear], [MLP], [TwinValueFunction]), the
    properties of them that the specification states, and further properties
    of the code.

    Conventions of the embedding.
    - Tensor entries are real numbers ([R]): the statements are about exact
      arithmetic, rounding is not modelled.
    - A one-dimensional tensor is a [vec], a two-dimensional tensor
      (batch, features) is a [mat], a list of rows; the three-dimensional
      input (batch, channel, element) of [DeepSet] is a list of [mat].
      Tensors are rectangular; a batch without rows carries no width and its
      last dimension reads as 0.
    - An exception raised by Python or by the tensor library is a [Raise]
      result.
    - The random generator is an explicit state [rng], a supply of reals from
      which [normal_] and the initialisers take their values. *)

From Stdlib Require Import Reals Lra Lia List Arith Bool Permutation.
Import ListNotations.
Local Open Scope R_scope.

(** ** Exceptions and results *)

Inductive exn : Type :=
| ValueError
| AttributeError
| ZeroDivisionError
| RuntimeError
| IndexError
| TypeError.

Inductive result (A : Type) : Type :=
| Ok (a : A)
| Raise (e : exn).
Arguments Ok {A} a.
Arguments Raise {A} e.

Definition bind {A B : Type} (r : result A) (k : A -> result B) : result B :=
  match r with
  | Ok a => k a
  | Raise e => Raise e
  end.

Notation "x <- e ;; k" := (bind e (fun x => k))
  (at level 61, e at next level, right associativity).
Notation "' p <- e ;; k" := (bind e (fun p => k))
  (at level 61, p pattern, e at next level, right associativity).

Fixpoint mapM {A B : Type} (f : A -> result B) (l : list A) : result (list B) :=
  match l with
  | [] => Ok []
  | a :: l' => b <- f a ;; bs <- mapM f l' ;; Ok (b :: bs)
  end.

Fixpoint zipWith {A B C : Type} (f : A -> B -> C) (u : list A) (v : list B) : list C :=
  match u, v with
  | a :: u', b :: v' => f a b :: zipWith f u' v'
  | _, _ => []
  end.

Fixpoint mapM2 {A B C : Type} (f : A -> B -> result C) (u : list A) (v : list B)
  : result (list C) :=
  match u, v with
  | a :: u', b :: v' => c <- f a b ;; cs <- mapM2 f u' v' ;; Ok (c :: cs)
  | _, _ => Ok []
  end.

(** ** Tensors *)

Definition vec := list R.
Definition mat := list vec.

(** [x.shape[-1]] of a two-dimensional tensor. *)
Definition last_dim (x : mat) : nat :=
  match x with
  | [] => 0%nat
  | r :: _ => length r
  end.

Definition rsum (v : vec) : R := fold_right Rplus 0 v.

Definition dot (u v : vec) : R := rsum (zipWith Rmult u v).

(** Element-wise binary operation on the last dimension, with broadcasting: the
    sizes agree or one of them is 1. *)
Definition bvec (f : R -> R -> R) (u v : vec) : result vec :=
  if (length u =? length v)%nat then Ok (zipWith f u v)
  else match u, v with
       | [a], _ => Ok (map (f a) v)
       | _, [b] => Ok (map (fun x => f x b) u)
       | _, _ => Raise RuntimeError
       end.

(** Element-wise binary operation of two two-dimensional tensors, with
    broadcasting on both dimensions. *)
Definition bmat (f : R -> R -> R) (a b : mat) : result mat :=
  if (length a =? length b)%nat then mapM2 (bvec f) a b
  else match a, b with
       | [r], _ => mapM (bvec f r) b
       | _, [r] => mapM (fun x => bvec f x r) a
       | _, _ => Raise RuntimeError
       end.

(** A two-dimensional tensor plus a one-dimensional one, [m + b]. *)
Definition add_vec (m : mat) (b : vec) : result mat :=
  mapM (fun r => bvec Rplus r b) m.

(** [v @ w] for a one-dimensional [v] and a two-dimensional [w] with [cols]
    columns: entry [j] is the sum of [v[i] * w[i][j]]. *)
Definition vecmat (v : vec) (w : mat) (cols : nat) : result vec :=
  if (length v =? length w)%nat
  then Ok (fold_right (zipWith Rplus) (repeat 0 cols)
             (zipWith (fun a r => map (Rmult a) r) v w))
  else Raise RuntimeError.

(** [x @ w] for two-dimensional tensors. *)
Definition matmul (x : mat) (w : mat) (cols : nat) : result mat :=
  mapM (fun r => vecmat r w cols) x.

(** [torch.cat((a, b), -1)] of two-dimensional tensors: the batch sizes must
    agree. *)
Definition cat (a b : mat) : result mat :=
  if (length a =? length b)%nat then Ok (zipWith (@app R) a b)
  else Raise RuntimeError.

(** [t.view(rows, -1)] of a one-dimensional tensor. *)
Fixpoint chunks (n cols : nat) (t : vec) : mat :=
  match n with
  | O => []
  | S n' => firstn cols t :: chunks n' cols (skipn cols t)
  end.

Definition view (t : vec) (rows : nat) : result mat :=
  match rows with
  | O => Raise RuntimeError
  | S _ =>
      if (length t mod rows =? 0)%nat
      then Ok (chunks rows (length t / rows) t)
      else Raise RuntimeError
  end.

Definition relu (x : mat) : mat := map (map (Rmax 0)) x.

Definition LOG_VAR_MAX : R := 2.
Definition LOG_VAR_MIN : R := -20.

(** [torch.clamp(x, min=lo, max=hi)]. *)
Definition clamp (lo hi : R) (x : mat) : mat :=
  map (map (fun v => Rmin (Rmax v lo) hi)) x.

(** [t[:, : t.shape[-1] // 2]] and [t[:, t.shape[-1] // 2 :]]. *)
Definition left_half (t : mat) : mat := map (firstn (last_dim t / 2)) t.
Definition right_half (t : mat) : mat := map (skipn (last_dim t / 2)) t.

(** [(t / 2).exp()]. *)
Definition half_exp (t : mat) : mat := map (map (fun v => exp (v / 2))) t.

(** ** The random generator *)

Definition rng := nat -> R.

Definition draw (n : nat) (g : rng) : vec * rng :=
  (map g (seq 0 n), fun i => g (n + i)%nat).

Fixpoint draw_mat (rows cols : nat) (g : rng) : mat * rng :=
  match rows with
  | O => ([], g)
  | S rows' =>
      let (r, g1) := draw cols g in
      let (m, g2) := draw_mat rows' cols g1 in
      (r :: m, g2)
  end.

(** [torch.empty_like(t).normal_()]: a standard-normal tensor of the shape of
    [t]. *)
Fixpoint normal_like (t : mat) (g : rng) : mat * rng :=
  match t with
  | [] => ([], g)
  | r :: t' =>
      let (n, g1) := draw (length r) g in
      let (m, g2) := normal_like t' g1 in
      (n :: m, g2)
  end.

(** [torch.empty(n).normal_(mean, std)]. *)
Definition normal_ (n : nat) (mean std : R) (g : rng) : vec * rng :=
  let (v, g') := draw n g in (map (fun a => mean + std * a) v, g').

(** Names of the parameter tensors of a linear primitive. *)
Inductive pname : Type :=
| P_weight | P_bias
| P__bias | P__weight | P__linear_weight | P__linear_bias
| P_z | P_fc_weight | P_fc_bias.

(** ** [torch.nn.Linear] *)

Module Linear.

Record t : Type := mk {
  in_features : nat;
  out_features : nat;
  weight : mat;   (* out_features rows of in_features entries *)
  bias : vec      (* out_features entries *)
}.

(** The initial values are whatever the generator yields. *)
Definition init (in_f out_f : nat) (g : rng) : t * rng :=
  let (w, g1) := draw_mat out_f in_f g in
  let (b, g2) := draw out_f g1 in
  (mk in_f out_f w b, g2).

Definition parameters (_ : t) : list pname := [P_weight; P_bias].

(** [torch.nn.Linear] has no attribute [adaptation_parameters]: looking it
    up on a module raises [AttributeError]. *)
Definition adaptation_parameters (_ : t) : result (list pname) :=
  Raise AttributeError.

(** On a one-dimensional input. *)
Definition forward1 (l : t) (x : vec) : result vec :=
  if (length x =? in_features l)%nat
  then Ok (zipWith (fun w b => dot x w + b) (weight l) (bias l))
  else Raise RuntimeError.

Definition forward (l : t) (x : mat) : result mat := mapM (forward1 l) x.

Definition wf (l : t) : Prop :=
  length (weight l) = out_features l /\
  Forall (fun r => length r = in_features l) (weight l) /\
  length (bias l) = out_features l.

End Linear.

(** ** [BiasLinear] *)

Module BiasLinear.

Record t : Type := mk {
  _linear : Linear.t;
  _bias : vec;
  _weight : mat
}.

Definition init (in_features out_features : nat) (bias_size : option nat)
           (g : rng) : result (t * rng) :=
  let bias_size := match bias_size with None => out_features | Some b => b end in
  let (l, g1) := Linear.init in_features out_features g in
  match bias_size with
  | O => Raise ZeroDivisionError
  | S _ =>
      let (b, g2) := normal_ (length (Linear.bias l)) 0 (1 / INR bias_size) g1 in
      let (w, g3) := draw_mat bias_size out_features g2 in
      Ok (mk l b w, g3)
  end.

Definition parameters (_ : t) : list pname :=
  [P__bias; P__weight; P__linear_weight; P__linear_bias].

Definition adaptation_parameters (b : t) : result (list pname) :=
  Ok (parameters b).

Definition forward (b : t) (x : mat) : result mat :=
  y <- Linear.forward (_linear b) x ;;
  c <- vecmat (_bias b) (_weight b) (last_dim (_weight b)) ;;
  add_vec y c.

End BiasLinear.

(** ** [WLinear] *)

Module WLinear.

Record t : Type := mk {
  z : vec;
  fc : Linear.t;
  w_idx : nat;
  out_f : nat
}.

Definition init (in_features out_features dim : nat) (g : rng)
  : result (t * rng) :=
  match out_features with
  | O => Raise ZeroDivisionError
  | S _ =>
      let (z0, g1) := normal_ dim 0 (1 / INR out_features) g in
      let (l, g2) :=
        Linear.init dim (in_features * out_features + out_features) g1 in
      Ok (mk z0 l (in_features * out_features) out_features, g2)
  end.

(** [weight] is the same tensor as [fc.weight]; [seq] and [_linear] are the
    module [fc]. *)
Definition parameters (_ : t) : list pname := [P_z; P_fc_weight; P_fc_bias].

Definition adaptation_parameters (_ : t) : result (list pname) := Ok [P_z].

Definition forward (m : t) (x : mat) : result mat :=
  theta <- Linear.forward1 (fc m) (z m) ;;
  w <- view (firstn (w_idx m) theta) (last_dim x) ;;
  let b := skipn (w_idx m) theta in
  y <- matmul x w (last_dim w) ;;
  add_vec y b.

End WLinear.

(** ** [torch.nn.Sequential] over the layers this file uses *)

Inductive layer : Type :=
| L_Linear (l : Linear.t)
| L_BiasLinear (b : BiasLinear.t)
| L_WLinear (w : WLinear.t)
| L_ReLU.

Definition layer_forward (l : layer) (x : mat) : result mat :=
  match l with
  | L_Linear l => Linear.forward l x
  | L_BiasLinear b => BiasLinear.forward b x
  | L_WLinear w => WLinear.forward w x
  | L_ReLU => Ok (relu x)
  end.

Fixpoint Sequential (s : list layer) (x : mat) : result mat :=
  match s with
  | [] => Ok x
  | l :: s' => y <- layer_forward l x ;; Sequential s' y
  end.

Definition layer_parameters (l : layer) : list pname :=
  match l with
  | L_Linear l => Linear.parameters l
  | L_BiasLinear b => BiasLinear.parameters b
  | L_WLinear w => WLinear.parameters w
  | L_ReLU => []
  end.

Definition layer_adaptation_parameters (l : layer) : result (list pname) :=
  match l with
  | L_Linear l => Linear.adaptation_parameters l
  | L_BiasLinear b => BiasLinear.adaptation_parameters b
  | L_WLinear w => WLinear.adaptation_parameters w
  | L_ReLU => Raise AttributeError
  end.

Definition is_linear (l : layer) : bool :=
  match l with
  | L_ReLU => false
  | _ => true
  end.

(** ** [MLP] *)

Module MLP.

(** The names under which [add_module] registers the layers. *)
Inductive mname : Type :=
| fc (idx : nat)
| relu_ (idx : nat).

Inductive container : Type := C_seq | C_head_seq.

(** A parameter tensor of the network: [seq.fc_0.z] is
    [(C_seq, fc 0, P_z)]. *)
Definition param : Type := (container * mname * pname)%type.

Record t : Type := mk {
  _final_activation : mat -> mat;
  seq : list (mname * layer);
  _head : bool;
  deterministic : bool;
  layer_widths : list nat;
  bias_linear : bool;
  aparams : list param;
  head_seq : list (mname * layer)   (* assigned only when [_head] *)
}.

(** [pre_seq = seq[:-2]] and [post_seq = seq[-2:]] share the layers of
    [seq]. *)
Definition pre_seq (m : t) : list (mname * layer) :=
  firstn (length (seq m) - 2) (seq m).
Definition post_seq (m : t) : list (mname * layer) :=
  skipn (length (seq m) - 2) (seq m).

Definition run (s : list (mname * layer)) (x : mat) : result mat :=
  Sequential (map snd s) x.

(** The class bound to [linear] in [__init__]. *)
Inductive kind : Type := K_Linear | K_BiasLinear | K_WLinear.

Definition linear (bias_linear w_linear : bool) : kind :=
  if negb w_linear
  then (if bias_linear then K_BiasLinear else K_Linear)
  else K_WLinear.

Definition make (k : kind) (i o : nat) (g : rng) : result (layer * rng) :=
  match k with
  | K_Linear => let (l, g') := Linear.init i o g in Ok (L_Linear l, g')
  | K_BiasLinear =>
      '(b, g') <- BiasLinear.init i o None g ;; Ok (L_BiasLinear b, g')
  | K_WLinear =>
      '(w, g') <- WLinear.init i o 100 g ;; Ok (L_WLinear w, g')
  end.

(** [zip(l[:-1], l[1:])]. *)
Definition pairs (l : list nat) : list (nat * nat) := combine l (tl l).

Definition tag (c : container) (n : mname) (ps : list pname) : list param :=
  map (fun p => (c, n, p)) ps.

(** The loop of lines 254-259 from index [idx] on; [n] is
    [len(layer_widths)]. *)
Fixpoint build_seq (k : kind) (n idx : nat) (ws : list (nat * nat)) (g : rng)
  : result (list (mname * layer) * list param * rng) :=
  match ws with
  | [] => Ok ([], [], g)
  | (i, o) :: ws' =>
      '(w, g1) <- make k i o g ;;
      ap <- layer_adaptation_parameters w ;;
      '(s, aps, g2) <- build_seq k n (S idx) ws' g1 ;;
      let r := if (idx <? n - 2)%nat then [(relu_ idx, L_ReLU)] else [] in
      Ok ((fc idx, w) :: r ++ s, tag C_seq (fc idx) ap ++ aps, g2)
  end.

(** The loop of lines 273-279. *)
Fixpoint build_head (k : kind) (idx : nat) (ws : list (nat * nat)) (g : rng)
  : result (list (mname * layer) * list param * rng) :=
  match ws with
  | [] => Ok ([], [], g)
  | (i, o) :: ws' =>
      '(w, g1) <- make k i o g ;;
      ap <- layer_adaptation_parameters w ;;
      '(s, aps, g2) <- build_head k (S idx) ws' g1 ;;
      Ok ((relu_ idx, L_ReLU) :: (fc idx, w) :: s,
          tag C_head_seq (fc idx) ap ++ aps, g2)
  end.

(** [layer_widths[-1] *= 2]. *)
Definition double_last (l : list nat) : list nat :=
  removelast l ++ [(last l 0 * 2)%nat].

(** [MLP.__init__].  The list [layer_widths] is doubled in its last entry
    while the layers are built and restored afterwards, so the head and the
    attribute [layer_widths] see the widths as passed. *)
Definition init (layer_widths : list nat) (final_activation : mat -> mat)
           (bias_linear : bool) (extra_head_layers : option (list nat))
           (w_linear deterministic : bool) (g : rng) : result (t * rng) :=
  if (length layer_widths <? 2)%nat then Raise ValueError
  else
    let lw := if negb deterministic then double_last layer_widths
              else layer_widths in
    let k := linear bias_linear w_linear in
    '(s, aps, g1) <- build_seq k (length lw) 0 (pairs lw) g ;;
    match extra_head_layers with
    | None =>
        Ok (mk final_activation s false deterministic layer_widths
              bias_linear aps [], g1)
    | Some extra =>
        let extra :=
          (last (removelast layer_widths) 0 + last layer_widths 0)%nat
          :: extra in
        '(h, haps, g2) <- build_head k 0 (pairs extra) g1 ;;
        Ok (mk final_activation s true deterministic layer_widths
              bias_linear (aps ++ haps) h, g2)
    end.

(** [self.parameters()]: the parameters of the registered modules, each
    tensor once; [pre_seq] and [post_seq] hold layers of [seq] and add
    nothing. *)
Definition seq_parameters (c : container) (s : list (mname * layer))
  : list param :=
  flat_map (fun nl => tag c (fst nl) (layer_parameters (snd nl))) s.

Definition parameters (m : t) : list param :=
  seq_parameters C_seq (seq m)
  ++ (if _head m then seq_parameters C_head_seq (head_seq m) else []).

Definition adaptation_parameters (m : t) : list param := parameters m.

Definition bias_parameters (m : t) : result (list param) :=
  match seq m with
  | [] => Raise IndexError
  | (n, l) :: _ =>
      if bias_linear m
      then match l with
           | L_BiasLinear _ => Ok [(C_seq, n, P__linear_bias)]
           | L_WLinear _ => Ok [(C_seq, n, P_fc_bias)]
           | _ => Raise AttributeError
           end
      else match l with
           | L_Linear _ => Ok [(C_seq, n, P_bias)]
           | _ => Raise AttributeError
           end
  end.

(** What [forward] returns: a tensor or a [(mu, sigma)] pair, alone or
    paired with the output of the head. *)
Inductive primary : Type :=
| Point (y : mat)
| Gauss (mu sigma : mat).

Inductive output : Type :=
| Single (p : primary)
| WithHead (p : primary) (head_output : mat).

Definition primary_of (o : output) : primary :=
  match o with
  | Single p => p
  | WithHead p _ => p
  end.

Definition forward (m : t) (x : mat) (acts : option mat) : result output :=
  match _head m, acts with
  | true, Some acts =>
      h <- run (pre_seq m) x ;;
      head_input <- cat h acts ;;
      p <- run (post_seq m) h ;;
      let mu_logvar := _final_activation m p in
      let mu_logvar := clamp LOG_VAR_MIN LOG_VAR_MAX mu_logvar in
      head_output <- run (head_seq m) head_input ;;
      if deterministic m
      then Ok (WithHead (Point mu_logvar) head_output)
      else Ok (WithHead (Gauss (left_half mu_logvar)
                               (half_exp (right_half mu_logvar)))
                        head_output)
  | _, _ =>
      if deterministic m
      then y <- run (seq m) x ;; Ok (Single (Point (_final_activation m y)))
      else
        y <- run (seq m) x ;;
        let mu_logvar := _final_activation m y in
        Ok (Single (Gauss (left_half mu_logvar)
                          (half_exp (right_half mu_logvar))))
  end.

End MLP.

(** ** [TwinValueFunction] *)

Module TwinValueFunction.

Record t : Type := mk {
  obs_dim : nat;
  act_dim : nat;
  f1 : list layer;
  f2 : list layer
}.

Inductive output : Type :=
| Min (v : mat)
| Both (x1 x2 : mat).

Definition forward (m : t) (x : mat) (return_min : bool) : result output :=
  x1 <- Sequential (f1 m) x ;;
  x2 <- Sequential (f2 m) x ;;
  if return_min
  then v <- bmat Rmin x1 x2 ;; Ok (Min v)
  else Ok (Both x1 x2).

(** The loop of lines 321-323, [n] passes. *)
Fixpoint hidden_layers (n hidden_dim : nat) (g : rng)
  : result (list layer * rng) :=
  match n with
  | O => Ok ([], g)
  | S n' =>
      '(w, g1) <- WLinear.init hidden_dim hidden_dim 100 g ;;
      '(ls, g2) <- hidden_layers n' hidden_dim g1 ;;
      Ok (L_WLinear w :: L_ReLU :: ls, g2)
  end.

Definition get_model_layers (observation_dim action_dim hidden_dim depth : nat)
           (g : rng) : result (list layer * rng) :=
  '(w0, g1) <- WLinear.init (observation_dim + action_dim) hidden_dim 100 g ;;
  '(hs, g2) <- hidden_layers (depth - 2) hidden_dim g1 ;;
  '(w1, g3) <- WLinear.init hidden_dim 1 100 g2 ;;
  Ok (L_WLinear w0 :: L_ReLU :: hs ++ [L_WLinear w1], g3).

Definition init (observation_dim action_dim hidden_dim depth : nat) (g : rng)
  : result (t * rng) :=
  '(l1, g1) <-
    get_model_layers observation_dim action_dim hidden_dim depth g ;;
  '(l2, g2) <-
    get_model_layers observation_dim action_dim hidden_dim depth g1 ;;
  Ok (mk observation_dim action_dim l1 l2, g2).

(** A parameter tensor of the model: the stack, the index of the layer in
    its [Sequential], the name of the tensor in the layer. *)
Inductive stack : Type := F1 | F2.

Definition param : Type := (stack * nat * pname)%type.

Fixpoint stack_parameters (c : stack) (idx : nat) (s : list layer)
  : list param :=
  match s with
  | [] => []
  | l :: s' =>
      map (fun p => (c, idx, p)) (layer_parameters l)
      ++ stack_parameters c (S idx) s'
  end.

(** [self.parameters()]: the tensors of [f1], then those of [f2]. *)
Definition parameters (m : t) : list param :=
  stack_parameters F1 0 (f1 m) ++ stack_parameters F2 0 (f2 m).

Definition adaptation_parameters (m : t) : list param := parameters m.

End TwinValueFunction.

(** ** [torch.nn.Conv1d] with kernel size 1 and [DeepSet] *)

(** A three-dimensional tensor (batch, channel, element). *)
Definition tensor3 := list mat.

Definition last_dim3 (x : tensor3) : nat :=
  match x with
  | (ch :: _) :: _ => length ch
  | _ => 0%nat
  end.

Module Conv1d.

Record t : Type := mk {
  in_channels : nat;
  out_channels : nat;
  weight : mat;   (* out_channels rows of in_channels entries, kernel size 1 *)
  bias : vec
}.

Definition init (in_c out_c : nat) (g : rng) : t * rng :=
  let (w, g1) := draw_mat out_c in_c g in
  let (b, g2) := draw out_c g1 in
  (mk in_c out_c w b, g2).

(** The element at position [l] of a set, over its channels. *)
Definition column (xb : mat) (l : nat) : vec := map (fun ch => nth l ch 0) xb.

(** One item of the batch, with [len] elements: output channel [o] at
    position [l] is [bias[o]] plus the sum over the input channels [c] of
    [weight[o][c] * x[c][l]]. *)
Definition forward_item (m : t) (len : nat) (xb : mat) : result mat :=
  if (length xb =? in_channels m)%nat
  then Ok (zipWith (fun w b => map (fun l => b + dot w (column xb l)) (seq 0 len))
             (weight m) (bias m))
  else Raise RuntimeError.

Definition forward (m : t) (x : tensor3) : result tensor3 :=
  mapM (forward_item m (last_dim3 x)) x.

End Conv1d.

Module DeepSet.

Inductive enc_layer : Type :=
| E_Conv1d (c : Conv1d.t)
| E_ReLU.

Record t : Type := mk {
  encoder : list enc_layer
}.

(** The loop of lines 23-26; [n] is the length of the extended
    [encoder_hidden]. *)
Fixpoint build (n idx : nat) (ws : list (nat * nat)) (g : rng)
  : list enc_layer * rng :=
  match ws with
  | [] => ([], g)
  | (d, d_) :: ws' =>
      let (c, g1) := Conv1d.init d d_ g in
      let (s, g2) := build n (S idx) ws' g1 in
      ((E_Conv1d c :: (if (idx <? n - 1)%nat then [E_ReLU] else [])) ++ s, g2)
  end.

Definition init (element_dim encoding_dim : nat) (encoder_hidden : list nat)
           (output_dim : nat) (g : rng) : t * rng :=
  let encoder_hidden := element_dim :: encoder_hidden ++ [encoding_dim] in
  let (s, g') :=
    build (length encoder_hidden) 0 (MLP.pairs encoder_hidden) g in
  (mk s, g').

Definition enc_forward (l : enc_layer) (x : tensor3) : result tensor3 :=
  match l with
  | E_Conv1d c => Conv1d.forward c x
  | E_ReLU => Ok (map relu x)
  end.

Fixpoint encode (s : list enc_layer) (x : tensor3) : result tensor3 :=
  match s with
  | [] => Ok x
  | l :: s' => y <- enc_forward l x ;; encode s' y
  end.

(** [x.mean(-1)]. *)
Definition mean (v : vec) : R := rsum v / INR (length v).
Definition aggregator (x : tensor3) : mat := map (map mean) x.

Definition forward (m : t) (x : tensor3) : result mat :=
  encodings <- encode (encoder m) x ;;
  Ok (aggregator encodings).

End DeepSet.

(** ** [CVAE] *)

Module CVAE.

Record t : Type := mk {
  _encoder : MLP.t;
  _prior : option MLP.t;
  _decoder : MLP.t;
  _traj_encoder : DeepSet.t;
  (* [_state_preprocess] and [_latent_preprocess], when [preprocess] *)
  _preprocess : option (MLP.t * MLP.t);
  _z : option mat;
  _latent_dim : nat
}.

(** The attribute assignments of [__init__] on the sub-modules it has built:
    the cached latent starts as [None]. *)
Definition assemble (encoder : MLP.t) (prior : option MLP.t) (decoder : MLP.t)
           (traj_encoder : DeepSet.t) (preprocess : option (MLP.t * MLP.t))
           (latent_dim : nat) : t :=
  mk encoder prior decoder traj_encoder preprocess None latent_dim.

(** A network of the model applied to a tensor.  The networks of a [CVAE] are
    built deterministic and without a head, so the call yields a tensor; a
    tuple is an error at its first use as a tensor. *)
Definition call (m : MLP.t) (x : mat) : result mat :=
  o <- MLP.forward m x None ;;
  match o with
  | MLP.Single (MLP.Point y) => Ok y
  | _ => Raise TypeError
  end.

(** [encode], [prior] and [decode] return [mu_logvar], or the pair of
    [mu_logvar] and a sample. *)
Inductive dist : Type :=
| Params (mu_logvar : mat)
| Sampled (mu_logvar : mat) (draw : mat).

Definition sample (mu_logvar : mat) (g : rng) : result (mat * rng) :=
  let mu := left_half mu_logvar in
  let std := half_exp (right_half mu_logvar) in
  let (noise, g') := normal_like mu g in
  ns <- bmat Rmult noise std ;;
  r <- bmat Rplus ns mu ;;
  Ok (r, g').

Definition with_sample (mu_logvar : mat) (sample_flag : bool) (g : rng)
  : result (dist * rng) :=
  if sample_flag
  then '(s, g') <- sample mu_logvar g ;; Ok (Sampled mu_logvar s, g')
  else Ok (Params mu_logvar, g).

Definition encode (self : t) (traj : tensor3) (sample_flag : bool) (g : rng)
  : result (dist * rng) :=
  traj_encoding <- DeepSet.forward (_traj_encoder self) traj ;;
  mu_logvar <- call (_encoder self) traj_encoding ;;
  with_sample mu_logvar sample_flag g.

(** [self._encoder.seq[0].weight.device]: the first layer of the encoder must
    have an attribute [weight]. *)
Definition device (m : MLP.t) : result unit :=
  match MLP.seq m with
  | [] => Raise IndexError
  | (_, L_Linear _) :: _ => Ok tt
  | (_, L_WLinear _) :: _ => Ok tt
  | _ => Raise AttributeError
  end.

Definition prior (self : t) (obs : mat) (sample_flag : bool) (g : rng)
  : result (dist * rng) :=
  mu_logvar <-
    match _prior self with
    | None =>
        d <- device (_encoder self) ;;
        Ok [repeat 0 (_latent_dim self * 2)]
    | Some p => call p obs
    end ;;
  with_sample mu_logvar sample_flag g.

Definition decode (self : t) (latent obs : mat) (sample_flag : bool) (g : rng)
  : result (dist * rng) :=
  '(obs, latent) <-
    match _preprocess self with
    | Some (state_preprocess, latent_preprocess) =>
        s <- call state_preprocess obs ;;
        l <- call latent_preprocess latent ;;
        Ok (s, l)
    | None => Ok (obs, latent)
    end ;;
  x <- cat latent obs ;;
  mu_logvar <- call (_decoder self) x ;;
  with_sample mu_logvar sample_flag g.

(** [d[1]] of a returned pair. *)
Definition item1 (d : dist) : result mat :=
  match d with
  | Sampled _ s => Ok s
  | Params _ => Raise IndexError   (* not reached: the callers ask for a sample *)
  end.

(** [d] where a tensor [mu_logvar] is expected. *)
Definition params (d : dist) : result mat :=
  match d with
  | Params m => Ok m
  | Sampled _ _ => Raise TypeError   (* not reached: [forward] asks for no sample *)
  end.

(** [fix]: [detach] leaves the values as they are. *)
Definition fix_ (self : t) (obs : mat) (g : rng) : result (t * rng) :=
  '(d, g') <- prior self obs true g ;;
  z <- item1 d ;;
  Ok (mk (_encoder self) (_prior self) (_decoder self) (_traj_encoder self)
         (_preprocess self) (Some z) (_latent_dim self), g').

Definition unfix (self : t) : t :=
  mk (_encoder self) (_prior self) (_decoder self) (_traj_encoder self)
     (_preprocess self) None (_latent_dim self).

Definition forward (self : t) (obs : mat) (g : rng)
  : result (mat * mat * rng) :=
  '(z, g1) <-
    match _z self with
    | Some z => Ok (z, g)
    | None => '(d, g') <- prior self obs true g ;; z <- item1 d ;; Ok (z, g')
    end ;;
  '(d, g2) <- decode self z obs false g1 ;;
  mu_logvar <- params d ;;
  Ok (left_half mu_logvar, half_exp (right_half mu_logvar), g2).

(** [MLP(widths)], every other argument at its default. *)
Definition default_MLP (widths : list nat) (g : rng) : result (MLP.t * rng) :=
  MLP.init widths (fun x => x) false None false true g.

(** [CVAE.__init__]. *)
Definition init (observation_dim action_dim traj_dim latent_dim : nat)
           (encoder_hidden prior_hidden decoder_hidden : list nat)
           (condition_prior preprocess : bool) (g : rng) : result (t * rng) :=
  '(encoder, g1) <-
    default_MLP (traj_dim :: encoder_hidden ++ [(latent_dim * 2)%nat]) g ;;
  '(prior, g2) <-
    (if condition_prior
     then '(p, g') <-
            default_MLP
              (observation_dim :: encoder_hidden ++ [(latent_dim * 2)%nat])
              g1 ;;
          Ok (Some p, g')
     else Ok (None, g1)) ;;
  let decoder_input_dim :=
    if negb preprocess then (latent_dim + observation_dim)%nat
    else (latent_dim * 2)%nat in
  '(decoder, g3) <-
    default_MLP
      (decoder_input_dim :: decoder_hidden ++ [(action_dim * 2)%nat]) g2 ;;
  let (traj_encoder, g4) :=
    DeepSet.init (observation_dim + action_dim) traj_dim
                 [128%nat; 128%nat] 128 g3 in
  '(pre, g5) <-
    (if preprocess
     then '(sp, g') <-
            default_MLP (observation_dim :: decoder_hidden ++ [latent_dim])
                        g4 ;;
          '(lp, g'') <-
            default_MLP (latent_dim :: decoder_hidden ++ [latent_dim]) g' ;;
          Ok (Some (sp, lp), g'')
     else Ok (None, g4)) ;;
  Ok (assemble encoder prior decoder traj_encoder pre latent_dim, g5).

End CVAE.

(** * Notions used in the statements *)

(** A tensor whose rows have [c] entries. *)
Definition width (c : nat) (t : mat) : Prop :=
  Forall (fun r : vec => length r = c) t.

(** Two tensors of one shape. *)
Definition same_shape (a b : mat) : Prop :=
  Forall2 (fun r s : vec => length r = length s) a b.

(** The network [m] with its head taken away. *)
Definition without_head (m : MLP.t) : MLP.t :=
  MLP.mk (MLP._final_activation m) (MLP.seq m) false (MLP.deterministic m)
         (MLP.layer_widths m) (MLP.bias_linear m) (MLP.aparams m) [].

(** The primary output computed from the output [y] of the stack when the
    head branch is not taken. *)
Definition plain_output (m : MLP.t) (y : mat) : MLP.output :=
  let out := MLP._final_activation m y in
  if MLP.deterministic m
  then MLP.Single (MLP.Point out)
  else MLP.Single (MLP.Gauss (left_half out) (half_exp (right_half out))).


(** ** Concrete networks *)

(** The layer [BiasLinear(i, o)] with the given parameter values. *)
Definition bias_layer (i o : nat) (weight : mat) (bias _bias : vec)
           (_weight : mat) : layer :=
  L_BiasLinear (BiasLinear.mk (Linear.mk i o weight bias) _bias _weight).

Definition all_of (c : MLP.container) (idx : nat) : list MLP.param :=
  MLP.tag c (MLP.fc idx)
          [P__bias; P__weight; P__linear_weight; P__linear_bias].

(** [MLP([1, 1], bias_linear=True, deterministic=False)]: one layer
    [BiasLinear(1, 2)], whose parameters make the output [(0, 4)] on every
    input. *)
Definition gauss_net : MLP.t :=
  MLP.mk (fun x => x)
         [(MLP.fc 0, bias_layer 1 2 [[0]; [0]] [0; 4] [0; 0] [[0; 0]; [0; 0]])]
         false false [1%nat; 1%nat] true (all_of MLP.C_seq 0) [].

(** [MLP([1, 1], bias_linear=True, extra_head_layers=[1])]: the stack is one
    layer [BiasLinear(1, 1)] with output [5] on every input, the head is a
    [ReLU] and one layer [BiasLinear(2, 1)]. *)
Definition headed_net : MLP.t :=
  MLP.mk (fun x => x)
         [(MLP.fc 0, bias_layer 1 1 [[0]] [5] [0] [[0]])]
         true true [1%nat; 1%nat] true
         (all_of MLP.C_seq 0 ++ all_of MLP.C_head_seq 0)
         [(MLP.relu_ 0, L_ReLU);
          (MLP.fc 0, bias_layer 2 1 [[0; 0]] [0] [0] [[0]])].

(** [MLP([i, o])] as [CVAE.__init__] asks for it: one layer
    [torch.nn.Linear(i, o)], identity final activation. *)
Definition linear_net (i o : nat) (weight : mat) (bias : vec) : MLP.t :=
  MLP.mk (fun x => x) [(MLP.fc 0, L_Linear (Linear.mk i o weight bias))]
         false true [i; o] false [] [].

Definition zero_conv (i o : nat) : DeepSet.enc_layer :=
  DeepSet.E_Conv1d (Conv1d.mk i o (repeat (repeat 0 i) o) (repeat 0 o)).

(** The object that the assignments of [CVAE.__init__] describe for
    [CVAE(observation_dim=1, action_dim=1, traj_dim=1, latent_dim=1,
    encoder_hidden=[], decoder_hidden=[])]: no conditioning prior, no
    preprocessing, a decoder [Linear(2, 2)] whose parameters make its output
    [(0, 4)] on every input.  [__init__] itself raises before it has built
    the first of these networks; the methods are run on this object. *)
Definition small_cvae : CVAE.t :=
  CVAE.assemble
    (linear_net 1 2 [[0]; [0]] [0; 0])
    None
    (linear_net 2 2 [[0; 0]; [0; 0]] [0; 4])
    (DeepSet.mk [zero_conv 2 128; DeepSet.E_ReLU;
                 zero_conv 128 128; DeepSet.E_ReLU;
                 zero_conv 128 1; DeepSet.E_ReLU])
    None
    1.

(** [self] with its cached latent set to [z]. *)
Definition set_z (self : CVAE.t) (z : option mat) : CVAE.t :=
  CVAE.mk (CVAE._encoder self) (CVAE._prior self) (CVAE._decoder self)
          (CVAE._traj_encoder self) (CVAE._preprocess self) z
          (CVAE._latent_dim self).

(** What [forward] computes from a latent [z]: the decoder's [mu_logvar],
    split, the second half halved and exponentiated. *)
Definition decoded (self : CVAE.t) (z obs : mat) : result (mat * mat) :=
  '(obs, latent) <-
    match CVAE._preprocess self with
    | Some (state_preprocess, latent_preprocess) =>
        s <- CVAE.call state_preprocess obs ;;
        l <- CVAE.call latent_preprocess z ;;
        Ok (s, l)
    | None => Ok (obs, z)
    end ;;
  x <- cat latent obs ;;
  mu_logvar <- CVAE.call (CVAE._decoder self) x ;;
  Ok (left_half mu_logvar, half_exp (right_half mu_logvar)).

(** A result paired with the state of the generator. *)
Definition with_rng {A : Type} (r : result A) (g : rng) : result (A * rng) :=
  a <- r ;; Ok (a, g).

(** ** Permuting the element axis *)

(** [v] read at the positions [p]: entry [j] of the result is [v[p[j]]]. *)
Definition permute (p : list nat) (v : vec) : vec :=
  map (fun i => nth i v 0) p.

(** The same permutation of the trailing axis of a (batch, channel, element)
    tensor. *)
Definition permute_elements (p : list nat) (x : tensor3) : tensor3 :=
  map (map (permute p)) x.

(** [b] is [a], or [a] with its elements permuted by [p], [a] having
    [length p] elements. *)
Definition related (p : list nat) (a b : tensor3) : Prop :=
  b = a \/ (b = permute_elements p a /\ Forall (width (length p)) a).

Definition map_result {A B : Type} (f : A -> B) (r : result A) : result B :=
  a <- r ;; Ok (f a).

(** [DeepSet(element_dim=1, encoding_dim=1, encoder_hidden=[])]: one
    convolution and one [ReLU], here with the weight 2 and the bias 1. *)
Definition small_deepset : DeepSet.t :=
  DeepSet.mk [DeepSet.E_Conv1d (Conv1d.mk 1 1 [[2]] [1]); DeepSet.E_ReLU].

(** ** The architecture of a network: names, sizes and flags, without the
    values of the parameters *)

Definition Linear_shape (l : Linear.t) : list (list nat) :=
  [[Linear.in_features l; Linear.out_features l];
   map (@length R) (Linear.weight l);
   [length (Linear.bias l)]].

Definition shape_of (l : layer) : list (list nat) :=
  match l with
  | L_Linear l => Linear_shape l
  | L_BiasLinear b =>
      Linear_shape (BiasLinear._linear b)
      ++ [[length (BiasLinear._bias b)];
          map (@length R) (BiasLinear._weight b)]
  | L_WLinear w =>
      [[length (WLinear.z w)]; [WLinear.w_idx w; WLinear.out_f w]]
      ++ Linear_shape (WLinear.fc w)
  | L_ReLU => []
  end.

Definition shapes (s : list (MLP.mname * layer))
  : list (MLP.mname * list (list nat)) :=
  map (fun nl => (fst nl, shape_of (snd nl))) s.

Definition same_architecture (m m' : MLP.t) : Prop :=
  shapes (MLP.seq m) = shapes (MLP.seq m')
  /\ shapes (MLP.head_seq m) = shapes (MLP.head_seq m')
  /\ MLP._head m = MLP._head m'
  /\ MLP.deterministic m = MLP.deterministic m'
  /\ MLP.layer_widths m = MLP.layer_widths m'
  /\ MLP.bias_linear m = MLP.bias_linear m'
  /\ MLP.aparams m = MLP.aparams m'.

(** The layer [WLinear(i, o)] whose generating map yields the flat parameter
    vector [theta] (a zero weight applied to the latent vector, plus the bias
    [theta]). *)
Definition wlinear (i o : nat) (theta : vec) : layer :=
  L_WLinear
    (WLinear.mk (repeat 0 100)
                (Linear.mk 100 (i * o + o)
                           (repeat (repeat 0 100) (i * o + o)) theta)
                (i * o) o).

(** [TwinValueFunction(observation_dim=1, hidden_dim=1, depth=2)]: each stack
    is [WLinear(1, 1)], [ReLU], [WLinear(1, 1)]; the first computes
    [relu(x) + 1], the second [1 - relu(x)]. *)
Definition small_twin : TwinValueFunction.t :=
  TwinValueFunction.mk 1 0
    [wlinear 1 1 [1; 0]; L_ReLU; wlinear 1 1 [1; 1]]
    [wlinear 1 1 [1; 0]; L_ReLU; wlinear 1 1 [-1; 1]].

(** * Notions used in the further properties *)

(** The names of a stack of [n] linear layers, from index [idx] on: each
    layer but the last is followed by a [ReLU]. *)
Fixpoint stack_names (idx n : nat) : list MLP.mname :=
  match n with
  | O => []
  | S n' =>
      MLP.fc idx
      :: (match n' with O => [] | S _ => [MLP.relu_ idx] end)
      ++ stack_names (S idx) n'
  end.

(** The names of a head of [n] linear layers: each follows a [ReLU]. *)
Fixpoint head_names (idx n : nat) : list MLP.mname :=
  match n with
  | O => []
  | S n' => MLP.relu_ idx :: MLP.fc idx :: head_names (S idx) n'
  end.

(** The class of a layer, [None] for a [ReLU]. *)
Definition kind_of (l : layer) : option MLP.kind :=
  match l with
  | L_Linear _ => Some MLP.K_Linear
  | L_BiasLinear _ => Some MLP.K_BiasLinear
  | L_WLinear _ => Some MLP.K_WLinear
  | L_ReLU => None
  end.

(** A named layer is what its name says: [fc_i] a linear primitive of class
    [k], [relu_i] a [ReLU]. *)
Definition named_right (k : MLP.kind) (nl : MLP.mname * layer) : Prop :=
  match fst nl with
  | MLP.fc _ => kind_of (snd nl) = Some k
  | MLP.relu_ _ => snd nl = L_ReLU
  end.

Definition positive (l : list nat) : Prop := Forall (fun o => o <> 0%nat) l.

Definition entries (P : R -> Prop) (t : mat) : Prop := Forall (Forall P) t.

(** A [torch.nn.Linear(i, o)]: the sizes of its tensors. *)
Definition Linear_dims (l : Linear.t) (i o : nat) : Prop :=
  Linear.in_features l = i
  /\ Linear.out_features l = o
  /\ length (Linear.weight l) = o
  /\ width i (Linear.weight l)
  /\ length (Linear.bias l) = o.

(** A layer as the constructors build it for [i] inputs and [o] outputs:
    [BiasLinear(i, o)] with its [o] by [o] correction, [WLinear(i, o)] with
    its generating map onto [i * o + o] parameters; a [ReLU] keeps the
    width. *)
Definition layer_dims (l : layer) (i o : nat) : Prop :=
  match l with
  | L_Linear l => Linear_dims l i o
  | L_BiasLinear b =>
      Linear_dims (BiasLinear._linear b) i o
      /\ length (BiasLinear._bias b) = o
      /\ length (BiasLinear._weight b) = o
      /\ width o (BiasLinear._weight b)
      /\ (0 < o)%nat
  | L_WLinear w =>
      Linear_dims (WLinear.fc w) (length (WLinear.z w)) (i * o + o)
      /\ WLinear.w_idx w = (i * o)%nat
      /\ WLinear.out_f w = o
      /\ (0 < i)%nat /\ (0 < o)%nat
  | L_ReLU => i = o
  end.

(** A stack whose layers fit one another, from width [i] to width [o]. *)
Fixpoint chain (s : list layer) (i o : nat) : Prop :=
  match s with
  | [] => i = o
  | l :: s' => exists mid, layer_dims l i mid /\ chain s' mid o
  end.

(** The widths as the layers are built on them: the last one doubled in
    probabilistic mode. *)
Definition built_widths (layer_widths : list nat) (deterministic : bool)
  : list nat :=
  if negb deterministic then MLP.double_last layer_widths else layer_widths.

(** The range that [torch.clamp(., LOG_VAR_MIN, LOG_VAR_MAX)] leaves, and the
    range of [(v / 2).exp()] over it. *)
Definition log_var_range (v : R) : Prop := LOG_VAR_MIN <= v <= LOG_VAR_MAX.

Definition std_range (s : R) : Prop :=
  exp (LOG_VAR_MIN / 2) <= s <= exp (LOG_VAR_MAX / 2).

(** A latent vector [z] of a [WLinear] among the parameters. *)
Definition is_z (p : MLP.param) : bool :=
  match snd p with
  | P_z => true
  | _ => false
  end.

(** A [Conv1d(i, o, 1)]: the sizes of its tensors. *)
Definition Conv1d_dims (c : Conv1d.t) (i o : nat) : Prop :=
  Conv1d.in_channels c = i
  /\ length (Conv1d.weight c) = o
  /\ length (Conv1d.bias c) = o.

(** An encoder in which every convolution is followed by a [ReLU], from [i]
    channels to [o] channels, every convolution with a positive number of
    output channels. *)
Inductive conv_relu_chain : list DeepSet.enc_layer -> nat -> nat -> Prop :=
| chain_nil (i : nat) : conv_relu_chain [] i i
| chain_cons (c : Conv1d.t) (s : list DeepSet.enc_layer) (i mid o : nat) :
    (0 < mid)%nat ->
    Conv1d_dims c i mid ->
    conv_relu_chain s mid o ->
    conv_relu_chain (DeepSet.E_Conv1d c :: DeepSet.E_ReLU :: s) i o.

(** A (batch, channel, element) tensor with [c] channels of [n] elements. *)
Definition shape3 (c n : nat) (x : tensor3) : Prop :=
  Forall (fun xb : mat => length xb = c /\ width n xb) x.

(** The classes of the layers of one stack of a [TwinValueFunction] of the
    given [depth]: a [WLinear] and a [ReLU], [depth - 2] times the same, and a
    last [WLinear]. *)
Definition twin_kinds (depth : nat) : list (option MLP.kind) :=
  Some MLP.K_WLinear :: None
  :: concat (repeat [Some MLP.K_WLinear; None] (depth - 2))
  ++ [Some MLP.K_WLinear].

(** * [WLinearMix] *)

(** [t.view(-1, cols)] of a one-dimensional tensor. *)
Definition view_cols (t : vec) (cols : nat) : result mat :=
  match cols with
  | O => Raise RuntimeError
  | S _ =>
      if (length t mod cols =? 0)%nat
      then Ok (chunks (length t / cols) cols t)
      else Raise RuntimeError
  end.

(** [t.view(d0, -1, d2)] of a contiguous tensor whose entries, in row-major
    order, are [t]. *)
Definition view3 (t : vec) (d0 d2 : nat) : result (list mat) :=
  match (d0 * d2)%nat with
  | O => Raise RuntimeError
  | S _ =>
      if (length t mod (d0 * d2) =? 0)%nat
      then let d1 := (length t / (d0 * d2))%nat in
           Ok (map (chunks d1 d2) (chunks d0 (d1 * d2) t))
      else Raise RuntimeError
  end.

(** [s.mean(0)] of a three-dimensional tensor with at least one item. *)
Definition sum0 (s : list mat) : mat :=
  match s with
  | [] => []
  | s0 :: rest => fold_left (zipWith (zipWith Rplus)) rest s0
  end.

Definition mean0 (s : list mat) : mat :=
  map (map (fun v => v / INR (length s))) (sum0 s).

Module WLinearMix.

Record t : Type := mk {
  z : vec;
  m : list Linear.t;
  out : Linear.t;
  scales : vec;
  n_mix : nat;
  w_idx : nat
}.

(** [[nn.Linear(dim, dim) for _ in range(n)]]. *)
Fixpoint init_m (n dim : nat) (g : rng) : list Linear.t * rng :=
  match n with
  | O => ([], g)
  | S n' =>
      let (l, g1) := Linear.init dim dim g in
      let (ls, g2) := init_m n' dim g1 in
      (l :: ls, g2)
  end.

Definition init (in_features out_features depth n_mix dim : nat) (g : rng)
  : result (t * rng) :=
  match (Nat.max in_features out_features * n_mix)%nat with
  | O => Raise ZeroDivisionError
  | S _ =>
      let (z0, g1) :=
        normal_ dim 0
                (1 / INR (Nat.max in_features out_features * n_mix)) g in
      let (ms, g2) := init_m (depth - 1) dim g1 in
      let (o, g3) :=
        Linear.init dim
                    (n_mix * (in_features * out_features + out_features)) g2 in
      Ok (mk z0 ms o (repeat 1 n_mix) n_mix (in_features * out_features), g3)
  end.

(** The loop of lines 189-190. *)
Fixpoint hidden (ms : list Linear.t) (theta : vec) : result vec :=
  match ms with
  | [] => Ok theta
  | l :: ms' =>
      t <- Linear.forward1 l theta ;; hidden ms' (map (Rmax 0) t)
  end.

(** [w] has the shape (n_mix, o, i) and [b] the shape (n_mix, 1, o); item [k]
    of [stack] at row [r] is [w[k] @ x[r] + b[k]]. *)
Definition forward (s : t) (x : mat) : result mat :=
  theta <- hidden (m s) (z s) ;;
  theta <- Linear.forward1 (out s) theta ;;
  let theta := map tanh theta in
  theta <- view_cols theta (n_mix s) ;;
  w <- view3 (concat (firstn (w_idx s) theta)) (n_mix s) (last_dim x) ;;
  b <- view (concat (skipn (w_idx s) theta)) (n_mix s) ;;
  stack <-
    mapM2 (fun wk bk =>
             add_vec (map (fun r => map (fun wrow => dot wrow r) wk) x) bk)
          w b ;;
  Ok (mean0 stack).

End WLinearMix.

(** The sum of the absolute values of a row. *)
Definition l1 (r : vec) : R := rsum (map Rabs r).

(** Every entry of row [r] of [y] is at most [c * (l1 x[r] + 1)] in absolute
    value. *)
Definition rows_within (c : R) (x y : mat) : Prop :=
  Forall2 (fun xr yr : vec => Forall (fun v => Rabs v <= c * (l1 xr + 1)) yr)
          x y.

(** The tensors of [n] [WLinear] layers at the even indices of stack [c],
    three for each layer. *)
Definition twin_params (c : TwinValueFunction.stack) (n : nat)
  : list TwinValueFunction.param :=
  flat_map (fun i => [(c, (2 * i)%nat, P_z);
                      (c, (2 * i)%nat, P_fc_weight);
                      (c, (2 * i)%nat, P_fc_bias)])
           (seq 0 n).

(** * [CVAE.sample] on tensors of one, two and three dimensions *)

Inductive tensor : Type :=
| T1 (v : vec)
| T2 (m : mat)
| T3 (x : tensor3).

(** [t.shape[-1]]. *)
Definition tensor_last_dim (t : tensor) : nat :=
  match t with
  | T1 v => length v
  | T2 m => last_dim m
  | T3 x => last_dim3 x
  end.

(** [torch.empty_like(t).normal_()] on three dimensions. *)
Fixpoint normal_like3 (x : tensor3) (g : rng) : tensor3 * rng :=
  match x with
  | [] => ([], g)
  | m :: x' =>
      let (n, g1) := normal_like m g in
      let (ns, g2) := normal_like3 x' g1 in
      (n :: ns, g2)
  end.

(** [CVAE.sample] on a (batch, row, column) tensor: the slices
    [mu_logvar[:, : k]] and [mu_logvar[:, k :]] are taken on the second axis,
    the rows, with the bound [k] read from the last axis. *)
Definition sample3 (mu_logvar : tensor3) (g : rng) : result (tensor3 * rng) :=
  let k := (last_dim3 mu_logvar / 2)%nat in
  let mu := map (firstn k) mu_logvar in
  let std := map half_exp (map (skipn k) mu_logvar) in
  let (noise, g') := normal_like3 mu g in
  ns <- mapM2 (bmat Rmult) noise std ;;
  r <- mapM2 (bmat Rplus) ns mu ;;
  Ok (r, g').

(** [CVAE.sample] by the number of dimensions of its argument: line 81
    indexes two axes, which a one-dimensional tensor has not
    ([IndexError]); on two dimensions the second axis is the last one. *)
Definition sample_any (mu_logvar : tensor) (g : rng) : result (tensor * rng) :=
  match mu_logvar with
  | T1 _ => Raise IndexError
  | T2 m => '(r, g') <- CVAE.sample m g ;; Ok (T2 r, g')
  | T3 x => '(r, g') <- sample3 x g ;; Ok (T3 r, g')
  end.
(** * Properties *)

(** ** The result monad and [Sequential] *)

Lemma bind_Ok {A B : Type} (r : result A) (k : A -> result B) (b : B) :
  bind r k = Ok b -> exists a, r = Ok a /\ k a = Ok b.
Proof.
  destruct r as [a|e]; simpl; intros H.
  - exists a. split; [reflexivity | exact H].
  - discriminate H.
Qed.

Lemma bind_assoc {A B C : Type} (r : result A) (k : A -> result B)
      (k' : B -> result C) :
  bind (bind r k) k' = bind r (fun a => bind (k a) k').
Proof. destruct r; reflexivity. Qed.

Lemma Sequential_app (s1 s2 : list layer) (x : mat) :
  Sequential (s1 ++ s2) x = (y <- Sequential s1 x ;; Sequential s2 y).
Proof.
  revert x. induction s1 as [|l s1 IH]; intros x; simpl.
  - reflexivity.
  - destruct (layer_forward l x) as [y|e]; simpl; [apply IH | reflexivity].
Qed.

(** The trunk followed by the post segment is the whole stack. *)
Lemma run_pre_post (m : MLP.t) (x : mat) :
  MLP.run (MLP.seq m) x
  = (h <- MLP.run (MLP.pre_seq m) x ;; MLP.run (MLP.post_seq m) h).
Proof.
  unfold MLP.run, MLP.pre_seq, MLP.post_seq.
  rewrite <- Sequential_app, <- map_app, firstn_skipn. reflexivity.
Qed.

(** Closes an equation between real expressions built from the arithmetic
    operations, [Rmin] and [Rmax]. *)
Ltac real_eq :=
  unfold LOG_VAR_MIN, LOG_VAR_MAX, Rmin, Rmax;
  repeat match goal with
         | |- context [Rle_dec ?a ?b] => destruct (Rle_dec a b)
         end;
  first [lra | ring].

(** Evaluates a network on a concrete input. *)
Ltac evaluate := cbn; repeat f_equal; real_eq.

(** ** [TwinValueFunction] *)

Lemma bvec_same_length (f : R -> R -> R) (u v : vec) :
  length u = length v -> bvec f u v = Ok (zipWith f u v).
Proof.
  intros H. unfold bvec. rewrite H, Nat.eqb_refl. reflexivity.
Qed.

Lemma mapM2_bvec_same_shape (f : R -> R -> R) (a b : mat) :
  same_shape a b -> mapM2 (bvec f) a b = Ok (zipWith (zipWith f) a b).
Proof.
  induction 1 as [|r s a b Hrs _ IH]; simpl.
  - reflexivity.
  - rewrite (bvec_same_length f r s Hrs). simpl. rewrite IH. reflexivity.
Qed.

Lemma bmat_same_shape (f : R -> R -> R) (a b : mat) :
  same_shape a b -> bmat f a b = Ok (zipWith (zipWith f) a b).
Proof.
  intros H. unfold bmat.
  rewrite (Forall2_length H), Nat.eqb_refl.
  apply mapM2_bvec_same_shape, H.
Qed.

(** C7: with [return_min=True] the twin critic returns the element-wise
    minimum ([torch.minimum], entry by entry on outputs of one shape) of the
    two outputs [(x1, x2)] that the same call returns with
    [return_min=False]; when that call raises, so does this one. *)
Theorem twin_forward_min_of_both (m : TwinValueFunction.t) (x : mat) :
  match TwinValueFunction.forward m x false with
  | Ok (TwinValueFunction.Both x1 x2) =>
      TwinValueFunction.forward m x true
      = (v <- bmat Rmin x1 x2 ;; Ok (TwinValueFunction.Min v))
      /\ (same_shape x1 x2 ->
          TwinValueFunction.forward m x true
          = Ok (TwinValueFunction.Min (zipWith (zipWith Rmin) x1 x2)))
  | Ok (TwinValueFunction.Min _) => False
  | Raise e => TwinValueFunction.forward m x true = Raise e
  end.
Proof.
  unfold TwinValueFunction.forward.
  destruct (Sequential (TwinValueFunction.f1 m) x) as [x1|e]; simpl;
    [|reflexivity].
  destruct (Sequential (TwinValueFunction.f2 m) x) as [x2|e]; simpl;
    [|reflexivity].
  split; [reflexivity|].
  intros H. rewrite (bmat_same_shape Rmin x1 x2 H). reflexivity.
Qed.

(** The twin critic on the input 2: the stacks yield 3 and -1. *)
Lemma small_twin_forward :
  TwinValueFunction.forward small_twin [[2]] false
  = Ok (TwinValueFunction.Both [[3]] [[-1]])
  /\ TwinValueFunction.forward small_twin [[2]] true
     = Ok (TwinValueFunction.Min [[-1]]).
Proof.
  split; cbn; repeat f_equal; real_eq.
Qed.

(** ** [MLP.forward] *)

Lemma forward_head_not_taken (m : MLP.t) (x : mat) (acts : option mat) :
  MLP._head m = false \/ acts = None ->
  MLP.forward m x acts = (y <- MLP.run (MLP.seq m) x ;; Ok (plain_output m y)).
Proof.
  intros H. unfold MLP.forward, plain_output.
  assert (E : match MLP._head m, acts with
              | true, Some _ => False
              | _, _ => True
              end).
  { destruct H as [H|H]; rewrite H; [exact I|].
    destruct (MLP._head m); exact I. }
  destruct (MLP._head m), acts as [a|]; try contradiction;
    destruct (MLP.deterministic m); reflexivity.
Qed.

(** C10: an [MLP] that has a head, called without [acts], returns only the
    primary output, computed from the stack without any clamping, exactly as
    the same network without a head does; an auxiliary output is returned
    only when the head exists and [acts] is passed. *)
Theorem forward_without_acts_ignores_head (m : MLP.t) (x : mat) :
  MLP.forward m x None
  = (y <- MLP.run (MLP.seq m) x ;; Ok (plain_output m y))
  /\ MLP.forward m x None = MLP.forward (without_head m) x None
  /\ (forall acts p h,
         MLP.forward m x acts = Ok (MLP.WithHead p h) ->
         MLP._head m = true /\ exists a, acts = Some a).
Proof.
  split; [|split].
  - apply forward_head_not_taken. right. reflexivity.
  - rewrite !forward_head_not_taken by (right; reflexivity). reflexivity.
  - intros acts p h H.
    destruct (MLP._head m) eqn:Hh, acts as [a|].
    + split; [reflexivity | exists a; reflexivity].
    + rewrite forward_head_not_taken in H by (right; reflexivity).
      apply bind_Ok in H. destruct H as [y [_ H]].
      unfold plain_output in H. destruct (MLP.deterministic m); discriminate H.
    + rewrite forward_head_not_taken in H by (left; exact Hh).
      apply bind_Ok in H. destruct H as [y [_ H]].
      unfold plain_output in H. destruct (MLP.deterministic m); discriminate H.
    + rewrite forward_head_not_taken in H by (left; exact Hh).
      apply bind_Ok in H. destruct H as [y [_ H]].
      unfold plain_output in H. destruct (MLP.deterministic m); discriminate H.
Qed.

(** C4: on [headed_net], a deterministic network with a head as
    [MLP.__init__] builds it ([headed_net_is_built]), the stack yields 5 on
    the input 0.  Without [acts], [forward] returns that 5 unchanged (lines
    302-303); with [acts] it returns 2 as its primary output: line 292 clamps
    with the bounds of the log-variance before line 294 tests
    [self.deterministic]. *)
Theorem deterministic_head_branch_clamps :
  MLP.deterministic headed_net = true
  /\ MLP._head headed_net = true
  /\ MLP.run (MLP.seq headed_net) [[0]] = Ok [[5]]
  /\ MLP.forward headed_net [[0]] None = Ok (MLP.Single (MLP.Point [[5]]))
  /\ MLP.forward headed_net [[0]] (Some [[0]])
     = Ok (MLP.WithHead (MLP.Point [[2]]) [[0]])
  /\ LOG_VAR_MAX < 5.
Proof.
  split; [reflexivity|]. split; [reflexivity|].
  split; [evaluate|]. split; [evaluate|]. split; [evaluate|].
  unfold LOG_VAR_MAX. lra.
Qed.

(** Hence no statement that the primary output of a deterministic network is
    the output of the stack after the final activation, whatever the head and
    [acts], holds of [forward]. *)
Lemma deterministic_head_output_is_clamped :
  ~ (forall (m : MLP.t) (x : mat) (acts : option mat) (y : mat) (o : MLP.output),
        MLP.deterministic m = true ->
        MLP.run (MLP.seq m) x = Ok y ->
        MLP.forward m x acts = Ok o ->
        MLP.primary_of o = MLP.Point (MLP._final_activation m y)).
Proof.
  intros H.
  assert (Hy : MLP.run (MLP.seq headed_net) [[0]] = Ok [[5]]) by evaluate.
  assert (Ho : MLP.forward headed_net [[0]] (Some [[0]])
               = Ok (MLP.WithHead (MLP.Point [[2]]) [[0]])) by evaluate.
  specialize (H headed_net [[0]] (Some [[0]]) [[5]] _ eq_refl Hy Ho).
  cbn in H. injection H as H. lra.
Qed.

(** Where the branch of the head is not taken (no head, or no [acts]), a
    deterministic network returns the output of the stack after the final
    activation, unchanged. *)
Theorem deterministic_forward_unchanged (m : MLP.t) (x : mat)
        (acts : option mat) :
  MLP.deterministic m = true ->
  MLP._head m = false \/ acts = None ->
  MLP.forward m x acts
  = (y <- MLP.run (MLP.seq m) x ;;
     Ok (MLP.Single (MLP.Point (MLP._final_activation m y)))).
Proof.
  intros Hd Hh. rewrite (forward_head_not_taken m x acts Hh).
  unfold plain_output. rewrite Hd. reflexivity.
Qed.

Lemma deterministic_forward_unchanged_witness :
  MLP.forward headed_net [[0]] None
  = (y <- MLP.run (MLP.seq headed_net) [[0]] ;;
     Ok (MLP.Single (MLP.Point (MLP._final_activation headed_net y)))).
Proof.
  apply (deterministic_forward_unchanged headed_net [[0]] None).
  - reflexivity.
  - right. reflexivity.
Defined.

(** When the head branch is taken the primary output is the output of the
    stack clamped to [[LOG_VAR_MIN, LOG_VAR_MAX]], in both modes. *)
Lemma forward_head_taken (m : MLP.t) (x acts : mat) (o : MLP.output) :
  MLP._head m = true ->
  MLP.forward m x (Some acts) = Ok o ->
  exists y head_output,
    MLP.run (MLP.seq m) x = Ok y /\
    let out := clamp LOG_VAR_MIN LOG_VAR_MAX (MLP._final_activation m y) in
    o = MLP.WithHead
          (if MLP.deterministic m then MLP.Point out
           else MLP.Gauss (left_half out) (half_exp (right_half out)))
          head_output.
Proof.
  intros Hh H. unfold MLP.forward in H. rewrite Hh in H.
  rewrite run_pre_post.
  destruct (MLP.run (MLP.pre_seq m) x) as [h|e]; simpl in H; [|discriminate H].
  destruct (cat h acts) as [hi|e]; simpl in H; [|discriminate H].
  destruct (MLP.run (MLP.post_seq m) h) as [p|e] eqn:Hp; simpl in H;
    [|discriminate H].
  destruct (MLP.run (MLP.head_seq m) hi) as [ho|e]; simpl in H;
    [|discriminate H].
  exists p, ho. split; [exact Hp|].
  destruct (MLP.deterministic m); injection H as <-; reflexivity.
Qed.

(** C1, at a network the claim fails on: [gauss_net] is probabilistic and has
    no head; on the input [[0]] the stack yields the log-variance 4, which
    [forward] does not clamp to [LOG_VAR_MAX = 2], and the standard deviation
    returned is [exp 2], above the bound [exp (LOG_VAR_MAX / 2) = exp 1]. *)
Theorem probabilistic_forward_does_not_clamp :
  MLP.deterministic gauss_net = false
  /\ MLP._head gauss_net = false
  /\ MLP.run (MLP.seq gauss_net) [[0]] = Ok [[0; 4]]
  /\ MLP.forward gauss_net [[0]] None
     = Ok (MLP.Single (MLP.Gauss [[0]] [[exp 2]]))
  /\ exp (LOG_VAR_MAX / 2) < exp 2.
Proof.
  split; [reflexivity|]. split; [reflexivity|].
  split; [evaluate|]. split; [evaluate|].
  apply exp_increasing. unfold LOG_VAR_MAX. lra.
Qed.

(** ** [MLP.__init__] *)

Lemma make_Linear (i o : nat) (g : rng) :
  exists l g', MLP.make MLP.K_Linear i o g = Ok (L_Linear l, g').
Proof.
  unfold MLP.make. destruct (Linear.init i o g) as [l g'].
  exists l, g'. reflexivity.
Qed.

Lemma make_BiasLinear (i o : nat) (g : rng) :
  exists b g', MLP.make MLP.K_BiasLinear i (S o) g = Ok (L_BiasLinear b, g').
Proof.
  unfold MLP.make, BiasLinear.init.
  destruct (Linear.init i (S o) g) as [l g1].
  destruct (normal_ (length (Linear.bias l)) 0 (1 / INR (S o)) g1) as [b g2].
  destruct (draw_mat (S o) (S o) g2) as [w g3].
  eexists; eexists; reflexivity.
Qed.

Lemma make_WLinear (i o : nat) (g : rng) :
  exists w g', MLP.make MLP.K_WLinear i (S o) g = Ok (L_WLinear w, g').
Proof.
  unfold MLP.make, WLinear.init.
  destruct (normal_ 100 0 (1 / INR (S o)) g) as [z0 g1].
  destruct (Linear.init 100 (i * S o + S o) g1) as [l g2].
  eexists; eexists; reflexivity.
Qed.

Lemma make_raises (k : MLP.kind) (i o : nat) (g : rng) (e : exn) :
  MLP.make k i o g = Raise e -> e = ZeroDivisionError.
Proof.
  destruct k; unfold MLP.make.
  - destruct (Linear.init i o g); discriminate.
  - destruct o as [|o].
    + unfold BiasLinear.init. destruct (Linear.init i 0 g) as [l g1].
      simpl. intros H; injection H as <-; reflexivity.
    + destruct (make_BiasLinear i o g) as [b [g' H]].
      unfold MLP.make in H. rewrite H. discriminate.
  - destruct o as [|o].
    + simpl. intros H; injection H as <-; reflexivity.
    + destruct (make_WLinear i o g) as [w [g' H]].
      unfold MLP.make in H. rewrite H. discriminate.
Qed.

(** The layer loops raise nothing but what the layer constructors and the
    lookup of [adaptation_parameters] raise. *)
Lemma build_seq_raises (k : MLP.kind) (n : nat) (ws : list (nat * nat)) :
  forall (idx : nat) (g : rng) (e : exn),
    MLP.build_seq k n idx ws g = Raise e ->
    e = ZeroDivisionError \/ e = AttributeError.
Proof.
  induction ws as [|[i o] ws IH]; intros idx g e; simpl.
  - discriminate.
  - destruct (MLP.make k i o g) as [[w g1]|e1] eqn:Hm; simpl.
    + destruct (layer_adaptation_parameters w) as [ap|e2] eqn:Ha; simpl.
      * destruct (MLP.build_seq k n (S idx) ws g1) as [[[s aps] g2]|e3] eqn:Hb;
          simpl; [discriminate|].
        intros H; injection H as <-. exact (IH _ _ _ Hb).
      * intros H; injection H as <-. right.
        destruct w; simpl in Ha; try discriminate Ha;
          injection Ha as <-; reflexivity.
    + intros H; injection H as <-. left. exact (make_raises _ _ _ _ _ Hm).
Qed.

Lemma build_head_raises (k : MLP.kind) (ws : list (nat * nat)) :
  forall (idx : nat) (g : rng) (e : exn),
    MLP.build_head k idx ws g = Raise e ->
    e = ZeroDivisionError \/ e = AttributeError.
Proof.
  induction ws as [|[i o] ws IH]; intros idx g e; simpl.
  - discriminate.
  - destruct (MLP.make k i o g) as [[w g1]|e1] eqn:Hm; simpl.
    + destruct (layer_adaptation_parameters w) as [ap|e2] eqn:Ha; simpl.
      * destruct (MLP.build_head k (S idx) ws g1) as [[[s aps] g2]|e3] eqn:Hb;
          simpl; [discriminate|].
        intros H; injection H as <-. exact (IH _ _ _ Hb).
      * intros H; injection H as <-. right.
        destruct w; simpl in Ha; try discriminate Ha;
          injection Ha as <-; reflexivity.
    + intros H; injection H as <-. left. exact (make_raises _ _ _ _ _ Hm).
Qed.

(** The [ValueError] of line 235 is raised exactly on fewer than two
    widths. *)
Lemma init_ValueError_iff (layer_widths : list nat) (fa : mat -> mat)
      (bias_linear : bool) (extra : option (list nat))
      (w_linear deterministic : bool) (g : rng) :
  MLP.init layer_widths fa bias_linear extra w_linear deterministic g
  = Raise ValueError
  <-> (length layer_widths < 2)%nat.
Proof.
  unfold MLP.init.
  destruct (length layer_widths <? 2)%nat eqn:Hlen.
  - apply Nat.ltb_lt in Hlen. split; [intros _; exact Hlen | reflexivity].
  - apply Nat.ltb_ge in Hlen. split; [|lia].
    intros H. exfalso.
    destruct (MLP.build_seq _ _ _ _ _) as [[[s aps] g1]|e] eqn:Hb; simpl in H.
    + destruct extra as [ex|]; [|discriminate H].
      destruct (MLP.build_head _ _ _ _) as [[[h haps] g2]|e] eqn:Hh;
        simpl in H; [discriminate H|].
      injection H as ->.
      destruct (build_head_raises _ _ _ _ _ Hh); discriminate.
    + injection H as ->.
      destruct (build_seq_raises _ _ _ _ _ _ Hb); discriminate.
Qed.

Lemma length_double_last (l : list nat) :
  l <> [] -> length (MLP.double_last l) = length l.
Proof.
  intros H. unfold MLP.double_last.
  rewrite length_app, removelast_firstn_len, length_firstn. simpl.
  destruct l; [contradiction|simpl; lia].
Qed.

Lemma pairs_nonempty (l : list nat) :
  (2 <= length l)%nat -> exists i o ws, MLP.pairs l = (i, o) :: ws.
Proof.
  destruct l as [|a [|b l]]; simpl; try lia.
  intros _. exists a, b, (combine (b :: l) l). reflexivity.
Qed.

(** With the default primitive [torch.nn.Linear] the first pass of the layer
    loop raises: the layer is built, then [w.adaptation_parameters()] fails. *)
Lemma init_default_primitive_raises (layer_widths : list nat)
      (fa : mat -> mat) (extra : option (list nat)) (deterministic : bool)
      (g : rng) :
  (2 <= length layer_widths)%nat ->
  MLP.init layer_widths fa false extra false deterministic g
  = Raise AttributeError.
Proof.
  intros Hlen. unfold MLP.init.
  destruct (length layer_widths <? 2)%nat eqn:E;
    [apply Nat.ltb_lt in E; lia|].
  set (lw := if negb deterministic then MLP.double_last layer_widths
             else layer_widths).
  assert (Hlw : (2 <= length lw)%nat).
  { unfold lw. destruct deterministic; simpl; [exact Hlen|].
    rewrite length_double_last; [exact Hlen|].
    intros ->. simpl in Hlen. lia. }
  destruct (pairs_nonempty lw Hlw) as [i [o [ws Hp]]].
  rewrite Hp. simpl.
  destruct (Linear.init i o g) as [l g1]. reflexivity.
Qed.

(** C6, at a construction the claim fails on: [MLP([4, 3])], every other
    argument at its default, has two widths and raises [AttributeError]
    instead of returning a network. *)
Theorem init_two_widths_default_raises (g : rng) :
  MLP.init [4%nat; 3%nat] (fun x => x) false None false true g
  = Raise AttributeError.
Proof.
  apply init_default_primitive_raises. simpl. lia.
Qed.

(** With two widths and one of the primitives of this file, construction
    succeeds (the output width being positive) and the stack is one linear
    primitive without a [ReLU]. *)
Lemma init_two_widths_adaptable (i o : nat) (fa : mat -> mat)
      (bias_linear w_linear deterministic : bool) (g : rng) :
  bias_linear = true \/ w_linear = true ->
  exists m g',
    MLP.init [i; S o] fa bias_linear None w_linear deterministic g = Ok (m, g')
    /\ exists l, MLP.seq m = [(MLP.fc 0, l)] /\ is_linear l = true.
Proof.
  intros Hk. unfold MLP.init. simpl length. simpl Nat.ltb. cbv iota.
  set (lw := if negb deterministic then MLP.double_last [i; S o]
             else [i; S o]).
  assert (Hlw : exists o', lw = [i; S o']).
  { unfold lw. destruct deterministic; simpl.
    - exists o. reflexivity.
    - exists (o * 2 + 1)%nat. unfold MLP.double_last. simpl.
      do 2 f_equal. lia. }
  destruct Hlw as [o' ->]. simpl.
  assert (Hm : exists w g1 ap,
             MLP.make (MLP.linear bias_linear w_linear) i (S o') g = Ok (w, g1)
             /\ layer_adaptation_parameters w = Ok ap
             /\ is_linear w = true).
  { unfold MLP.linear. destruct w_linear; simpl.
    - destruct (make_WLinear i o' g) as [w [g1 H]].
      exists (L_WLinear w), g1, [P_z]. repeat split; assumption.
    - destruct Hk as [->| Hk]; [|discriminate Hk].
      destruct (make_BiasLinear i o' g) as [b [g1 H]].
      exists (L_BiasLinear b), g1, (BiasLinear.parameters b).
      repeat split; assumption. }
  destruct Hm as [w [g1 [ap [Hm [Ha Hl]]]]].
  rewrite Hm. simpl. rewrite Ha. simpl.
  eexists; eexists; split; [reflexivity|].
  exists w. split; [reflexivity | exact Hl].
Qed.

(** ** [MLP.adaptation_parameters] *)

(** C9, at a network the claim fails on: for [MLP([4, 3], w_linear=True)]
    the aggregate of the primitives' adaptation parameters, which [__init__]
    collects in [aparams], is the latent vector [seq.fc_0.z] alone, while
    [adaptation_parameters()] returns the weight and the bias of the
    generating map as well. *)
Theorem adaptation_parameters_returns_generating_map (g : rng) :
  exists m g',
    MLP.init [4%nat; 3%nat] (fun x => x) false None true true g = Ok (m, g')
    /\ MLP.aparams m = [(MLP.C_seq, MLP.fc 0, P_z)]
    /\ MLP.adaptation_parameters m
       = [(MLP.C_seq, MLP.fc 0, P_z);
          (MLP.C_seq, MLP.fc 0, P_fc_weight);
          (MLP.C_seq, MLP.fc 0, P_fc_bias)].
Proof.
  destruct (make_WLinear 4 2 g) as [w [g1 Hm]].
  unfold MLP.init. simpl length. simpl Nat.ltb. cbv iota.
  simpl negb. cbv iota. unfold MLP.linear. simpl negb. cbv iota.
  unfold MLP.pairs. simpl combine. unfold MLP.build_seq.
  rewrite Hm. simpl.
  eexists; eexists. split; [reflexivity|]. split; reflexivity.
Qed.

Lemma build_seq_cons (k : MLP.kind) (n idx i o : nat)
      (ws : list (nat * nat)) (g : rng) :
  MLP.build_seq k n idx ((i, o) :: ws) g
  = ('(w, g1) <- MLP.make k i o g ;;
     ap <- layer_adaptation_parameters w ;;
     '(s, aps, g2) <- MLP.build_seq k n (S idx) ws g1 ;;
     let r := if (idx <? n - 2)%nat then [(MLP.relu_ idx, L_ReLU)] else [] in
     Ok ((MLP.fc idx, w) :: r ++ s, MLP.tag MLP.C_seq (MLP.fc idx) ap ++ aps,
         g2)).
Proof. reflexivity. Qed.

Lemma build_head_cons (k : MLP.kind) (idx i o : nat)
      (ws : list (nat * nat)) (g : rng) :
  MLP.build_head k idx ((i, o) :: ws) g
  = ('(w, g1) <- MLP.make k i o g ;;
     ap <- layer_adaptation_parameters w ;;
     '(s, aps, g2) <- MLP.build_head k (S idx) ws g1 ;;
     Ok ((MLP.relu_ idx, L_ReLU) :: (MLP.fc idx, w) :: s,
         MLP.tag MLP.C_head_seq (MLP.fc idx) ap ++ aps, g2)).
Proof. reflexivity. Qed.

Lemma make_BiasLinear_inv (i o : nat) (g g1 : rng) (w : layer) :
  MLP.make MLP.K_BiasLinear i o g = Ok (w, g1) -> exists b, w = L_BiasLinear b.
Proof.
  unfold MLP.make.
  destruct (BiasLinear.init i o None g) as [[b gb]|eb]; simpl;
    [|discriminate].
  intros H; injection H as <- _. exists b. reflexivity.
Qed.

(** The parameters that the layer loops collect from [BiasLinear] layers are
    all the parameters of the layers built. *)
Lemma build_seq_bias_aparams (n : nat) (ws : list (nat * nat)) :
  forall (idx : nat) (g g' : rng) (s : list (MLP.mname * layer))
         (aps : list MLP.param),
    MLP.build_seq MLP.K_BiasLinear n idx ws g = Ok (s, aps, g') ->
    MLP.seq_parameters MLP.C_seq s = aps.
Proof.
  induction ws as [|[i o] ws IH]; intros idx g g' s aps.
  - simpl. intros H; injection H as <- <- _. reflexivity.
  - rewrite build_seq_cons.
    destruct (MLP.make MLP.K_BiasLinear i o g) as [[w g1]|e] eqn:Hm;
      [|discriminate].
    destruct (make_BiasLinear_inv _ _ _ _ _ Hm) as [b ->]. simpl.
    destruct (MLP.build_seq MLP.K_BiasLinear n (S idx) ws g1)
      as [[[s' aps'] g2]|e] eqn:Hb; simpl; [|discriminate].
    intros H; injection H as <- <- _.
    specialize (IH _ _ _ _ _ Hb).
    unfold MLP.seq_parameters in *. simpl.
    destruct (idx <? n - 2)%nat; simpl; rewrite IH; reflexivity.
Qed.

Lemma build_head_bias_aparams (ws : list (nat * nat)) :
  forall (idx : nat) (g g' : rng) (s : list (MLP.mname * layer))
         (aps : list MLP.param),
    MLP.build_head MLP.K_BiasLinear idx ws g = Ok (s, aps, g') ->
    MLP.seq_parameters MLP.C_head_seq s = aps.
Proof.
  induction ws as [|[i o] ws IH]; intros idx g g' s aps.
  - simpl. intros H; injection H as <- <- _. reflexivity.
  - rewrite build_head_cons.
    destruct (MLP.make MLP.K_BiasLinear i o g) as [[w g1]|e] eqn:Hm;
      [|discriminate].
    destruct (make_BiasLinear_inv _ _ _ _ _ Hm) as [b ->]. simpl.
    destruct (MLP.build_head MLP.K_BiasLinear (S idx) ws g1)
      as [[[s' aps'] g2]|e] eqn:Hb; simpl; [|discriminate].
    intros H; injection H as <- <- _.
    specialize (IH _ _ _ _ _ Hb).
    unfold MLP.seq_parameters in *. simpl. rewrite IH. reflexivity.
Qed.

(** For a network of [BiasLinear] layers the accessor and the aggregate
    coincide: every parameter of such a layer is an adaptation parameter. *)
Lemma bias_linear_adaptation_parameters (layer_widths : list nat)
      (fa : mat -> mat) (extra : option (list nat)) (deterministic : bool)
      (g g' : rng) (m : MLP.t) :
  MLP.init layer_widths fa true extra false deterministic g = Ok (m, g') ->
  MLP.adaptation_parameters m = MLP.aparams m.
Proof.
  unfold MLP.init.
  destruct (length layer_widths <? 2)%nat; [discriminate|].
  unfold MLP.linear. simpl negb. cbv iota.
  destruct (MLP.build_seq _ _ _ _ _) as [[[s aps] g1]|e] eqn:Hb; simpl;
    [|discriminate].
  apply build_seq_bias_aparams in Hb.
  destruct extra as [ex|].
  - destruct (MLP.build_head _ _ _ _) as [[[h haps] g2]|e] eqn:Hh; simpl;
      [|discriminate].
    apply build_head_bias_aparams in Hh.
    intros H; injection H as <- _.
    unfold MLP.adaptation_parameters, MLP.parameters. simpl.
    rewrite Hb, Hh. reflexivity.
  - intros H; injection H as <- _.
    unfold MLP.adaptation_parameters, MLP.parameters. simpl.
    rewrite Hb, app_nil_r. reflexivity.
Qed.

(** ** [CVAE.sample] *)

Lemma uniform_same_shape (c : nat) (a b : mat) :
  length a = length b -> width c a -> width c b -> same_shape a b.
Proof.
  unfold width.
  revert b. induction a as [|r a IH]; intros [|s b] Hl Ha Hb;
    simpl in Hl; try discriminate Hl.
  - constructor.
  - inversion Ha; inversion Hb; subst. constructor.
    + congruence.
    + apply IH; [lia | assumption | assumption].
Qed.

Lemma length_zipWith {A B C : Type} (f : A -> B -> C) (u : list A)
      (v : list B) :
  length u = length v -> length (zipWith f u v) = length u.
Proof.
  revert v. induction u as [|a u IH]; intros [|b v] H; simpl in *;
    try discriminate H; [reflexivity|].
  f_equal. apply IH. lia.
Qed.

Lemma width_zipWith (f : R -> R -> R) (c : nat) (a b : mat) :
  width c a -> width c b -> width c (zipWith (zipWith f) a b).
Proof.
  unfold width.
  intros Ha. revert b. induction Ha as [|r a Hr Ha IH]; intros b Hb; simpl.
  - constructor.
  - destruct Hb as [|s b Hs Hb]; constructor.
    + rewrite length_zipWith; congruence.
    + apply IH, Hb.
Qed.

Lemma length_draw (n : nat) (g : rng) : length (fst (draw n g)) = n.
Proof. unfold draw. simpl. rewrite length_map, length_seq. reflexivity. Qed.

Lemma normal_like_shape (t : mat) :
  forall g : rng, same_shape (fst (normal_like t g)) t.
Proof.
  induction t as [|r t IH]; intros g; simpl.
  - constructor.
  - specialize (IH (fun i => g (length r + i)%nat)).
    destruct (normal_like t (fun i => g (length r + i)%nat)) as [m g2].
    simpl in *. constructor; [|exact IH].
    rewrite length_map, length_seq. reflexivity.
Qed.

Lemma same_shape_width (c : nat) (a b : mat) :
  same_shape a b -> width c b -> width c a.
Proof.
  unfold width.
  induction 1 as [|r s a b Hrs _ IH]; intros Hb.
  - constructor.
  - inversion Hb; subst. constructor; [congruence | apply IH; assumption].
Qed.

Lemma halves_of_even_width (k : nat) (t : mat) :
  width (2 * k)%nat t ->
  left_half t = map (firstn k) t /\ right_half t = map (skipn k) t
  /\ width k (map (firstn k) t) /\ width k (map (skipn k) t).
Proof.
  unfold width.
  intros H.
  assert (Hk : t = [] \/ (last_dim t / 2 = k)%nat).
  { destruct H as [|r t Hr _]; [left; reflexivity | right].
    unfold last_dim. rewrite Hr, Nat.mul_comm. apply Nat.div_mul.
    discriminate. }
  repeat split.
  - unfold left_half. destruct Hk as [->| ->]; reflexivity.
  - unfold right_half. destruct Hk as [->| ->]; reflexivity.
  - clear Hk. induction H as [|r t Hr _ IH]; simpl; constructor.
    + rewrite length_firstn. lia.
    + exact IH.
  - clear Hk. induction H as [|r t Hr _ IH]; simpl; constructor.
    + rewrite length_skipn. lia.
    + exact IH.
Qed.

Lemma width_half_exp (c : nat) (t : mat) : width c t -> width c (half_exp t).
Proof.
  unfold width.
  induction 1; simpl; constructor.
  - rewrite length_map. assumption.
  - assumption.
Qed.

Lemma map_nth_seq {A : Type} (d : A) (l : list A) :
  map (fun i => nth i l d) (seq 0 (length l)) = l.
Proof.
  apply (nth_ext _ _ d d).
  - rewrite length_map, length_seq. reflexivity.
  - intros n Hn. rewrite length_map, length_seq in Hn.
    rewrite (nth_indep _ d (nth (length l) l d))
      by (rewrite length_map, length_seq; exact Hn).
    rewrite (map_nth (fun i => nth i l d) (seq 0 (length l)) (length l) n).
    rewrite seq_nth by exact Hn. reflexivity.
Qed.

Lemma normal_like_ext (t : mat) :
  forall g g' : rng,
    (forall i, g i = g' i) ->
    fst (normal_like t g) = fst (normal_like t g').
Proof.
  induction t as [|r t IH]; intros g g' H; simpl; [reflexivity|].
  specialize (IH (fun i => g (length r + i)%nat)
                 (fun i => g' (length r + i)%nat) (fun i => H _)).
  destruct (normal_like t (fun i => g (length r + i)%nat)) as [m g2].
  destruct (normal_like t (fun i => g' (length r + i)%nat)) as [m' g2'].
  simpl in *. f_equal; [|exact IH].
  apply map_ext. intros i. apply H.
Qed.

(** Every tensor of the shape of [t] is the noise that [normal_like t] draws
    at some state of the generator. *)
Lemma every_noise_is_drawn (noise t : mat) :
  same_shape noise t -> exists g : rng, fst (normal_like t g) = noise.
Proof.
  induction 1 as [|n r ns t Hl _ [g1 IH]].
  - exists (fun _ => 0). reflexivity.
  - exists (fun i => if (i <? length r)%nat then nth i n 0
                     else g1 (i - length r)%nat).
    simpl.
    match goal with
    | |- context [normal_like t ?G] =>
        pose proof (normal_like_ext t G g1) as E;
        destruct (normal_like t G) as [m g2]
    end.
    simpl in *. rewrite E, IH.
    + f_equal. rewrite <- Hl. rewrite <- (map_nth_seq 0 n) at 2.
      apply map_ext_in. intros i Hi. apply in_seq in Hi.
      destruct (Nat.ltb_spec i (length n)); [reflexivity | lia].
    + intros i. destruct (Nat.ltb_spec (length r + i) (length r)); [lia|].
      f_equal. lia.
Qed.

(** On rows of an even number [2 * k] of entries: the noise has the shape of
    the mean half, and [sample] combines the three tensors row by row. *)
Lemma sample_even_width (mu_logvar : mat) (k : nat) (g : rng) :
  width (2 * k)%nat mu_logvar ->
  let mu := map (firstn k) mu_logvar in
  let logvar := map (skipn k) mu_logvar in
  let noise := fst (normal_like mu g) in
  same_shape noise mu
  /\ CVAE.sample mu_logvar g
     = Ok (zipWith (zipWith Rplus)
             (zipWith (zipWith Rmult) noise (half_exp logvar)) mu,
           snd (normal_like mu g)).
Proof.
  intros H mu logvar noise.
  destruct (halves_of_even_width k mu_logvar H) as [Hl [Hr [Wmu Wlv]]].
  fold mu in Hl, Wmu. fold logvar in Hr, Wlv.
  assert (Hn : same_shape noise mu) by apply normal_like_shape.
  split; [exact Hn|].
  unfold CVAE.sample. rewrite Hl, Hr.
  assert (Wn : width k noise) by exact (same_shape_width k _ _ Hn Wmu).
  assert (Wstd : width k (half_exp logvar)) by exact (width_half_exp k _ Wlv).
  assert (Lmu : length mu = length mu_logvar) by apply length_map.
  assert (Llv : length (half_exp logvar) = length mu_logvar).
  { unfold half_exp, logvar. rewrite !length_map. reflexivity. }
  assert (Ln : length noise = length mu) by exact (Forall2_length Hn).
  unfold noise in *. clear noise. clearbody mu logvar.
  destruct (normal_like mu g) as [n g']. cbn [fst snd] in *.
  rewrite (bmat_same_shape Rmult n (half_exp logvar)).
  - cbn [bind]. rewrite (bmat_same_shape Rplus).
    + reflexivity.
    + apply (uniform_same_shape k).
      * rewrite length_zipWith;
          [exact Ln | exact (eq_trans Ln (eq_trans Lmu (eq_sym Llv)))].
      * apply width_zipWith; assumption.
      * assumption.
  - apply (uniform_same_shape k);
      [exact (eq_trans Ln (eq_trans Lmu (eq_sym Llv))) | assumption
      | assumption].
Qed.

Lemma nth_zipWith {A B C : Type} (f : A -> B -> C) (da : A) (db : B) (dc : C)
      (u : list A) :
  forall (v : list B) (i : nat),
    (i < length u)%nat -> (i < length v)%nat ->
    nth i (zipWith f u v) dc = f (nth i u da) (nth i v db).
Proof.
  induction u as [|a u IH]; intros [|b v] i Hu Hv; simpl in *; try lia.
  destruct i as [|i]; [reflexivity|]. apply IH; lia.
Qed.

Lemma width_nth (c : nat) (t : mat) (i : nat) :
  width c t -> (i < length t)%nat -> length (nth i t []) = c.
Proof.
  unfold width. rewrite Forall_forall. intros Hw Hi.
  apply Hw, nth_In, Hi.
Qed.

Lemma nth_half_exp (t : mat) (i j : nat) :
  (j < length (nth i t []))%nat ->
  nth j (nth i (half_exp t) []) 0 = exp (nth j (nth i t []) 0 / 2).
Proof.
  intros Hj. unfold half_exp.
  change (nth i (map (map (fun v => exp (v / 2))) t) [])
    with (nth i (map (map (fun v => exp (v / 2))) t)
              (map (fun v => exp (v / 2)) [])).
  rewrite (map_nth (map (fun v => exp (v / 2)))).
  rewrite (nth_indep _ 0 ((fun v => exp (v / 2)) 0))
    by (rewrite length_map; exact Hj).
  apply (map_nth (fun v => exp (v / 2))).
Qed.

Lemma nth_map_nil {A B : Type} (h : list A -> list B) (t : list (list A))
      (i : nat) :
  h [] = [] -> nth i (map h t) [] = h (nth i t []).
Proof. intros E. rewrite <- E at 1. apply map_nth. Qed.

Lemma nth_map_firstn (k : nat) (t : mat) (i j : nat) :
  (j < k)%nat ->
  nth j (nth i (map (firstn k) t) []) 0 = nth j (nth i t []) 0.
Proof.
  intros Hj. rewrite (nth_map_nil (firstn k)) by apply firstn_nil.
  rewrite nth_firstn. apply Nat.ltb_lt in Hj. rewrite Hj. reflexivity.
Qed.

Lemma nth_map_skipn (k : nat) (t : mat) (i j : nat) :
  nth j (nth i (map (skipn k) t) []) 0 = nth (k + j) (nth i t []) 0.
Proof.
  rewrite (nth_map_nil (skipn k)) by apply skipn_nil. apply nth_skipn.
Qed.

(** [sample] does not accept every tensor of even last dimension: it raises
    [IndexError] on the one-dimensional tensor [(1, 0)]. *)
Lemma sample_needs_two_axes :
  ~ (forall (t : tensor) (g : rng),
        Nat.even (tensor_last_dim t) = true ->
        exists r g', sample_any t g = Ok (r, g')).
Proof.
  intros H. destruct (H (T1 [1; 0]) (fun _ => 0) eq_refl) as [r [g' E]].
  discriminate E.
Qed.

(** On three dimensions the halves are taken on the second axis: of the
    tensor [[[(1, 2), (3, 4)]]] of shape (1, 2, 2) the mean is the row
    [(1, 2)] and the log-variance the row [(3, 4)], not the columns. *)
Lemma sample_three_dimensions_halves_the_rows (g : rng) :
  sample_any (T3 [[[1; 2]; [3; 4]]]) g
  = Ok (T3 [[[g 0%nat * exp (3 / 2) + 1; g 1%nat * exp (4 / 2) + 2]]],
        fun i => g (2 + i)%nat).
Proof. reflexivity. Qed.

(** C8, amended: on a two-dimensional [mu_logvar] whose rows have an even
    number [2 * k] of entries, [sample] draws a noise tensor of the shape of
    the mean half and returns the tensor of that shape whose entry [(i, j)]
    is [noise[i][j] * exp (mu_logvar[i][k + j] / 2) + mu_logvar[i][j]]: the
    mean is the first [k] columns and the log-variance the last [k].  Every
    tensor of that shape is a noise the generator can yield, and the result
    depends on the generator through the noise alone. *)
Theorem sample_is_reparameterization (mu_logvar : mat) (k : nat) (g : rng) :
  width (2 * k)%nat mu_logvar ->
  let mu := map (firstn k) mu_logvar in
  let noise := fst (normal_like mu g) in
  exists r,
    CVAE.sample mu_logvar g = Ok (r, snd (normal_like mu g))
    /\ length noise = length mu_logvar /\ width k noise
    /\ length r = length mu_logvar /\ width k r
    /\ (forall i j : nat,
          (i < length mu_logvar)%nat -> (j < k)%nat ->
          nth j (nth i r []) 0
          = nth j (nth i noise []) 0
            * exp (nth (k + j) (nth i mu_logvar []) 0 / 2)
            + nth j (nth i mu_logvar []) 0)
    /\ (forall noise' : mat,
          length noise' = length mu_logvar -> width k noise' ->
          exists g' : rng, fst (normal_like mu g') = noise')
    /\ (forall g' : rng,
          fst (normal_like mu g') = noise ->
          CVAE.sample mu_logvar g' = Ok (r, snd (normal_like mu g'))).
Proof.
  intros H mu noise.
  destruct (sample_even_width mu_logvar k g H) as [Hn Hs].
  destruct (halves_of_even_width k mu_logvar H) as [_ [_ [Wmu Wlv]]].
  fold mu in Hn, Hs, Wmu. fold noise in Hn, Hs.
  set (logvar := map (skipn k) mu_logvar) in *.
  assert (Wn : width k noise) by exact (same_shape_width k _ _ Hn Wmu).
  assert (Wstd : width k (half_exp logvar)) by exact (width_half_exp k _ Wlv).
  assert (Lmu : length mu = length mu_logvar) by apply length_map.
  assert (Llv : length logvar = length mu_logvar) by apply length_map.
  assert (Lstd : length (half_exp logvar) = length mu_logvar).
  { unfold half_exp. rewrite length_map. exact Llv. }
  assert (Ln : length noise = length mu_logvar)
    by exact (eq_trans (Forall2_length Hn) Lmu).
  assert (Lns : length (zipWith (zipWith Rmult) noise (half_exp logvar))
                = length mu_logvar).
  { rewrite length_zipWith; [exact Ln | exact (eq_trans Ln (eq_sym Lstd))]. }
  assert (Wns : width k (zipWith (zipWith Rmult) noise (half_exp logvar)))
    by (apply width_zipWith; assumption).
  exists (zipWith (zipWith Rplus)
            (zipWith (zipWith Rmult) noise (half_exp logvar)) mu).
  split; [exact Hs|]. split; [exact Ln|]. split; [exact Wn|]. split.
  { rewrite length_zipWith; [exact Lns | exact (eq_trans Lns (eq_sym Lmu))]. }
  split; [apply width_zipWith; assumption|]. split; [|split].
  - intros i j Hi Hj.
    assert (Hi1 : (i < length noise)%nat) by (rewrite Ln; exact Hi).
    assert (Hi2 : (i < length (half_exp logvar))%nat)
      by (rewrite Lstd; exact Hi).
    assert (Hi3 : (i < length mu)%nat) by (rewrite Lmu; exact Hi).
    assert (Hi4 : (i < length logvar)%nat) by (rewrite Llv; exact Hi).
    assert (Hi5 : (i < length (zipWith (zipWith Rmult) noise
                                       (half_exp logvar)))%nat)
      by (rewrite Lns; exact Hi).
    pose proof (width_nth k _ i Wns Hi5) as E1.
    pose proof (width_nth k _ i Wmu Hi3) as E2.
    pose proof (width_nth k _ i Wn Hi1) as E3.
    pose proof (width_nth k _ i Wstd Hi2) as E4.
    pose proof (width_nth k _ i Wlv Hi4) as E5.
    pose proof (nth_half_exp logvar i j) as E6.
    pose proof (nth_map_skipn k mu_logvar i j) as E7.
    pose proof (nth_map_firstn k mu_logvar i j Hj) as E8.
    fold logvar in E7. fold mu in E8.
    unfold mat, vec in *.
    rewrite (nth_zipWith (zipWith Rplus) [] [] [] _ _ i Hi5 Hi3).
    rewrite (nth_zipWith Rplus 0 0 0) by lia.
    rewrite (nth_zipWith (zipWith Rmult) [] [] [] _ _ i Hi1 Hi2).
    rewrite (nth_zipWith Rmult 0 0 0) by lia.
    rewrite E6 by lia. rewrite E7, E8. reflexivity.
  - intros noise' Ln' Wn'. apply every_noise_is_drawn.
    apply (uniform_same_shape k);
      [exact (eq_trans Ln' (eq_sym Lmu)) | exact Wn' | exact Wmu].
  - intros g' Hg'.
    destruct (sample_even_width mu_logvar k g' H) as [_ Hs'].
    fold mu in Hs'. fold logvar in Hs'. rewrite Hg' in Hs'. exact Hs'.
Qed.

Lemma sample_is_reparameterization_witness :
  let g : rng := fun _ => 3 in
  let mu := map (firstn 1) [[1; 0]] in
  let noise := fst (normal_like mu g) in
  exists r,
    CVAE.sample [[1; 0]] g = Ok (r, snd (normal_like mu g))
    /\ length noise = length [[1; 0]] /\ width 1 noise
    /\ length r = length [[1; 0]] /\ width 1 r
    /\ (forall i j : nat,
          (i < length [[1; 0]])%nat -> (j < 1)%nat ->
          nth j (nth i r []) 0
          = nth j (nth i noise []) 0
            * exp (nth (1 + j) (nth i [[1; 0]] []) 0 / 2)
            + nth j (nth i [[1; 0]] []) 0)
    /\ (forall noise' : mat,
          length noise' = length [[1; 0]] -> width 1 noise' ->
          exists g' : rng, fst (normal_like mu g') = noise')
    /\ (forall g' : rng,
          fst (normal_like mu g') = noise ->
          CVAE.sample [[1; 0]] g' = Ok (r, snd (normal_like mu g'))).
Proof.
  apply (sample_is_reparameterization [[1; 0]] 1 (fun _ => 3)).
  unfold width. repeat constructor.
Defined.

(** ** [CVAE.forward] and the cached latent *)

(** From a latent on, [forward] draws nothing. *)
Lemma forward_from_latent (self : CVAE.t) (z obs : mat) (g : rng) :
  ('(d, g2) <- CVAE.decode self z obs false g ;;
   mu_logvar <- CVAE.params d ;;
   Ok (left_half mu_logvar, half_exp (right_half mu_logvar), g2))
  = with_rng (decoded self z obs) g.
Proof.
  unfold CVAE.decode, decoded, with_rng, CVAE.with_sample.
  destruct (CVAE._preprocess self) as [[sp lp]|]; simpl.
  - destruct (CVAE.call sp obs) as [s|e]; simpl; [|reflexivity].
    destruct (CVAE.call lp z) as [l|e]; simpl; [|reflexivity].
    destruct (cat l s) as [x|e]; simpl; [|reflexivity].
    destruct (CVAE.call (CVAE._decoder self) x); reflexivity.
  - destruct (cat z obs) as [x|e]; simpl; [|reflexivity].
    destruct (CVAE.call (CVAE._decoder self) x); reflexivity.
Qed.

Lemma forward_fixed (self : CVAE.t) (z obs : mat) (g : rng) :
  CVAE._z self = Some z ->
  CVAE.forward self obs g = with_rng (decoded self z obs) g.
Proof.
  intros Hz. unfold CVAE.forward. rewrite Hz. simpl.
  apply forward_from_latent.
Qed.

(** C2: [CVAE(observation_dim=1, action_dim=1, traj_dim=1, latent_dim=1,
    encoder_hidden=[], decoder_hidden=[])] raises [AttributeError] at
    construction, so [forward] returns no pair on it.  On [small_cvae], the
    object that the assignments of [__init__] describe for these arguments,
    [forward] on the observation 0 draws the latent [g 0], runs the decoder
    on the latent next to the observation and returns the standard deviation
    [exp 2], above [exp (LOG_VAR_MAX / 2)]: lines 127-131 halve and
    exponentiate the second half of the decoder's output as it is, without
    a clamp. *)
Theorem CVAE_forward_is_not_clamped (g : rng) :
  CVAE.init 1 1 1 1 [] [] [] false false g = Raise AttributeError
  /\ CVAE.prior small_cvae [[0]] true g
     = Ok (CVAE.Sampled [[0; 0]] [[g 0%nat]], fun i => g (S i))
  /\ cat [[g 0%nat]] [[0]] = Ok [[g 0%nat; 0]]
  /\ MLP.run (MLP.seq (CVAE._decoder small_cvae)) [[g 0%nat; 0]]
     = Ok [[0; 4]]
  /\ CVAE.forward small_cvae [[0]] g
     = Ok ([[0]], [[exp 2]], fun i => g (S i))
  /\ exp (LOG_VAR_MAX / 2) < exp 2.
Proof.
  assert (E : g 0%nat * exp (0 / 2) + 0 = g 0%nat).
  { replace (0 / 2) with 0 by lra. rewrite exp_0. ring. }
  split; [|split; [|split; [|split; [|split]]]].
  - unfold CVAE.init, CVAE.default_MLP.
    rewrite init_default_primitive_raises by (simpl; lia). reflexivity.
  - cbn. rewrite E. reflexivity.
  - reflexivity.
  - cbn. repeat f_equal; ring.
  - cbn. rewrite E. cbn. repeat f_equal; try ring.
    unfold dot, rsum. cbn. lra.
  - apply exp_increasing. unfold LOG_VAR_MAX. lra.
Qed.

Lemma prior_sampled (self : CVAE.t) (obs : mat) (g g' : rng) (d : CVAE.dist) :
  CVAE.prior self obs true g = Ok (d, g') ->
  exists mu_logvar z,
    CVAE.prior self obs false g = Ok (CVAE.Params mu_logvar, g)
    /\ CVAE.sample mu_logvar g = Ok (z, g')
    /\ d = CVAE.Sampled mu_logvar z.
Proof.
  unfold CVAE.prior. intros H.
  apply bind_Ok in H. destruct H as [mu_logvar [Hp H]].
  rewrite Hp. simpl. unfold CVAE.with_sample in H.
  apply bind_Ok in H. destruct H as [[z g1] [Hs H]].
  injection H as <- <-.
  exists mu_logvar, z. repeat split. exact Hs.
Qed.


(** The methods on the state of an instance.  The assignments of [__init__]
    leave [_z] empty; a [fix] that returns has drawn one sample from the
    prior and stored it; [unfix] clears it; while a latent [z] is stored,
    [forward] on [obs] decodes [z], draws nothing and returns the same result
    whatever the state of the generator; with no latent stored it draws one
    from the prior at each call. *)
Lemma CVAE_cached_latent_state_machine (self : CVAE.t) (obs : mat) :
  (forall encoder prior decoder traj_encoder preprocess latent_dim,
      CVAE._z (CVAE.assemble encoder prior decoder traj_encoder preprocess
                             latent_dim) = None)
  /\ (forall (g g' : rng) (self' : CVAE.t),
         CVAE.fix_ self obs g = Ok (self', g') ->
         exists mu_logvar z,
           CVAE.prior self obs false g = Ok (CVAE.Params mu_logvar, g)
           /\ CVAE.sample mu_logvar g = Ok (z, g')
           /\ self' = set_z self (Some z)
           /\ CVAE._z self' = Some z)
  /\ (CVAE.unfix self = set_z self None /\ CVAE._z (CVAE.unfix self) = None)
  /\ (forall z : mat,
         CVAE._z self = Some z ->
         (forall g : rng,
             CVAE.forward self obs g = with_rng (decoded self z obs) g)
         /\ (forall (g1 g2 g1' : rng) (out : mat * mat),
                CVAE.forward self obs g1 = Ok (out, g1') ->
                g1' = g1 /\ CVAE.forward self obs g2 = Ok (out, g2)))
  /\ (CVAE._z self = None ->
      forall g : rng,
        CVAE.forward self obs g
        = ('(d, g') <- CVAE.prior self obs true g ;;
           z <- CVAE.item1 d ;;
           CVAE.forward (set_z self (Some z)) obs g')).
Proof.
  split; [|split; [|split; [|split]]].
  - reflexivity.
  - intros g g' self' H. unfold CVAE.fix_ in H.
    apply bind_Ok in H. destruct H as [[d g1] [Hp H]].
    apply prior_sampled in Hp. destruct Hp as [mu_logvar [z [Hp [Hs ->]]]].
    simpl in H. injection H as <- <-.
    exists mu_logvar, z. repeat split; assumption.
  - split; reflexivity.
  - intros z Hz. split.
    + intros g. apply forward_fixed, Hz.
    + intros g1 g2 g1' out H.
      rewrite (forward_fixed self z obs g1 Hz) in H.
      rewrite (forward_fixed self z obs g2 Hz).
      unfold with_rng in *.
      destruct (decoded self z obs) as [p|e]; simpl in *; [|discriminate H].
      injection H as <- <-. split; reflexivity.
  - intros Hz g. unfold CVAE.forward at 1. rewrite Hz.
    rewrite bind_assoc.
    destruct (CVAE.prior self obs true g) as [[d g1]|e]; simpl;
      [|reflexivity].
    destruct (CVAE.item1 d) as [z|e]; simpl; [|reflexivity].
    rewrite forward_from_latent.
    rewrite (forward_fixed (set_z self (Some z)) z obs g1 eq_refl).
    reflexivity.
Qed.

(** [fix] on [small_cvae] stores the latent drawn, and with it stored
    [forward] returns the same pair at every state of the generator. *)
Lemma small_cvae_fix_forward (g g2 : rng) :
  CVAE.fix_ small_cvae [[0]] g
  = Ok (set_z small_cvae (Some [[g 0%nat]]), fun i => g (S i))
  /\ CVAE.forward (set_z small_cvae (Some [[g 0%nat]])) [[0]] g2
     = Ok ([[0]], [[exp 2]], g2).
Proof.
  split.
  - cbn. unfold set_z. cbn. repeat f_equal.
    replace (0 / 2) with 0 by lra. rewrite exp_0. ring.
  - evaluate.
Qed.

(** ** [DeepSet]: invariance under permutations of the elements *)

Lemma rsum_Permutation (u v : vec) : Permutation u v -> rsum u = rsum v.
Proof.
  unfold rsum. induction 1; simpl; lra.
Qed.

Lemma map_zipWith {A B C D : Type} (g : C -> D) (f : A -> B -> C)
      (u : list A) (v : list B) :
  map g (zipWith f u v) = zipWith (fun a b => g (f a b)) u v.
Proof.
  revert v. induction u as [|a u IH]; intros [|b v]; simpl;
    try reflexivity.
  f_equal. apply IH.
Qed.

Lemma zipWith_ext {A B C : Type} (f f' : A -> B -> C) (u : list A)
      (v : list B) :
  (forall a b, f a b = f' a b) -> zipWith f u v = zipWith f' u v.
Proof.
  intros H. revert v. induction u as [|a u IH]; intros [|b v]; simpl;
    try reflexivity.
  rewrite H, IH. reflexivity.
Qed.

Lemma mapM_map {A B C : Type} (f : B -> result C) (h : A -> B) (l : list A) :
  mapM f (map h l) = mapM (fun a => f (h a)) l.
Proof.
  induction l as [|a l IH]; simpl; [reflexivity|].
  rewrite IH. reflexivity.
Qed.

Lemma mapM_ext_in {A B : Type} (f f' : A -> result B) (l : list A) :
  (forall a, In a l -> f a = f' a) -> mapM f l = mapM f' l.
Proof.
  induction l as [|a l IH]; intros H; simpl; [reflexivity|].
  rewrite (H a (or_introl eq_refl)), IH; [reflexivity|].
  intros b Hb. apply H. right. exact Hb.
Qed.

Lemma mapM_map_result {A B : Type} (f : A -> result B) (h : B -> B)
      (l : list A) :
  mapM (fun a => map_result h (f a)) l = map_result (map h) (mapM f l).
Proof.
  unfold map_result. induction l as [|a l IH]; simpl; [reflexivity|].
  rewrite IH. destruct (f a) as [b|e]; simpl; [|reflexivity].
  destruct (mapM f l); reflexivity.
Qed.

Lemma mapM_Forall {A B : Type} (P : B -> Prop) (f : A -> result B)
      (l : list A) (l' : list B) :
  (forall a b, In a l -> f a = Ok b -> P b) ->
  mapM f l = Ok l' -> Forall P l'.
Proof.
  revert l'. induction l as [|a l IH]; intros l' H; simpl.
  - intros E; injection E as <-. constructor.
  - destruct (f a) as [b|e] eqn:Hf; simpl; [|discriminate].
    destruct (mapM f l) as [bs|e] eqn:Hm; simpl; [|discriminate].
    intros E; injection E as <-. constructor.
    + apply (H a b); [left; reflexivity | exact Hf].
    + apply IH; [|reflexivity]. intros a' b' Ha'. apply H. right. exact Ha'.
Qed.

Section Permuted.

Variable p : list nat.
Hypothesis p_perm : Permutation p (seq 0 (length p)).

Lemma p_bound (i : nat) : In i p -> (i < length p)%nat.
Proof.
  intros H. apply (Permutation_in _ p_perm) in H. apply in_seq in H. lia.
Qed.

Lemma length_permute (v : vec) : length (permute p v) = length p.
Proof. unfold permute. apply length_map. Qed.

Lemma mean_permute (v : vec) :
  length v = length p -> DeepSet.mean (permute p v) = DeepSet.mean v.
Proof.
  intros Hl. unfold DeepSet.mean. rewrite length_permute, <- Hl. f_equal.
  unfold permute.
  rewrite (rsum_Permutation _ (map (fun i => nth i v 0) (seq 0 (length p)))).
  - rewrite <- Hl, map_nth_seq. reflexivity.
  - apply Permutation_map, p_perm.
Qed.

(** The element at position [l] of the permuted set is the element at
    position [p[l]] of the set. *)
Lemma column_permute (xb : mat) (l : nat) :
  (l < length p)%nat ->
  Conv1d.column (map (permute p) xb) l = Conv1d.column xb (nth l p 0%nat).
Proof.
  intros Hl. unfold Conv1d.column. rewrite map_map.
  apply map_ext. intros ch. unfold permute.
  rewrite (nth_indep _ 0 (nth 0%nat ch 0)) by (rewrite length_map; exact Hl).
  apply (map_nth (fun i => nth i ch 0)).
Qed.

(** A convolution of kernel size 1 acts on each element by itself: it
    commutes with the permutation. *)
Lemma forward_item_permute (c : Conv1d.t) (xb : mat) :
  Conv1d.forward_item c (length p) (map (permute p) xb)
  = map_result (map (permute p)) (Conv1d.forward_item c (length p) xb).
Proof.
  unfold Conv1d.forward_item, map_result. rewrite length_map.
  destruct (length xb =? Conv1d.in_channels c)%nat; simpl; [|reflexivity].
  f_equal. rewrite map_zipWith. apply zipWith_ext. intros w b.
  set (F := fun l => b + dot w (Conv1d.column xb l)).
  transitivity (map F p).
  - transitivity (map F (map (fun l => nth l p 0%nat) (seq 0 (length p))));
      [|rewrite map_nth_seq; reflexivity].
    rewrite map_map. apply map_ext_in. intros l Hl. apply in_seq in Hl.
    unfold F. rewrite column_permute by lia. reflexivity.
  - unfold permute. apply map_ext_in. intros i Hi. apply p_bound in Hi.
    rewrite (nth_indep _ 0 (F (length p)))
      by (rewrite length_map, length_seq; exact Hi).
    rewrite (map_nth F). rewrite seq_nth by exact Hi. reflexivity.
Qed.

Lemma forward_item_width (c : Conv1d.t) (len : nat) (xb y : mat) :
  Conv1d.forward_item c len xb = Ok y -> width len y.
Proof.
  unfold Conv1d.forward_item, width.
  destruct (length xb =? Conv1d.in_channels c)%nat; [|discriminate].
  intros H; injection H as <-.
  generalize (Conv1d.bias c).
  induction (Conv1d.weight c) as [|w ws IH]; intros [|b bs]; simpl;
    constructor.
  - rewrite length_map, length_seq. reflexivity.
  - apply IH.
Qed.

(** Without elements the output does not depend on the entries. *)
Lemma forward_item_no_elements (c : Conv1d.t) (xb : mat) :
  Conv1d.forward_item c 0 (map (permute p) xb) = Conv1d.forward_item c 0 xb.
Proof.
  unfold Conv1d.forward_item. rewrite length_map. reflexivity.
Qed.

Lemma last_dim3_permute (a : tensor3) :
  Forall (width (length p)) a ->
  last_dim3 (permute_elements p a) = last_dim3 a.
Proof.
  intros H. destruct H as [|xb a Hxb _]; [reflexivity|].
  destruct Hxb as [|ch xb Hch _]; [reflexivity|].
  simpl. rewrite length_permute. symmetry. exact Hch.
Qed.

Lemma last_dim3_cases (a : tensor3) :
  Forall (width (length p)) a ->
  last_dim3 a = 0%nat \/ last_dim3 a = length p.
Proof.
  intros H. destruct H as [|xb a Hxb _]; [left; reflexivity|].
  destruct Hxb as [|ch xb Hch _]; [left; reflexivity|].
  right. exact Hch.
Qed.

Lemma Conv1d_forward_permute (c : Conv1d.t) (a : tensor3) :
  Forall (width (length p)) a ->
  match Conv1d.forward c a with
  | Ok a' =>
      exists b', Conv1d.forward c (permute_elements p a) = Ok b'
                 /\ related p a' b'
  | Raise e => Conv1d.forward c (permute_elements p a) = Raise e
  end.
Proof.
  intros H.
  assert (Hb : Conv1d.forward c (permute_elements p a)
               = mapM (fun xb => Conv1d.forward_item c (last_dim3 a)
                                   (map (permute p) xb)) a).
  { unfold Conv1d.forward. rewrite (last_dim3_permute a H).
    unfold permute_elements. apply mapM_map. }
  rewrite Hb. clear Hb. unfold Conv1d.forward.
  destruct (last_dim3_cases a H) as [E|E]; rewrite E.
  - rewrite (mapM_ext_in
               (fun xb => Conv1d.forward_item c 0 (map (permute p) xb))
               (Conv1d.forward_item c 0) a)
      by (intros xb _; apply forward_item_no_elements).
    destruct (mapM (Conv1d.forward_item c 0) a) as [a'|e] eqn:Hm;
      [|exact Hm].
    exists a'. split; [exact Hm | left; reflexivity].
  - rewrite (mapM_ext_in
               (fun xb => Conv1d.forward_item c (length p)
                            (map (permute p) xb))
               (fun xb => map_result (map (permute p))
                            (Conv1d.forward_item c (length p) xb)) a)
      by (intros xb _; apply forward_item_permute).
    rewrite mapM_map_result.
    destruct (mapM (Conv1d.forward_item c (length p)) a) as [a'|e] eqn:Hm;
      [|exact (f_equal (map_result (map (map (permute p)))) Hm)].
    exists (map (map (permute p)) a').
    split; [exact (f_equal (map_result (map (map (permute p)))) Hm)|].
    right. split; [reflexivity|].
    apply (mapM_Forall _ _ _ _ (fun xb y _ Hy =>
                                  forward_item_width c (length p) xb y Hy) Hm).
Qed.

Lemma relu_permute (a : tensor3) :
  map relu (permute_elements p a) = permute_elements p (map relu a).
Proof.
  unfold permute_elements, relu, permute. rewrite !map_map.
  apply map_ext. intros xb. rewrite !map_map.
  apply map_ext. intros ch. rewrite map_map.
  apply map_ext. intros i.
  rewrite <- (map_nth (Rmax 0) ch 0 i).
  replace (Rmax 0 0) with 0; [reflexivity|].
  unfold Rmax. destruct (Rle_dec 0 0); reflexivity.
Qed.

Lemma relu_width (a : tensor3) :
  Forall (width (length p)) a -> Forall (width (length p)) (map relu a).
Proof.
  intros H. apply Forall_map. revert H. apply Forall_impl. intros xb Hxb.
  unfold relu, width in *. apply Forall_map. revert Hxb.
  apply Forall_impl. intros ch Hch. rewrite length_map. exact Hch.
Qed.

Lemma enc_forward_related (l : DeepSet.enc_layer) (a b : tensor3) :
  related p a b ->
  match DeepSet.enc_forward l a with
  | Ok a' => exists b', DeepSet.enc_forward l b = Ok b' /\ related p a' b'
  | Raise e => DeepSet.enc_forward l b = Raise e
  end.
Proof.
  intros [->|[-> H]].
  - destruct (DeepSet.enc_forward l a) as [a'|e]; [|reflexivity].
    exists a'. split; [reflexivity | left; reflexivity].
  - destruct l as [c|]; simpl.
    + apply Conv1d_forward_permute, H.
    + exists (map relu (permute_elements p a)). split; [reflexivity|].
      right. split; [apply relu_permute | apply relu_width, H].
Qed.

Lemma encode_related (s : list DeepSet.enc_layer) :
  forall a b : tensor3,
    related p a b ->
    match DeepSet.encode s a with
    | Ok a' => exists b', DeepSet.encode s b = Ok b' /\ related p a' b'
    | Raise e => DeepSet.encode s b = Raise e
    end.
Proof.
  induction s as [|l s IH]; intros a b Hab; simpl.
  - exists b. split; [reflexivity | exact Hab].
  - pose proof (enc_forward_related l a b Hab) as Hl.
    destruct (DeepSet.enc_forward l a) as [a1|e]; simpl.
    + destruct Hl as [b1 [-> H1]]. simpl. apply IH, H1.
    + rewrite Hl. reflexivity.
Qed.

Lemma aggregator_related (a b : tensor3) :
  related p a b -> DeepSet.aggregator b = DeepSet.aggregator a.
Proof.
  intros [->|[-> H]]; [reflexivity|].
  unfold DeepSet.aggregator, permute_elements. rewrite map_map.
  apply map_ext_in. intros xb Hxb. rewrite map_map.
  apply map_ext_in. intros ch Hch. apply mean_permute.
  rewrite Forall_forall in H. specialize (H xb Hxb).
  unfold width in H. rewrite Forall_forall in H. exact (H ch Hch).
Qed.

Lemma forward_permuted (m : DeepSet.t) (x : tensor3) :
  Forall (width (length p)) x ->
  DeepSet.forward m (permute_elements p x) = DeepSet.forward m x.
Proof.
  intros H. unfold DeepSet.forward.
  pose proof (encode_related (DeepSet.encoder m) x (permute_elements p x)
                             (or_intror (conj eq_refl H))) as He.
  destruct (DeepSet.encode (DeepSet.encoder m) x) as [a|e]; simpl.
  - destruct He as [b [-> Hr]]. simpl. f_equal.
    apply aggregator_related, Hr.
  - rewrite He. reflexivity.
Qed.

End Permuted.

(** C5: for every input [x] whose sets have [length p] elements and every
    permutation [p] of the positions, [DeepSet.forward] on [x] with the
    elements permuted returns what it returns on [x].  The encoder, made of
    convolutions of kernel size 1 and [ReLU], acts on each element by itself,
    and the mean over the elements does not depend on their order. *)
Theorem DeepSet_forward_permutation_invariant (m : DeepSet.t) (x : tensor3)
        (p : list nat) :
  Permutation p (seq 0 (length p)) ->
  Forall (width (length p)) x ->
  DeepSet.forward m (permute_elements p x) = DeepSet.forward m x.
Proof.
  intros Hp Hx. apply forward_permuted; assumption.
Qed.

Lemma DeepSet_forward_permutation_invariant_witness :
  DeepSet.forward small_deepset (permute_elements [2; 0; 1]%nat [[[1; 2; 3]]])
  = DeepSet.forward small_deepset [[[1; 2; 3]]].
Proof.
  apply (DeepSet_forward_permutation_invariant
           small_deepset [[[1; 2; 3]]] [2; 0; 1]%nat).
  - simpl. apply Permutation_sym.
    apply (Permutation_cons_app [2%nat] [1%nat] 0%nat). apply perm_swap.
  - unfold width. repeat constructor.
Defined.

(** The set encoder on a set of three elements and on a permutation of it:
    the mean of [relu (2 * x + 1)] over [x = 1, 2, 3]. *)
Lemma small_deepset_forward :
  DeepSet.forward small_deepset [[[1; 2; 3]]] = Ok [[5]]
  /\ DeepSet.forward small_deepset (permute_elements [2; 0; 1]%nat [[[1; 2; 3]]])
     = Ok [[5]].
Proof.
  split; cbn; repeat f_equal; unfold DeepSet.mean; cbn; real_eq.
Qed.

(** ** The concrete networks are networks that [__init__] builds *)

Lemma gauss_net_is_built (g : rng) :
  exists m g',
    MLP.init [1%nat; 1%nat] (fun x => x) true None false false g = Ok (m, g')
    /\ same_architecture m gauss_net.
Proof.
  cbn. eexists; eexists. split; [reflexivity|].
  unfold same_architecture. cbn. repeat split.
Qed.

Lemma headed_net_is_built (g : rng) :
  exists m g',
    MLP.init [1%nat; 1%nat] (fun x => x) true (Some [1%nat]) false true g
    = Ok (m, g')
    /\ same_architecture m headed_net.
Proof.
  cbn. eexists; eexists. split; [reflexivity|].
  unfold same_architecture. cbn. repeat split.
Qed.

(** ** The initialisers build well-formed layers *)

Lemma draw_mat_shape (rows cols : nat) :
  forall g : rng,
    length (fst (draw_mat rows cols g)) = rows
    /\ width cols (fst (draw_mat rows cols g)).
Proof.
  unfold width. induction rows as [|rows IH]; intros g; simpl.
  - split; [reflexivity | constructor].
  - specialize (IH (fun i => g (cols + i)%nat)).
    destruct (draw_mat rows cols (fun i => g (cols + i)%nat)) as [m g2].
    simpl in *. destruct IH as [Hl Hw]. split; [congruence|].
    constructor; [|exact Hw].
    rewrite length_map, length_seq. reflexivity.
Qed.

Lemma Linear_init_wf (i o : nat) (g : rng) :
  Linear.wf (fst (Linear.init i o g)).
Proof.
  unfold Linear.init, Linear.wf.
  pose proof (draw_mat_shape o i g) as [Hl Hw].
  destruct (draw_mat o i g) as [w g1]. simpl in *.
  repeat split; [exact Hl | exact Hw|].
  rewrite length_map, length_seq. reflexivity.
Qed.

(** * Further properties of the code *)

(** ** [MLP.__init__]: which constructions succeed *)

(** X1: [MLP.__init__] raises [ValueError] exactly when the list of widths
    has fewer than two entries, whatever the other arguments. *)
Theorem MLP_init_ValueError_exactly_when_short (layer_widths : list nat)
        (fa : mat -> mat) (bias_linear : bool) (extra : option (list nat))
        (w_linear deterministic : bool) (g : rng) :
  MLP.init layer_widths fa bias_linear extra w_linear deterministic g
  = Raise ValueError
  <-> (length layer_widths < 2)%nat.
Proof. apply init_ValueError_iff. Qed.

(** X2: with the default primitive ([bias_linear=False], [w_linear=False])
    [MLP.__init__] returns no network: on a list of widths with a positive
    first entry it raises [ValueError] when the list has fewer than two
    entries and [AttributeError] otherwise. *)
Theorem MLP_init_default_primitive_never_builds (layer_widths : list nat)
        (fa : mat -> mat) (extra : option (list nat)) (deterministic : bool)
        (g : rng) :
  (0 < hd 0 layer_widths)%nat ->
  MLP.init layer_widths fa false extra false deterministic g
  = Raise (if (length layer_widths <? 2)%nat then ValueError
           else AttributeError).
Proof.
  intros _. destruct (length layer_widths <? 2)%nat eqn:E.
  - unfold MLP.init. rewrite E. reflexivity.
  - apply init_default_primitive_raises. apply Nat.ltb_ge in E. exact E.
Qed.

Lemma MLP_init_default_primitive_never_builds_witness :
  MLP.init [4; 3; 2]%nat (fun x => x) false (Some [5%nat]) false false
           (fun _ => 0)
  = Raise (if (length [4; 3; 2]%nat <? 2)%nat then ValueError
           else AttributeError).
Proof.
  apply (MLP_init_default_primitive_never_builds
           [4; 3; 2]%nat (fun x => x) (Some [5%nat]) false (fun _ => 0)).
  simpl. lia.
Defined.

Lemma make_adaptable (k : MLP.kind) (i o : nat) (g : rng) :
  k <> MLP.K_Linear ->
  exists w g' ap,
    MLP.make k i (S o) g = Ok (w, g')
    /\ layer_adaptation_parameters w = Ok ap
    /\ kind_of w = Some k.
Proof.
  intros Hk. destruct k; [contradiction| |].
  - destruct (make_BiasLinear i o g) as [b [g' H]].
    exists (L_BiasLinear b), g', (BiasLinear.parameters b).
    repeat split. exact H.
  - destruct (make_WLinear i o g) as [w [g' H]].
    exists (L_WLinear w), g', [P_z]. repeat split. exact H.
Qed.

Lemma make_zero_width (k : MLP.kind) (i : nat) (g : rng) :
  k <> MLP.K_Linear -> MLP.make k i 0 g = Raise ZeroDivisionError.
Proof.
  intros Hk. destruct k; [contradiction| |]; unfold MLP.make.
  - unfold BiasLinear.init. destruct (Linear.init i 0 g). reflexivity.
  - reflexivity.
Qed.

Lemma positive_cons (o : nat) (l : list nat) :
  positive (o :: l) <-> o <> 0%nat /\ positive l.
Proof.
  unfold positive. split.
  - intros H. inversion H; subst. split; assumption.
  - intros [H1 H2]. constructor; assumption.
Qed.

Lemma positive_dec (l : list nat) : {positive l} + {~ positive l}.
Proof.
  unfold positive. apply Forall_dec. intros o.
  destruct (Nat.eq_dec o 0); [right | left]; intro H; contradiction.
Qed.

(** The layer loop over an adaptable primitive succeeds exactly when every
    output width is positive. *)
Lemma build_seq_adaptable (k : MLP.kind) (n : nat) (ws : list (nat * nat)) :
  k <> MLP.K_Linear ->
  forall (idx : nat) (g : rng),
    (positive (map snd ws) ->
     exists s aps g', MLP.build_seq k n idx ws g = Ok (s, aps, g'))
    /\ (~ positive (map snd ws) ->
        MLP.build_seq k n idx ws g = Raise ZeroDivisionError).
Proof.
  intros Hk. induction ws as [|[i o] ws IH]; intros idx g.
  - split.
    + intros _. exists [], [], g. reflexivity.
    + intros H. exfalso. apply H. constructor.
  - rewrite build_seq_cons. simpl map. destruct o as [|o].
    + rewrite (make_zero_width k i g Hk). split; [|reflexivity].
      intros H. apply positive_cons in H. destruct H as [H _].
      contradiction.
    + destruct (make_adaptable k i o g Hk) as [w [g1 [ap [Hm [Ha _]]]]].
      rewrite Hm. simpl. rewrite Ha. simpl.
      destruct (IH (S idx) g1) as [IH1 IH2]. split.
      * intros H. apply positive_cons in H. destruct H as [_ H].
        destruct (IH1 H) as [s [aps [g2 Hb]]]. rewrite Hb. simpl.
        eexists; eexists; eexists; reflexivity.
      * intros H. rewrite IH2; [reflexivity|].
        intros H'. apply H. apply positive_cons. split; [discriminate|].
        exact H'.
Qed.

Lemma build_head_adaptable (k : MLP.kind) (ws : list (nat * nat)) :
  k <> MLP.K_Linear ->
  forall (idx : nat) (g : rng),
    (positive (map snd ws) ->
     exists s aps g', MLP.build_head k idx ws g = Ok (s, aps, g'))
    /\ (~ positive (map snd ws) ->
        MLP.build_head k idx ws g = Raise ZeroDivisionError).
Proof.
  intros Hk. induction ws as [|[i o] ws IH]; intros idx g.
  - split.
    + intros _. exists [], [], g. reflexivity.
    + intros H. exfalso. apply H. constructor.
  - rewrite build_head_cons. simpl map. destruct o as [|o].
    + rewrite (make_zero_width k i g Hk). split; [|reflexivity].
      intros H. apply positive_cons in H. destruct H as [H _].
      contradiction.
    + destruct (make_adaptable k i o g Hk) as [w [g1 [ap [Hm [Ha _]]]]].
      rewrite Hm. simpl. rewrite Ha. simpl.
      destruct (IH (S idx) g1) as [IH1 IH2]. split.
      * intros H. apply positive_cons in H. destruct H as [_ H].
        destruct (IH1 H) as [s [aps [g2 Hb]]]. rewrite Hb. simpl.
        eexists; eexists; eexists; reflexivity.
      * intros H. rewrite IH2; [reflexivity|].
        intros H'. apply H. apply positive_cons. split; [discriminate|].
        exact H'.
Qed.

Lemma map_snd_combine {A B : Type} (l : list A) :
  forall l' : list B,
    (length l' <= length l)%nat -> map snd (combine l l') = l'.
Proof.
  induction l as [|a l IH]; intros [|b l'] H; simpl in *;
    try reflexivity; try lia.
  f_equal. apply IH. lia.
Qed.

Lemma map_snd_pairs (l : list nat) : map snd (MLP.pairs l) = tl l.
Proof.
  unfold MLP.pairs. apply map_snd_combine. destruct l; simpl; lia.
Qed.

Lemma map_fst_pairs (l : list nat) : map fst (MLP.pairs l) = removelast l.
Proof.
  unfold MLP.pairs. induction l as [|a [|b l] IH]; try reflexivity.
  change (map fst (combine (a :: b :: l) (tl (a :: b :: l))))
    with (a :: map fst (combine (b :: l) (tl (b :: l)))).
  rewrite IH. reflexivity.
Qed.

Lemma tl_double_last (a : nat) (t : list nat) :
  t <> [] ->
  tl (MLP.double_last (a :: t)) = removelast t ++ [(last t 0 * 2)%nat].
Proof.
  intros H. unfold MLP.double_last.
  destruct t as [|b t]; [contradiction|]. reflexivity.
Qed.

Lemma positive_app (l l' : list nat) :
  positive (l ++ l') <-> positive l /\ positive l'.
Proof. unfold positive. apply Forall_app. Qed.

Lemma positive_tl_double_last (l : list nat) :
  (2 <= length l)%nat -> positive (tl (MLP.double_last l)) <-> positive (tl l).
Proof.
  destruct l as [|a t]; simpl; [lia|]. intros H.
  assert (Ht : t <> []) by (intros ->; simpl in H; lia).
  rewrite (tl_double_last a t Ht).
  rewrite (app_removelast_last 0%nat Ht) at 3.
  rewrite !positive_app. unfold positive.
  split; intros [H1 H2]; (split; [exact H1|]);
    inversion H2; subst; constructor; try constructor; lia.
Qed.

Lemma linear_adaptable (bias_linear w_linear : bool) :
  bias_linear = true \/ w_linear = true ->
  MLP.linear bias_linear w_linear <> MLP.K_Linear.
Proof.
  unfold MLP.linear. destruct w_linear; simpl; [discriminate|].
  intros [->|H]; discriminate.
Qed.

(** X3: with [bias_linear] or [w_linear] and at least two widths, the first
    of them positive, [MLP.__init__] returns a network exactly when every
    width after the first and every width of the head is positive; otherwise
    it raises [ZeroDivisionError] (the initialisers divide by the output
    width). *)
Theorem MLP_init_adaptable_builds_iff (layer_widths : list nat)
        (fa : mat -> mat) (bias_linear : bool) (extra : option (list nat))
        (w_linear deterministic : bool) (g : rng) :
  bias_linear = true \/ w_linear = true ->
  (2 <= length layer_widths)%nat ->
  (0 < hd 0 layer_widths)%nat ->
  let ok := positive (tl layer_widths)
            /\ positive (match extra with Some e => e | None => [] end) in
  (ok -> exists m g',
      MLP.init layer_widths fa bias_linear extra w_linear deterministic g
      = Ok (m, g'))
  /\ (~ ok ->
      MLP.init layer_widths fa bias_linear extra w_linear deterministic g
      = Raise ZeroDivisionError).
Proof.
  intros Hk Hlen _ ok. unfold MLP.init.
  destruct (length layer_widths <? 2)%nat eqn:E;
    [apply Nat.ltb_lt in E; lia|]. clear E.
  pose proof (linear_adaptable _ _ Hk) as Hk'.
  set (k := MLP.linear bias_linear w_linear) in *.
  set (lw := if negb deterministic then MLP.double_last layer_widths
             else layer_widths).
  assert (Hpos : positive (map snd (MLP.pairs lw)) <-> positive (tl layer_widths)).
  { rewrite map_snd_pairs. unfold lw. destruct deterministic; simpl.
    - reflexivity.
    - apply positive_tl_double_last, Hlen. }
  destruct (build_seq_adaptable k (length lw) (MLP.pairs lw) Hk' 0%nat g)
    as [B1 B2].
  destruct (positive_dec (tl layer_widths)) as [P1|P1].
  - destruct (B1 (proj2 Hpos P1)) as [s [aps [g1 Hb]]]. rewrite Hb. simpl.
    destruct extra as [e|].
    + set (h0 := (last (removelast layer_widths) 0 + last layer_widths 0)%nat).
      destruct (build_head_adaptable k (MLP.pairs (h0 :: e)) Hk' 0%nat g1)
        as [H1 H2].
      rewrite map_snd_pairs in H1, H2. simpl tl in H1, H2.
      destruct (positive_dec e) as [P2|P2].
      * destruct (H1 P2) as [h [haps [g2 Hh]]]. rewrite Hh. simpl. split.
        -- intros _. eexists; eexists; reflexivity.
        -- intros H. exfalso. apply H. split; assumption.
      * rewrite (H2 P2). simpl. split; [|reflexivity].
        intros [_ H]. contradiction.
    + split.
      * intros _. eexists; eexists; reflexivity.
      * intros H. exfalso. apply H. split; [assumption | constructor].
  - rewrite B2 by (intros H; apply P1, Hpos, H). simpl. split; [|reflexivity].
    intros [H _]. contradiction.
Qed.

Lemma MLP_init_adaptable_builds_iff_witness :
  let ok := positive (tl [2; 3]%nat) /\ positive [1%nat] in
  (ok -> exists m g',
      MLP.init [2; 3]%nat (fun x => x) true (Some [1%nat]) false false
               (fun _ => 0)
      = Ok (m, g'))
  /\ (~ ok ->
      MLP.init [2; 3]%nat (fun x => x) true (Some [1%nat]) false false
               (fun _ => 0)
      = Raise ZeroDivisionError).
Proof.
  apply (MLP_init_adaptable_builds_iff
           [2; 3]%nat (fun x => x) true (Some [1%nat]) false false
           (fun _ => 0)).
  - left. reflexivity.
  - simpl. lia.
  - simpl. lia.
Defined.

(** ** [MLP.__init__]: the stack it builds *)

Lemma make_kind (k : MLP.kind) (i o : nat) (g g' : rng) (w : layer) :
  MLP.make k i o g = Ok (w, g') -> kind_of w = Some k.
Proof.
  destruct k; unfold MLP.make.
  - destruct (Linear.init i o g). intros H; injection H as <- _. reflexivity.
  - destruct (BiasLinear.init i o None g) as [[b gb]|e]; simpl;
      [|discriminate].
    intros H; injection H as <- _. reflexivity.
  - destruct (WLinear.init i o 100 g) as [[w0 gw]|e]; simpl; [|discriminate].
    intros H; injection H as <- _. reflexivity.
Qed.

Lemma build_seq_structure (k : MLP.kind) (ws : list (nat * nat)) :
  forall (n idx : nat) (g g' : rng) (s : list (MLP.mname * layer))
         (aps : list MLP.param),
    n = (idx + length ws + 1)%nat ->
    MLP.build_seq k n idx ws g = Ok (s, aps, g') ->
    map fst s = stack_names idx (length ws) /\ Forall (named_right k) s.
Proof.
  induction ws as [|[i o] ws IH]; intros n idx g g' s aps Hn.
  - simpl. intros H; injection H as <- _ _. split; constructor.
  - rewrite build_seq_cons.
    destruct (MLP.make k i o g) as [[w g1]|e] eqn:Hm; [|discriminate].
    simpl. destruct (layer_adaptation_parameters w) as [ap|e]; [|discriminate].
    simpl.
    destruct (MLP.build_seq k n (S idx) ws g1) as [[[s' aps'] g2]|e] eqn:Hb;
      [|discriminate].
    simpl. intros H; injection H as <- _ _.
    simpl length in Hn.
    destruct (IH n (S idx) g1 g2 s' aps' ltac:(lia) Hb) as [IH1 IH2].
    apply make_kind in Hm.
    destruct ws as [|p ws].
    + assert (E : (idx <? n - 2)%nat = false)
        by (apply Nat.ltb_ge; simpl in Hn; lia).
      rewrite E. simpl. simpl in IH1. rewrite IH1. split; [reflexivity|].
      constructor; [exact Hm | exact IH2].
    + assert (E : (idx <? n - 2)%nat = true)
        by (apply Nat.ltb_lt; simpl in Hn; lia).
      rewrite E. simpl. rewrite IH1. split; [reflexivity|].
      constructor; [exact Hm|]. constructor; [reflexivity | exact IH2].
Qed.

Lemma build_head_structure (k : MLP.kind) (ws : list (nat * nat)) :
  forall (idx : nat) (g g' : rng) (s : list (MLP.mname * layer))
         (aps : list MLP.param),
    MLP.build_head k idx ws g = Ok (s, aps, g') ->
    map fst s = head_names idx (length ws) /\ Forall (named_right k) s.
Proof.
  induction ws as [|[i o] ws IH]; intros idx g g' s aps.
  - simpl. intros H; injection H as <- _ _. split; constructor.
  - rewrite build_head_cons.
    destruct (MLP.make k i o g) as [[w g1]|e] eqn:Hm; [|discriminate].
    simpl. destruct (layer_adaptation_parameters w) as [ap|e]; [|discriminate].
    simpl.
    destruct (MLP.build_head k (S idx) ws g1) as [[[s' aps'] g2]|e] eqn:Hb;
      [|discriminate].
    simpl. intros H; injection H as <- _ _.
    destruct (IH (S idx) g1 g2 s' aps' Hb) as [IH1 IH2].
    apply make_kind in Hm. simpl. rewrite IH1. split; [reflexivity|].
    constructor; [reflexivity|]. constructor; [exact Hm | exact IH2].
Qed.

Lemma length_pairs (l : list nat) : length (MLP.pairs l) = (length l - 1)%nat.
Proof.
  rewrite <- (length_map snd), map_snd_pairs. destruct l; simpl; lia.
Qed.

(** What a successful [MLP.__init__] has run through. *)
Lemma init_Ok_inv (layer_widths : list nat) (fa : mat -> mat)
      (bias_linear : bool) (extra : option (list nat))
      (w_linear deterministic : bool) (g g' : rng) (m : MLP.t) :
  MLP.init layer_widths fa bias_linear extra w_linear deterministic g
  = Ok (m, g') ->
  (2 <= length layer_widths)%nat
  /\ let lw := if negb deterministic then MLP.double_last layer_widths
               else layer_widths in
     let k := MLP.linear bias_linear w_linear in
     exists s aps g1,
       MLP.build_seq k (length lw) 0 (MLP.pairs lw) g = Ok (s, aps, g1)
       /\ match extra with
          | None =>
              m = MLP.mk fa s false deterministic layer_widths bias_linear
                         aps []
          | Some e =>
              exists h haps,
                MLP.build_head
                  k 0
                  (MLP.pairs ((last (removelast layer_widths) 0
                               + last layer_widths 0)%nat :: e)) g1
                = Ok (h, haps, g')
                /\ m = MLP.mk fa s true deterministic layer_widths
                              bias_linear (aps ++ haps) h
          end.
Proof.
  unfold MLP.init.
  destruct (length layer_widths <? 2)%nat eqn:E; [discriminate|].
  apply Nat.ltb_ge in E. intros H. split; [exact E|]. cbv zeta.
  set (lw := if negb deterministic then MLP.double_last layer_widths
             else layer_widths) in *.
  set (k := MLP.linear bias_linear w_linear) in *.
  destruct (MLP.build_seq k (length lw) 0 (MLP.pairs lw) g)
    as [[[s aps] g1]|e] eqn:Hb; [|discriminate H].
  simpl in H. exists s, aps, g1. split; [reflexivity|].
  destruct extra as [e|].
  - destruct (MLP.build_head _ _ _ _) as [[[h haps] g2]|e'] eqn:Hh;
      [|discriminate H].
    simpl in H. injection H as <- <-. exists h, haps.
    split; reflexivity.
  - injection H as <- _. reflexivity.
Qed.

(** The names and classes of the layers of a built network. *)
Lemma init_stack (layer_widths : list nat) (fa : mat -> mat)
        (bias_linear : bool) (extra : option (list nat))
        (w_linear deterministic : bool) (g g' : rng) (m : MLP.t) :
  MLP.init layer_widths fa bias_linear extra w_linear deterministic g
  = Ok (m, g') ->
  map fst (MLP.seq m) = stack_names 0 (length layer_widths - 1)
  /\ Forall (named_right (MLP.linear bias_linear w_linear)) (MLP.seq m)
  /\ MLP._head m = (match extra with Some _ => true | None => false end)
  /\ map fst (MLP.head_seq m)
     = head_names 0 (match extra with Some e => length e | None => 0%nat end)
  /\ Forall (named_right (MLP.linear bias_linear w_linear)) (MLP.head_seq m)
  /\ MLP.layer_widths m = layer_widths
  /\ MLP.deterministic m = deterministic
  /\ MLP.bias_linear m = bias_linear.
Proof.
  intros H. apply init_Ok_inv in H. destruct H as [Hlen H]. simpl in H.
  destruct H as [s [aps [g1 [Hb H]]]].
  set (lw := if negb deterministic then MLP.double_last layer_widths
             else layer_widths) in *.
  assert (Hl : length lw = length layer_widths).
  { unfold lw. destruct deterministic; simpl; [reflexivity|].
    apply length_double_last. intros ->. simpl in Hlen. lia. }
  apply build_seq_structure in Hb;
    [|rewrite length_pairs; lia].
  rewrite length_pairs, Hl in Hb. destruct Hb as [Hn Hk].
  destruct extra as [e|].
  - destruct H as [h [haps [Hh ->]]]. apply build_head_structure in Hh.
    rewrite length_pairs in Hh. simpl in Hh. rewrite Nat.sub_0_r in Hh.
    destruct Hh as [Hhn Hhk]. simpl. repeat split; assumption.
  - subst m. simpl. repeat split; try assumption. constructor.
Qed.

(** X4: the stack of a network that [MLP.__init__] returns has one linear
    primitive of the chosen class per pair of consecutive widths, named
    [fc_0], [fc_1], ..., each but the last followed by a [ReLU] [relu_i];
    the head, when asked for, has one [ReLU] and then one linear primitive
    per head width; the attributes keep the arguments as passed. *)
Theorem MLP_init_stack_structure (layer_widths : list nat) (fa : mat -> mat)
        (bias_linear : bool) (extra : option (list nat))
        (w_linear deterministic : bool) (g g' : rng) (m : MLP.t) :
  MLP.init layer_widths fa bias_linear extra w_linear deterministic g
  = Ok (m, g') ->
  map fst (MLP.seq m) = stack_names 0 (length layer_widths - 1)
  /\ Forall (named_right (MLP.linear bias_linear w_linear)) (MLP.seq m)
  /\ MLP._head m = (match extra with Some _ => true | None => false end)
  /\ map fst (MLP.head_seq m)
     = head_names 0 (match extra with Some e => length e | None => 0%nat end)
  /\ Forall (named_right (MLP.linear bias_linear w_linear)) (MLP.head_seq m)
  /\ MLP.layer_widths m = layer_widths
  /\ MLP.deterministic m = deterministic
  /\ MLP.bias_linear m = bias_linear.
Proof. apply init_stack. Qed.

Lemma MLP_init_stack_structure_witness :
  exists m g',
    MLP.init [2; 3; 1]%nat (fun x => x) true (Some [1%nat]) false false
             (fun _ => 0)
    = Ok (m, g')
    /\ map fst (MLP.seq m) = [MLP.fc 0; MLP.relu_ 0; MLP.fc 1]
    /\ Forall (named_right MLP.K_BiasLinear) (MLP.seq m)
    /\ MLP._head m = true
    /\ map fst (MLP.head_seq m) = [MLP.relu_ 0; MLP.fc 0]
    /\ Forall (named_right MLP.K_BiasLinear) (MLP.head_seq m)
    /\ MLP.layer_widths m = [2; 3; 1]%nat
    /\ MLP.deterministic m = false
    /\ MLP.bias_linear m = true.
Proof.
  eexists; eexists. split; [reflexivity|].
  eapply (MLP_init_stack_structure
            [2; 3; 1]%nat (fun x => x) true (Some [1%nat]) false false
            (fun _ => 0)).
  reflexivity.
Defined.

(** ** The sizes of the layers that the constructors build *)

Lemma length_normal_ (n : nat) (mean std : R) (g : rng) :
  length (fst (normal_ n mean std g)) = n.
Proof.
  unfold normal_. simpl. rewrite !length_map, length_seq. reflexivity.
Qed.

Lemma Linear_init_dims (i o : nat) (g : rng) :
  Linear_dims (fst (Linear.init i o g)) i o.
Proof.
  pose proof (Linear_init_wf i o g) as H. unfold Linear.wf in H.
  unfold Linear.init in *.
  destruct (draw_mat o i g) as [w g1]. simpl in *.
  destruct H as [H1 [H2 H3]]. unfold Linear_dims. simpl.
  repeat split; assumption.
Qed.

Lemma make_Ok_positive (k : MLP.kind) (i o : nat) (g g' : rng) (w : layer) :
  k <> MLP.K_Linear -> MLP.make k i o g = Ok (w, g') -> (0 < o)%nat.
Proof.
  intros Hk H. destruct o as [|o]; [|lia].
  rewrite (make_zero_width k i g Hk) in H. discriminate H.
Qed.

Lemma make_dims (k : MLP.kind) (i o : nat) (g g' : rng) (w : layer) :
  k <> MLP.K_Linear -> (0 < i)%nat ->
  MLP.make k i o g = Ok (w, g') -> layer_dims w i o.
Proof.
  intros Hk Hi H. pose proof (make_Ok_positive k i o g g' w Hk H) as Ho.
  destruct k; [contradiction| |]; unfold MLP.make in H.
  - unfold BiasLinear.init in H.
    pose proof (Linear_init_dims i o g) as Hl.
    destruct (Linear.init i o g) as [l g1]. simpl in Hl.
    destruct o as [|o]; [lia|].
    pose proof (length_normal_ (length (Linear.bias l)) 0 (1 / INR (S o)) g1)
      as Hb.
    destruct (normal_ (length (Linear.bias l)) 0 (1 / INR (S o)) g1)
      as [b g2].
    pose proof (draw_mat_shape (S o) (S o) g2) as [Hw1 Hw2].
    destruct (draw_mat (S o) (S o) g2) as [w0 g3].
    simpl in H. injection H as <- _. simpl in *.
    destruct Hl as [L1 [L2 [L3 [L4 L5]]]].
    repeat split; try assumption; try lia; congruence.
  - unfold WLinear.init in H. destruct o as [|o]; [lia|].
    pose proof (length_normal_ 100 0 (1 / INR (S o)) g) as Hz.
    destruct (normal_ 100 0 (1 / INR (S o)) g) as [z0 g1].
    pose proof (Linear_init_dims 100 (i * S o + S o) g1) as Hl.
    destruct (Linear.init 100 (i * S o + S o) g1) as [l g2].
    simpl in H. injection H as <- _. simpl in *.
    rewrite Hz. repeat split; try assumption; try lia;
      destruct Hl as [L1 [L2 [L3 [L4 L5]]]]; assumption.
Qed.

(** ** What a layer of given sizes does to a batch *)

Lemma mapM_total {A B : Type} (P : B -> Prop) (f : A -> result B)
      (l : list A) :
  (forall a, In a l -> exists b, f a = Ok b /\ P b) ->
  exists l', mapM f l = Ok l' /\ length l' = length l /\ Forall P l'.
Proof.
  induction l as [|a l IH]; intros H; simpl.
  - exists []. repeat split. constructor.
  - destruct (H a (or_introl eq_refl)) as [b [Hb Pb]].
    destruct IH as [l' [Hl' [Hlen HP]]].
    { intros a' Ha'. apply H. right. exact Ha'. }
    rewrite Hb, Hl'. simpl. exists (b :: l'). repeat split.
    + simpl. congruence.
    + constructor; assumption.
Qed.

Lemma width_In (c : nat) (t : mat) (r : vec) :
  width c t -> In r t -> length r = c.
Proof.
  unfold width. rewrite Forall_forall. intros H Hr. exact (H r Hr).
Qed.

Lemma length_zipWith_min {A B C : Type} (f : A -> B -> C) (u : list A)
      (v : list B) :
  length (zipWith f u v) = Nat.min (length u) (length v).
Proof.
  revert v. induction u as [|a u IH]; intros [|b v]; simpl;
    try reflexivity.
  f_equal. apply IH.
Qed.

Lemma Linear_forward1_dims (l : Linear.t) (i o : nat) (x : vec) :
  Linear_dims l i o -> length x = i ->
  exists y, Linear.forward1 l x = Ok y /\ length y = o.
Proof.
  intros [L1 [L2 [L3 [L4 L5]]]] Hx. unfold Linear.forward1.
  rewrite Hx, L1, Nat.eqb_refl. eexists. split; [reflexivity|].
  rewrite length_zipWith_min, L3, L5. apply Nat.min_id.
Qed.

Lemma Linear_forward_dims (l : Linear.t) (i o : nat) (x : mat) :
  Linear_dims l i o -> width i x ->
  exists y, Linear.forward l x = Ok y /\ length y = length x /\ width o y.
Proof.
  intros Hl Hx. unfold Linear.forward. apply mapM_total.
  intros r Hr. apply (Linear_forward1_dims l i o r Hl).
  exact (width_In i x r Hx Hr).
Qed.

Lemma length_fold_zipWith (c : nat) (rows : mat) :
  width c rows ->
  length (fold_right (zipWith Rplus) (repeat 0 c) rows) = c.
Proof.
  unfold width. induction 1 as [|r rows Hr _ IH]; simpl.
  - apply repeat_length.
  - rewrite length_zipWith_min, IH, Hr. apply Nat.min_id.
Qed.

Lemma vecmat_dims (v : vec) (w : mat) (c : nat) :
  length v = length w -> width c w ->
  exists y, vecmat v w c = Ok y /\ length y = c.
Proof.
  intros Hl Hw. unfold vecmat. rewrite Hl, Nat.eqb_refl.
  eexists. split; [reflexivity|]. apply length_fold_zipWith.
  clear Hl. revert v. unfold width in *.
  induction Hw as [|r w Hr _ IH]; intros [|a v]; simpl; constructor.
  - rewrite length_map. exact Hr.
  - apply IH.
Qed.

Lemma add_vec_dims (y : mat) (b : vec) (c : nat) :
  width c y -> length b = c ->
  exists y', add_vec y b = Ok y' /\ length y' = length y /\ width c y'.
Proof.
  intros Hy Hb. unfold add_vec. apply mapM_total. intros r Hr.
  pose proof (width_In c y r Hy Hr) as Hlen.
  rewrite bvec_same_length by congruence.
  eexists. split; [reflexivity|]. rewrite length_zipWith; congruence.
Qed.

Lemma last_dim_width (c : nat) (t : mat) :
  t <> [] -> width c t -> last_dim t = c.
Proof.
  intros Ht Hw. destruct t as [|r t]; [contradiction|].
  inversion Hw; subst. reflexivity.
Qed.

Lemma chunks_dims (n c : nat) :
  forall t : vec,
    length t = (n * c)%nat ->
    length (chunks n c t) = n /\ width c (chunks n c t).
Proof.
  unfold width. induction n as [|n IH]; intros t Ht; simpl.
  - split; [reflexivity | constructor].
  - destruct (IH (skipn c t)) as [H1 H2].
    { rewrite length_skipn. simpl in Ht. lia. }
    split; [congruence|]. constructor; [|exact H2].
    rewrite length_firstn. simpl in Ht. lia.
Qed.

Lemma view_dims (t : vec) (i o : nat) :
  (0 < i)%nat -> length t = (i * o)%nat ->
  exists w, view t i = Ok w /\ length w = i /\ width o w.
Proof.
  intros Hi Ht. unfold view. destruct i as [|i]; [lia|].
  rewrite Ht, Nat.mul_comm, Nat.Div0.mod_mul, Nat.eqb_refl.
  rewrite Nat.div_mul by discriminate.
  eexists. split; [reflexivity|]. apply chunks_dims. lia.
Qed.

Lemma length_pos_nonempty {A : Type} (l : list A) :
  (0 < length l)%nat -> l <> [].
Proof. destruct l; simpl; [lia | discriminate]. Qed.

(** On a batch with rows, a layer of sizes [i] and [o] maps rows of [i]
    entries to as many rows of [o] entries. *)
Lemma layer_forward_dims (l : layer) (i o : nat) (x : mat) :
  layer_dims l i o -> x <> [] -> width i x ->
  exists y, layer_forward l x = Ok y /\ length y = length x /\ width o y.
Proof.
  intros Hl Hne Hx. destruct l as [l|b|w|]; simpl in *.
  - apply (Linear_forward_dims l i o x Hl Hx).
  - destruct Hl as [Hl [Hb [Hw1 [Hw2 Ho]]]].
    unfold BiasLinear.forward.
    destruct (Linear_forward_dims _ i o x Hl Hx) as [y [Hy [Hlen Hwy]]].
    rewrite Hy. simpl.
    assert (Hne' : BiasLinear._weight b <> [])
      by (apply length_pos_nonempty; lia).
    rewrite (last_dim_width o _ Hne' Hw2).
    destruct (vecmat_dims (BiasLinear._bias b) (BiasLinear._weight b) o)
      as [c [Hc Hclen]]; [congruence | exact Hw2 |].
    rewrite Hc. simpl.
    destruct (add_vec_dims y c o Hwy Hclen) as [y' [Hy' [Hlen' Hw']]].
    exists y'. repeat split; [exact Hy' | congruence | exact Hw'].
  - destruct Hl as [Hfc [Hidx [Hout [Hi Ho]]]].
    unfold WLinear.forward.
    destruct (Linear_forward1_dims _ _ _ (WLinear.z w) Hfc eq_refl)
      as [theta [Ht Htlen]].
    rewrite Ht. simpl. rewrite (last_dim_width i x Hne Hx).
    destruct (view_dims (firstn (WLinear.w_idx w) theta) i o Hi)
      as [wm [Hv [Hwl Hww]]].
    { rewrite length_firstn, Htlen, Hidx. lia. }
    rewrite Hv. simpl.
    assert (Hwne : wm <> []) by (apply length_pos_nonempty; lia).
    rewrite (last_dim_width o wm Hwne Hww).
    assert (Hmm : exists y, matmul x wm o = Ok y /\ length y = length x
                            /\ width o y).
    { unfold matmul. apply mapM_total. intros r Hr.
      apply vecmat_dims; [|exact Hww].
      rewrite (width_In i x r Hx Hr). congruence. }
    destruct Hmm as [y [Hy [Hlen Hwy]]]. rewrite Hy. simpl.
    destruct (add_vec_dims y (skipn (WLinear.w_idx w) theta) o Hwy)
      as [y' [Hy' [Hlen' Hw']]].
    { rewrite length_skipn, Htlen, Hidx. lia. }
    exists y'. repeat split; [exact Hy' | congruence | exact Hw'].
  - subst o. exists (relu x). repeat split.
    + unfold relu. apply length_map.
    + unfold relu, width in *. apply Forall_map. revert Hx.
      apply Forall_impl. intros r Hr. rewrite length_map. exact Hr.
Qed.

Lemma Sequential_dims (s : list layer) :
  forall (i o : nat) (x : mat),
    chain s i o -> x <> [] -> width i x ->
    exists y, Sequential s x = Ok y /\ length y = length x /\ width o y.
Proof.
  induction s as [|l s IH]; intros i o x Hc Hne Hx; simpl in *.
  - subst o. exists x. repeat split. exact Hx.
  - destruct Hc as [mid [Hl Hc]].
    destruct (layer_forward_dims l i mid x Hl Hne Hx) as [y [Hy [Hlen Hw]]].
    rewrite Hy. simpl.
    assert (Hne' : y <> []).
    { apply length_pos_nonempty. rewrite Hlen.
      destruct x; [contradiction | simpl; lia]. }
    destruct (IH mid o y Hc Hne' Hw) as [y' [Hy' [Hlen' Hw']]].
    exists y'. repeat split; [exact Hy' | congruence | exact Hw'].
Qed.

(** ** The layers of a built network fit one another *)

Lemma pairs_cons2 (a b : nat) (rest : list nat) :
  MLP.pairs (a :: b :: rest) = (a, b) :: MLP.pairs (b :: rest).
Proof. reflexivity. Qed.

Lemma build_seq_chain (k : MLP.kind) (n : nat) (rest : list nat) :
  k <> MLP.K_Linear ->
  forall (a idx : nat) (g g' : rng) (s : list (MLP.mname * layer))
         (aps : list MLP.param),
    (0 < a)%nat ->
    MLP.build_seq k n idx (MLP.pairs (a :: rest)) g = Ok (s, aps, g') ->
    chain (map snd s) a (last (a :: rest) 0%nat)
    /\ (0 < last (a :: rest) 0)%nat.
Proof.
  intros Hk. induction rest as [|b rest IH]; intros a idx g g' s aps Ha.
  - simpl. intros H; injection H as <- _ _. split; [reflexivity | exact Ha].
  - rewrite pairs_cons2, build_seq_cons.
    destruct (MLP.make k a b g) as [[w g1]|e] eqn:Hm; [|discriminate].
    simpl. destruct (layer_adaptation_parameters w) as [ap|e]; [|discriminate].
    simpl.
    destruct (MLP.build_seq k n (S idx) (MLP.pairs (b :: rest)) g1)
      as [[[s' aps'] g2]|e] eqn:Hb; [|discriminate].
    simpl. intros H; injection H as <- _ _.
    pose proof (make_Ok_positive k a b g g1 w Hk Hm) as Hb0.
    pose proof (make_dims k a b g g1 w Hk Ha Hm) as Hd.
    destruct (IH b (S idx) g1 g2 s' aps' Hb0 Hb) as [Hc Hl].
    change (last (a :: b :: rest) 0%nat) with (last (b :: rest) 0%nat).
    split; [|exact Hl].
    simpl. exists b. split; [exact Hd|].
    destruct (idx <? n - 2)%nat; simpl; [|exact Hc].
    exists b. split; [reflexivity | exact Hc].
Qed.

Lemma build_head_chain (k : MLP.kind) (rest : list nat) :
  k <> MLP.K_Linear ->
  forall (a idx : nat) (g g' : rng) (s : list (MLP.mname * layer))
         (aps : list MLP.param),
    (0 < a)%nat ->
    MLP.build_head k idx (MLP.pairs (a :: rest)) g = Ok (s, aps, g') ->
    chain (map snd s) a (last (a :: rest) 0%nat).
Proof.
  intros Hk. induction rest as [|b rest IH]; intros a idx g g' s aps Ha.
  - simpl. intros H; injection H as <- _ _. reflexivity.
  - rewrite pairs_cons2, build_head_cons.
    destruct (MLP.make k a b g) as [[w g1]|e] eqn:Hm; [|discriminate].
    simpl. destruct (layer_adaptation_parameters w) as [ap|e]; [|discriminate].
    simpl.
    destruct (MLP.build_head k (S idx) (MLP.pairs (b :: rest)) g1)
      as [[[s' aps'] g2]|e] eqn:Hb; [|discriminate].
    simpl. intros H; injection H as <- _ _.
    pose proof (make_Ok_positive k a b g g1 w Hk Hm) as Hb0.
    pose proof (make_dims k a b g g1 w Hk Ha Hm) as Hd.
    pose proof (IH b (S idx) g1 g2 s' aps' Hb0 Hb) as Hc.
    change (last (a :: b :: rest) 0%nat) with (last (b :: rest) 0%nat).
    simpl. exists a. split; [reflexivity|].
    exists b. split; [exact Hd | exact Hc].
Qed.

Lemma built_widths_cons (a : nat) (rest : list nat) (deterministic : bool) :
  rest <> [] ->
  exists rest',
    built_widths (a :: rest) deterministic = a :: rest'
    /\ last (a :: rest') 0%nat
       = ((if deterministic then 1 else 2) * last (a :: rest) 0)%nat.
Proof.
  intros Hr. unfold built_widths. destruct deterministic; simpl negb; cbv iota.
  - exists rest. split; [reflexivity | lia].
  - destruct rest as [|b rest]; [contradiction|].
    exists (removelast (b :: rest) ++ [(last (b :: rest) 0 * 2)%nat]).
    split; [reflexivity|].
    change (last (a :: b :: rest) 0%nat) with (last (b :: rest) 0%nat).
    rewrite app_comm_cons, last_last. lia.
Qed.

(** The stack of a built network on a batch that fits its first layer. *)
Lemma init_run_shape (layer_widths : list nat) (fa : mat -> mat)
        (bias_linear : bool) (extra : option (list nat))
        (w_linear deterministic : bool) (g g' : rng) (m : MLP.t) (x : mat) :
  MLP.init layer_widths fa bias_linear extra w_linear deterministic g
  = Ok (m, g') ->
  bias_linear = true \/ w_linear = true ->
  (0 < hd 0 layer_widths)%nat ->
  x <> [] ->
  width (hd 0%nat layer_widths) x ->
  exists y,
    MLP.run (MLP.seq m) x = Ok y
    /\ length y = length x
    /\ width ((if deterministic then 1 else 2) * last layer_widths 0)%nat y
    /\ MLP.forward m x None = Ok (plain_output m y).
Proof.
  intros H Hk Ha Hne Hx.
  pose proof (linear_adaptable _ _ Hk) as Hk'.
  apply init_Ok_inv in H. destruct H as [Hlen H]. cbv zeta in H.
  destruct H as [s [aps [g1 [Hb H]]]].
  destruct layer_widths as [|a rest]; [simpl in Hlen; lia|].
  assert (Hr : rest <> []) by (intros ->; simpl in Hlen; lia).
  destruct (built_widths_cons a rest deterministic Hr) as [rest' [Hbw Hlast]].
  unfold built_widths in Hbw. rewrite Hbw in Hb.
  simpl hd in *.
  apply (build_seq_chain _ _ _ Hk' a 0%nat g g1 s aps Ha) in Hb.
  destruct Hb as [Hc _]. rewrite Hlast in Hc.
  assert (Hs : MLP.seq m = s).
  { destruct extra as [e|].
    - destruct H as [h [haps [_ ->]]]. reflexivity.
    - subst m. reflexivity. }
  destruct (Sequential_dims (map snd s) _ _ x Hc Hne Hx) as [y [Hy [Hl Hw]]].
  exists y. unfold MLP.run. rewrite Hs.
  repeat split; try assumption.
  rewrite forward_head_not_taken by (right; reflexivity).
  unfold MLP.run. rewrite Hs, Hy. reflexivity.
Qed.

(** X5: a network built by [MLP.__init__] on an adaptable primitive accepts
    every batch with rows of [layer_widths[0]] entries (a positive number) and
    maps it through the stack to as many rows of [layer_widths[-1]] entries,
    twice as many in probabilistic mode; without [acts], [forward] returns
    that output after the final activation, split in probabilistic mode. *)
Theorem MLP_forward_shape (layer_widths : list nat) (fa : mat -> mat)
        (bias_linear : bool) (extra : option (list nat))
        (w_linear deterministic : bool) (g g' : rng) (m : MLP.t) (x : mat) :
  MLP.init layer_widths fa bias_linear extra w_linear deterministic g
  = Ok (m, g') ->
  bias_linear = true \/ w_linear = true ->
  (0 < hd 0 layer_widths)%nat ->
  x <> [] ->
  width (hd 0%nat layer_widths) x ->
  exists y,
    MLP.run (MLP.seq m) x = Ok y
    /\ length y = length x
    /\ width ((if deterministic then 1 else 2) * last layer_widths 0)%nat y
    /\ MLP.forward m x None = Ok (plain_output m y).
Proof. apply init_run_shape. Qed.

Lemma MLP_forward_shape_witness :
  exists (m : MLP.t) (g' : rng),
    MLP.init [2; 3; 1]%nat (fun x => x) true None false false (fun _ => 0)
    = Ok (m, g')
    /\ exists y,
         MLP.run (MLP.seq m) [[1; 2]] = Ok y
         /\ length y = 1%nat
         /\ width 2 y
         /\ MLP.forward m [[1; 2]] None = Ok (plain_output m y).
Proof.
  eexists; eexists. split; [reflexivity|].
  eapply (MLP_forward_shape [2; 3; 1]%nat (fun x => x) true None false false
                            (fun _ => 0)).
  - reflexivity.
  - left. reflexivity.
  - simpl. lia.
  - discriminate.
  - unfold width. repeat constructor.
Defined.

(** X6: in probabilistic mode ([deterministic=False]) and with a final
    activation that keeps the widths, [forward] without [acts] on a built
    network returns a pair [(mu, sigma)]: the first [layer_widths[-1]]
    columns of the output of the stack after the final activation, and the
    other [layer_widths[-1]] columns halved and exponentiated. *)
Theorem MLP_forward_probabilistic_shape (layer_widths : list nat)
        (fa : mat -> mat) (bias_linear : bool) (extra : option (list nat))
        (w_linear : bool) (g g' : rng) (m : MLP.t) (x : mat) :
  MLP.init layer_widths fa bias_linear extra w_linear false g = Ok (m, g') ->
  bias_linear = true \/ w_linear = true ->
  (0 < hd 0 layer_widths)%nat ->
  x <> [] ->
  width (hd 0%nat layer_widths) x ->
  (forall c t, width c t -> width c (fa t)) ->
  exists y mu sigma,
    MLP.run (MLP.seq m) x = Ok y
    /\ MLP.forward m x None = Ok (MLP.Single (MLP.Gauss mu sigma))
    /\ mu = map (firstn (last layer_widths 0%nat)) (fa y)
    /\ sigma = map (map (fun v => exp (v / 2)))
                   (map (skipn (last layer_widths 0%nat)) (fa y))
    /\ width (last layer_widths 0%nat) mu
    /\ width (last layer_widths 0%nat) sigma.
Proof.
  intros H Hk Ha Hne Hx Hfa.
  assert (Hfm : MLP._final_activation m = fa /\ MLP.deterministic m = false).
  { apply init_Ok_inv in H. destruct H as [_ H]. cbv zeta in H.
    destruct H as [s [aps [g1 [_ H]]]]. destruct extra as [e|].
    - destruct H as [h [haps [_ ->]]]. split; reflexivity.
    - subst m. split; reflexivity. }
  destruct Hfm as [Hf Hd].
  destruct (init_run_shape _ _ _ _ _ _ _ _ _ x H Hk Ha Hne Hx)
    as [y [Hy [_ [Hw Hfw]]]].
  rewrite Hfw. unfold plain_output. rewrite Hd, Hf.
  destruct (halves_of_even_width (last layer_widths 0%nat) (fa y)
                                 (Hfa _ _ Hw)) as [Hl [Hr [Wl Wr]]].
  rewrite Hl, Hr. exists y. eexists; eexists.
  split; [exact Hy|]. split; [reflexivity|]. split; [reflexivity|].
  split; [reflexivity|]. split; [exact Wl|].
  exact (width_half_exp _ _ Wr).
Qed.

Lemma MLP_forward_probabilistic_shape_witness :
  exists (m : MLP.t) (g' : rng),
    MLP.init [2; 3; 1]%nat (fun x => x) true None false false (fun _ => 0)
    = Ok (m, g')
    /\ exists y mu sigma,
         MLP.run (MLP.seq m) [[1; 2]] = Ok y
         /\ MLP.forward m [[1; 2]] None = Ok (MLP.Single (MLP.Gauss mu sigma))
         /\ mu = map (firstn 1) y
         /\ sigma = map (map (fun v => exp (v / 2))) (map (skipn 1) y)
         /\ width 1 mu
         /\ width 1 sigma.
Proof.
  eexists; eexists. split; [reflexivity|].
  eapply (MLP_forward_probabilistic_shape
            [2; 3; 1]%nat (fun x => x) true None false (fun _ => 0)).
  - reflexivity.
  - left. reflexivity.
  - simpl. lia.
  - discriminate.
  - unfold width. repeat constructor.
  - intros c t Ht. exact Ht.
Defined.

(** ** [MLP.forward]: the branch of the head *)

Lemma Forall_firstn {A : Type} (P : A -> Prop) (n : nat) (l : list A) :
  Forall P l -> Forall P (firstn n l).
Proof.
  intros H. revert n. induction H as [|a l Ha _ IH]; intros [|n]; simpl;
    constructor; [exact Ha | apply IH].
Qed.

Lemma Forall_skipn {A : Type} (P : A -> Prop) (n : nat) (l : list A) :
  Forall P l -> Forall P (skipn n l).
Proof.
  intros H. revert n. induction H as [|a l Ha Hl IH]; intros [|n]; simpl.
  - constructor.
  - constructor.
  - constructor; assumption.
  - apply IH.
Qed.

Lemma entries_left_half (P : R -> Prop) (t : mat) :
  entries P t -> entries P (left_half t).
Proof.
  unfold entries, left_half. intros H. apply Forall_map. revert H.
  apply Forall_impl. intros r. apply Forall_firstn.
Qed.

Lemma entries_right_half (P : R -> Prop) (t : mat) :
  entries P t -> entries P (right_half t).
Proof.
  unfold entries, right_half. intros H. apply Forall_map. revert H.
  apply Forall_impl. intros r. apply Forall_skipn.
Qed.

Lemma entries_clamp (t : mat) :
  entries log_var_range (clamp LOG_VAR_MIN LOG_VAR_MAX t).
Proof.
  unfold entries, clamp. apply Forall_map, Forall_forall. intros r _.
  apply Forall_map, Forall_forall. intros v _.
  unfold log_var_range, LOG_VAR_MIN, LOG_VAR_MAX, Rmin, Rmax.
  repeat match goal with
         | |- context [Rle_dec ?a ?b] => destruct (Rle_dec a b)
         end; lra.
Qed.

Lemma exp_le (a b : R) : a <= b -> exp a <= exp b.
Proof.
  intros [H|H].
  - left. apply exp_increasing, H.
  - right. rewrite H. reflexivity.
Qed.

Lemma entries_half_exp (t : mat) :
  entries log_var_range t -> entries std_range (half_exp t).
Proof.
  unfold entries, half_exp. intros H. apply Forall_map. revert H.
  apply Forall_impl. intros r H. apply Forall_map. revert H.
  apply Forall_impl. intros v [H1 H2]. unfold std_range.
  split; apply exp_le; lra.
Qed.

(** X7: whenever the branch of the head returns (a head is configured and
    [acts] is passed), every entry of the primary output has passed the clamp:
    in deterministic mode the output lies in [[LOG_VAR_MIN, LOG_VAR_MAX]]; in
    probabilistic mode the mean lies in that range too (the clamp is applied
    before the split) and the standard deviation lies in
    [[exp(LOG_VAR_MIN / 2), exp(LOG_VAR_MAX / 2)]]. *)
Theorem MLP_forward_head_branch_is_clamped (m : MLP.t) (x acts : mat)
        (o : MLP.output) :
  MLP._head m = true ->
  MLP.forward m x (Some acts) = Ok o ->
  match o with
  | MLP.WithHead (MLP.Point y) _ =>
      MLP.deterministic m = true /\ entries log_var_range y
  | MLP.WithHead (MLP.Gauss mu sigma) _ =>
      MLP.deterministic m = false
      /\ entries log_var_range mu /\ entries std_range sigma
  | MLP.Single _ => False
  end.
Proof.
  intros Hh H.
  destruct (forward_head_taken m x acts o Hh H) as [y [ho [_ ->]]].
  cbv zeta. pose proof (entries_clamp (MLP._final_activation m y)) as Hc.
  destruct (MLP.deterministic m).
  - split; [reflexivity | exact Hc].
  - split; [reflexivity|]. split.
    + apply entries_left_half, Hc.
    + apply entries_half_exp, entries_right_half, Hc.
Qed.

Lemma MLP_forward_head_branch_is_clamped_witness :
  MLP.deterministic headed_net = true /\ entries log_var_range [[2]].
Proof.
  apply (MLP_forward_head_branch_is_clamped
           headed_net [[0]] [[0]] (MLP.WithHead (MLP.Point [[2]]) [[0]])).
  - reflexivity.
  - evaluate.
Defined.

(** ** [MLP.bias_parameters] and the adaptation parameters of a built
    network *)

Lemma init_first_layer (layer_widths : list nat) (fa : mat -> mat)
      (bias_linear : bool) (extra : option (list nat))
      (w_linear deterministic : bool) (g g' : rng) (m : MLP.t) :
  MLP.init layer_widths fa bias_linear extra w_linear deterministic g
  = Ok (m, g') ->
  exists w rest,
    MLP.seq m = (MLP.fc 0, w) :: rest
    /\ kind_of w = Some (MLP.linear bias_linear w_linear)
    /\ MLP.bias_linear m = bias_linear.
Proof.
  intros H. pose proof (init_Ok_inv _ _ _ _ _ _ _ _ _ H) as [Hlen _].
  apply init_stack in H.
  destruct H as [Hn [Hk [_ [_ [_ [_ [_ Hb]]]]]]].
  destruct (length layer_widths - 1)%nat as [|n] eqn:E; [lia|].
  simpl in Hn. destruct (MLP.seq m) as [|[n0 w] rest]; [discriminate|].
  simpl in Hn. injection Hn as Hn0 _. subst n0.
  inversion Hk as [|? ? Hw _]; subst.
  exists w, rest. repeat split; assumption.
Qed.

(** X8: on a network that [MLP.__init__] has returned, [bias_parameters]
    yields the bias of the first layer's inner [torch.nn.Linear] when
    [bias_linear] is set ([_linear.bias] of a [BiasLinear], and of a [WLinear]
    its [fc.bias], since [w_linear] takes precedence), and raises
    [AttributeError] when it is not: the network is then made of [WLinear]
    layers, which have no attribute [bias]. *)
Theorem MLP_bias_parameters_of_built (layer_widths : list nat)
        (fa : mat -> mat) (bias_linear : bool) (extra : option (list nat))
        (w_linear deterministic : bool) (g g' : rng) (m : MLP.t) :
  MLP.init layer_widths fa bias_linear extra w_linear deterministic g
  = Ok (m, g') ->
  MLP.bias_parameters m
  = if bias_linear
    then Ok [(MLP.C_seq, MLP.fc 0,
              if w_linear then P_fc_bias else P__linear_bias)]
    else Raise AttributeError.
Proof.
  intros H. pose proof (init_Ok_inv _ _ _ _ _ _ _ _ _ H) as [Hlen _].
  destruct (init_first_layer _ _ _ _ _ _ _ _ _ H) as [w [rest [Hs [Hk Hb]]]].
  unfold MLP.bias_parameters. rewrite Hs, Hb.
  destruct bias_linear, w_linear; simpl in Hk;
    destruct w; try discriminate Hk; try reflexivity.
  rewrite (init_default_primitive_raises _ _ _ _ _ Hlen) in H.
  discriminate H.
Qed.

Lemma MLP_bias_parameters_of_built_witness :
  exists (m : MLP.t) (g' : rng),
    MLP.init [2; 3]%nat (fun x => x) true None false true (fun _ => 0)
    = Ok (m, g')
    /\ MLP.bias_parameters m
       = Ok [(MLP.C_seq, MLP.fc 0, P__linear_bias)].
Proof.
  eexists; eexists. split; [reflexivity|].
  eapply (MLP_bias_parameters_of_built
            [2; 3]%nat (fun x => x) true None false true (fun _ => 0)).
  reflexivity.
Defined.

(** X9: on a network built with [bias_linear] (and not [w_linear]),
    [adaptation_parameters] returns exactly the aggregate [aparams] that
    [__init__] has collected from the layers: a [BiasLinear] reports all its
    parameters. *)
Theorem MLP_bias_linear_adaptation_is_aggregate (layer_widths : list nat)
        (fa : mat -> mat) (extra : option (list nat)) (deterministic : bool)
        (g g' : rng) (m : MLP.t) :
  MLP.init layer_widths fa true extra false deterministic g = Ok (m, g') ->
  MLP.adaptation_parameters m = MLP.aparams m.
Proof. apply bias_linear_adaptation_parameters. Qed.

Lemma MLP_bias_linear_adaptation_is_aggregate_witness :
  exists (m : MLP.t) (g' : rng),
    MLP.init [2; 3; 1]%nat (fun x => x) true (Some [1%nat]) false true
             (fun _ => 0)
    = Ok (m, g')
    /\ MLP.adaptation_parameters m = MLP.aparams m.
Proof.
  eexists; eexists. split; [reflexivity|].
  eapply (MLP_bias_linear_adaptation_is_aggregate
            [2; 3; 1]%nat (fun x => x) (Some [1%nat]) true (fun _ => 0)).
  reflexivity.
Defined.

Lemma make_WLinear_inv (i o : nat) (g g1 : rng) (w : layer) :
  MLP.make MLP.K_WLinear i o g = Ok (w, g1) -> exists w0, w = L_WLinear w0.
Proof.
  intros H. apply make_kind in H. destruct w; try discriminate H.
  eexists. reflexivity.
Qed.

Lemma filter_is_z_tag (c : MLP.container) (n : MLP.mname) :
  filter is_z (MLP.tag c n [P_z; P_fc_weight; P_fc_bias]) = [(c, n, P_z)].
Proof. reflexivity. Qed.

Lemma build_seq_w_aparams (n : nat) (ws : list (nat * nat)) :
  forall (idx : nat) (g g' : rng) (s : list (MLP.mname * layer))
         (aps : list MLP.param),
    MLP.build_seq MLP.K_WLinear n idx ws g = Ok (s, aps, g') ->
    aps = filter is_z (MLP.seq_parameters MLP.C_seq s)
    /\ length (MLP.seq_parameters MLP.C_seq s) = (3 * length aps)%nat.
Proof.
  induction ws as [|[i o] ws IH]; intros idx g g' s aps.
  - simpl. intros H; injection H as <- <- _. split; reflexivity.
  - rewrite build_seq_cons.
    destruct (MLP.make MLP.K_WLinear i o g) as [[w g1]|e] eqn:Hm;
      [|discriminate].
    destruct (make_WLinear_inv _ _ _ _ _ Hm) as [w0 ->]. simpl.
    destruct (MLP.build_seq MLP.K_WLinear n (S idx) ws g1)
      as [[[s' aps'] g2]|e] eqn:Hb; [|discriminate].
    simpl. intros H; injection H as <- <- _.
    destruct (IH _ _ _ _ _ Hb) as [IH1 IH2].
    unfold MLP.seq_parameters in *.
    destruct (idx <? n - 2)%nat; simpl; rewrite <- IH1; split;
      try reflexivity; simpl in IH2 |- *; lia.
Qed.

Lemma build_head_w_aparams (ws : list (nat * nat)) :
  forall (idx : nat) (g g' : rng) (s : list (MLP.mname * layer))
         (aps : list MLP.param),
    MLP.build_head MLP.K_WLinear idx ws g = Ok (s, aps, g') ->
    aps = filter is_z (MLP.seq_parameters MLP.C_head_seq s)
    /\ length (MLP.seq_parameters MLP.C_head_seq s) = (3 * length aps)%nat.
Proof.
  induction ws as [|[i o] ws IH]; intros idx g g' s aps.
  - simpl. intros H; injection H as <- <- _. split; reflexivity.
  - rewrite build_head_cons.
    destruct (MLP.make MLP.K_WLinear i o g) as [[w g1]|e] eqn:Hm;
      [|discriminate].
    destruct (make_WLinear_inv _ _ _ _ _ Hm) as [w0 ->]. simpl.
    destruct (MLP.build_head MLP.K_WLinear (S idx) ws g1)
      as [[[s' aps'] g2]|e] eqn:Hb; [|discriminate].
    simpl. intros H; injection H as <- <- _.
    destruct (IH _ _ _ _ _ Hb) as [IH1 IH2].
    unfold MLP.seq_parameters in *. simpl. rewrite <- IH1. split;
      [reflexivity | simpl in IH2 |- *; lia].
Qed.

(** X10: on a network built with [w_linear], the aggregate [aparams] that
    [__init__] collects is the list of the latent vectors [z] of the layers,
    in the order of [parameters()]; [adaptation_parameters] returns three
    tensors for each of them ([z] and the weight and bias of the generating
    map). *)
Theorem MLP_w_linear_aggregate_is_latents (layer_widths : list nat)
        (fa : mat -> mat) (bias_linear : bool) (extra : option (list nat))
        (deterministic : bool) (g g' : rng) (m : MLP.t) :
  MLP.init layer_widths fa bias_linear extra true deterministic g
  = Ok (m, g') ->
  MLP.aparams m = filter is_z (MLP.adaptation_parameters m)
  /\ length (MLP.adaptation_parameters m) = (3 * length (MLP.aparams m))%nat.
Proof.
  intros H. apply init_Ok_inv in H. destruct H as [_ H]. cbv zeta in H.
  destruct H as [s [aps [g1 [Hb H]]]].
  replace (MLP.linear bias_linear true) with MLP.K_WLinear in *
    by (destruct bias_linear; reflexivity).
  apply build_seq_w_aparams in Hb. destruct Hb as [B1 B2].
  unfold MLP.adaptation_parameters, MLP.parameters.
  destruct extra as [e|].
  - destruct H as [h [haps [Hh ->]]]. apply build_head_w_aparams in Hh.
    destruct Hh as [H1 H2]. simpl.
    rewrite filter_app, <- B1, <- H1, !length_app. split; [reflexivity | lia].
  - subst m. simpl. rewrite app_nil_r. split; assumption.
Qed.

Lemma MLP_w_linear_aggregate_is_latents_witness :
  exists (m : MLP.t) (g' : rng),
    MLP.init [2; 1]%nat (fun x => x) false None true true (fun _ => 0)
    = Ok (m, g')
    /\ MLP.aparams m = filter is_z (MLP.adaptation_parameters m)
    /\ length (MLP.adaptation_parameters m)
       = (3 * length (MLP.aparams m))%nat.
Proof.
  eexists; eexists. split; [reflexivity|].
  eapply (MLP_w_linear_aggregate_is_latents
            [2; 1]%nat (fun x => x) false None true (fun _ => 0)).
  reflexivity.
Defined.

(** ** [CVAE.__init__] *)

(** X11: [CVAE.__init__] returns no model, whatever its arguments (with a
    positive [traj_dim]): its first statement builds the encoder as an [MLP]
    on the default primitive, with at least two widths, and that construction
    raises [AttributeError]. *)
Theorem CVAE_init_always_raises (observation_dim action_dim traj_dim
        latent_dim : nat) (encoder_hidden prior_hidden decoder_hidden : list nat)
        (condition_prior preprocess : bool) (g : rng) :
  (0 < traj_dim)%nat ->
  CVAE.init observation_dim action_dim traj_dim latent_dim encoder_hidden
            prior_hidden decoder_hidden condition_prior preprocess g
  = Raise AttributeError.
Proof.
  intros _. unfold CVAE.init, CVAE.default_MLP.
  rewrite init_default_primitive_raises; [reflexivity|].
  simpl. rewrite length_app. simpl. lia.
Qed.

Lemma CVAE_init_always_raises_witness :
  CVAE.init 3 2 4 32 [128; 64]%nat [128; 64]%nat [128; 64]%nat false false
            (fun _ => 0)
  = Raise AttributeError.
Proof.
  apply (CVAE_init_always_raises 3 2 4 32 [128; 64]%nat [128; 64]%nat
                                 [128; 64]%nat false false (fun _ => 0)).
  lia.
Defined.

(** ** [CVAE]: the prior without conditioning, and the batch sizes *)

Lemma firstn_repeat {A : Type} (a : A) (n m : nat) :
  firstn n (repeat a (n + m)) = repeat a n.
Proof. induction n as [|n IH]; simpl; [reflexivity | f_equal; exact IH]. Qed.

Lemma skipn_repeat {A : Type} (a : A) (n m : nat) :
  skipn n (repeat a (n + m)) = repeat a m.
Proof. induction n as [|n IH]; simpl; [reflexivity | exact IH]. Qed.

(** Noise scaled by the standard deviation [exp (0 / 2)] and shifted by the
    mean 0 is the noise. *)
Lemma unit_noise (l : vec) :
  zipWith Rplus
    (zipWith Rmult l (map (fun v => exp (v / 2)) (repeat 0 (length l))))
    (repeat 0 (length l))
  = l.
Proof.
  induction l as [|a l IH]; simpl; [reflexivity|]. f_equal; [|exact IH].
  replace (0 / 2) with 0 by lra. rewrite exp_0. ring.
Qed.

Lemma sample_zero (L : nat) (g : rng) :
  CVAE.sample [repeat 0 (L * 2)] g
  = Ok ([map g (seq 0 L)], fun i => g (L + i)%nat).
Proof.
  unfold CVAE.sample, left_half, right_half. cbn [last_dim map].
  rewrite repeat_length, Nat.div_mul by discriminate.
  replace (L * 2)%nat with (L + L)%nat by lia.
  rewrite firstn_repeat, skipn_repeat.
  unfold half_exp. cbn [map normal_like]. rewrite repeat_length.
  unfold draw, bmat. cbn [length Nat.eqb mapM2 bind].
  rewrite bvec_same_length
    by (rewrite !length_map, length_seq, repeat_length; reflexivity).
  cbn [length Nat.eqb mapM2 bind].
  rewrite bvec_same_length
    by (rewrite length_zipWith; rewrite !length_map, length_seq, repeat_length;
        reflexivity).
  cbn [bind].
  pose proof (unit_noise (map g (seq 0 L))) as U.
  rewrite length_map, length_seq in U. rewrite U. reflexivity.
Qed.

(** X12: without a conditioning prior ([condition_prior=False]), and with an
    encoder whose first layer has a [weight], [prior] with [sample=True]
    ignores [obs]: [mu_logvar] is the zero tensor of shape
    [(1, 2 * latent_dim)] and the sample is the standard-normal noise itself,
    one row of [latent_dim] draws. *)
Theorem CVAE_unconditioned_prior_sample (self : CVAE.t) (obs : mat) (g : rng) :
  CVAE._prior self = None ->
  CVAE.device (CVAE._encoder self) = Ok tt ->
  CVAE.prior self obs true g
  = Ok (CVAE.Sampled [repeat 0 (CVAE._latent_dim self * 2)]
                     [map g (seq 0 (CVAE._latent_dim self))],
        fun i => g (CVAE._latent_dim self + i)%nat).
Proof.
  intros Hp Hd. unfold CVAE.prior. rewrite Hp, Hd. cbn [bind].
  unfold CVAE.with_sample. rewrite sample_zero. reflexivity.
Qed.

Lemma CVAE_unconditioned_prior_sample_witness :
  CVAE.prior small_cvae [[7]] true (fun _ => 3)
  = Ok (CVAE.Sampled [repeat 0 (CVAE._latent_dim small_cvae * 2)]
                     [map (fun _ => 3) (seq 0 (CVAE._latent_dim small_cvae))],
        fun i => (fun _ => 3) (CVAE._latent_dim small_cvae + i)%nat).
Proof.
  apply (CVAE_unconditioned_prior_sample small_cvae [[7]] (fun _ => 3)).
  - reflexivity.
  - reflexivity.
Defined.

(** Without a conditioning prior [fix] always returns: it stores the noise
    drawn, one row of [latent_dim] entries. *)
Lemma fix_unconditioned (self : CVAE.t) (obs : mat) (g : rng) :
  CVAE._prior self = None ->
  CVAE.device (CVAE._encoder self) = Ok tt ->
  CVAE.fix_ self obs g
  = Ok (set_z self (Some [map g (seq 0 (CVAE._latent_dim self))]),
        fun i => g (CVAE._latent_dim self + i)%nat).
Proof.
  intros Hp Hd. unfold CVAE.fix_, CVAE.prior, set_z. rewrite Hp, Hd.
  cbn [bind]. unfold CVAE.with_sample. rewrite sample_zero. reflexivity.
Qed.

Lemma forward_latent_rows (self : CVAE.t) (z obs : mat) (g : rng) :
  CVAE._preprocess self = None ->
  length z <> length obs ->
  with_rng (decoded self z obs) g = Raise RuntimeError.
Proof.
  intros Hp Hl. unfold decoded, with_rng. rewrite Hp. cbn [bind].
  unfold cat. apply Nat.eqb_neq in Hl. rewrite Hl. reflexivity.
Qed.

(** X13: without preprocessing, [forward] concatenates the latent and [obs]
    along the last dimension, so their batch sizes must agree.  With a cached
    latent of another number of rows than [obs], [forward] raises
    [RuntimeError]; and with no cached latent and no conditioning prior the
    latent drawn has one row, so [forward] raises [RuntimeError] on every
    batch that has not exactly one row. *)
Theorem CVAE_forward_batch_mismatch_raises (self : CVAE.t) (obs : mat)
        (g : rng) :
  CVAE._preprocess self = None ->
  (forall z, CVAE._z self = Some z -> length z <> length obs ->
             CVAE.forward self obs g = Raise RuntimeError)
  /\ (CVAE._z self = None -> CVAE._prior self = None ->
      CVAE.device (CVAE._encoder self) = Ok tt ->
      length obs <> 1%nat ->
      CVAE.forward self obs g = Raise RuntimeError).
Proof.
  intros Hp. split.
  - intros z Hz Hl. rewrite (forward_fixed self z obs g Hz).
    apply forward_latent_rows; assumption.
  - intros Hz Hpr Hd Hl. unfold CVAE.forward. rewrite Hz.
    unfold CVAE.prior. rewrite Hpr, Hd. cbn [bind].
    unfold CVAE.with_sample. rewrite sample_zero. cbn [bind CVAE.item1].
    rewrite forward_from_latent. apply forward_latent_rows; [exact Hp|].
    simpl. intros H. apply Hl. symmetry. exact H.
Qed.

Lemma CVAE_forward_batch_mismatch_raises_witness :
  (forall z, CVAE._z small_cvae = Some z ->
             length z <> length [[0]; [0]] ->
             CVAE.forward small_cvae [[0]; [0]] (fun _ => 0)
             = Raise RuntimeError)
  /\ (CVAE._z small_cvae = None -> CVAE._prior small_cvae = None ->
      CVAE.device (CVAE._encoder small_cvae) = Ok tt ->
      length [[0]; [0]] <> 1%nat ->
      CVAE.forward small_cvae [[0]; [0]] (fun _ => 0) = Raise RuntimeError).
Proof.
  apply (CVAE_forward_batch_mismatch_raises small_cvae [[0]; [0]] (fun _ => 0)).
  reflexivity.
Defined.

(** X14: [CVAE.encode] does not depend on the order of the elements of the
    trajectory: the set encoder is invariant under their permutation, and the
    encoder network and the sampling act on its output only. *)
Theorem CVAE_encode_permutation_invariant (self : CVAE.t) (traj : tensor3)
        (p : list nat) (sample_flag : bool) (g : rng) :
  Permutation p (seq 0 (length p)) ->
  Forall (width (length p)) traj ->
  CVAE.encode self (permute_elements p traj) sample_flag g
  = CVAE.encode self traj sample_flag g.
Proof.
  intros Hp Hx. unfold CVAE.encode.
  rewrite (forward_permuted p Hp (CVAE._traj_encoder self) traj Hx).
  reflexivity.
Qed.

Lemma CVAE_encode_permutation_invariant_witness :
  CVAE.encode small_cvae
              (permute_elements [2; 0; 1]%nat [[[1; 2; 3]; [4; 5; 6]]])
              true (fun _ => 0)
  = CVAE.encode small_cvae [[[1; 2; 3]; [4; 5; 6]]] true (fun _ => 0).
Proof.
  apply (CVAE_encode_permutation_invariant
           small_cvae [[[1; 2; 3]; [4; 5; 6]]] [2; 0; 1]%nat true (fun _ => 0)).
  - simpl. apply Permutation_sym.
    apply (Permutation_cons_app [2%nat] [1%nat] 0%nat). apply perm_swap.
  - unfold width. repeat constructor.
Defined.

(** ** [CVAE.sample] on rows of odd length *)

Lemma bvec_raises (f : R -> R -> R) (u v : vec) :
  length u <> length v -> (2 <= length u)%nat -> (2 <= length v)%nat ->
  bvec f u v = Raise RuntimeError.
Proof.
  intros Hne Hu Hv. unfold bvec. apply Nat.eqb_neq in Hne. rewrite Hne.
  destruct u as [|a [|a' u]]; simpl in Hu; try lia.
  destruct v as [|b [|b' v]]; simpl in Hv; try lia.
  reflexivity.
Qed.

(** X15: [sample] halves the last dimension with an integer division, so on
    rows of odd length [2 * k + 1] the mean has [k] entries and the standard
    deviation [k + 1]; from [k = 2] on (rows of 5, 7, ... entries) the two do
    not broadcast and [sample] raises [RuntimeError]. *)
Theorem CVAE_sample_odd_width_raises (mu_logvar : mat) (k : nat) (g : rng) :
  mu_logvar <> [] ->
  (2 <= k)%nat ->
  width (2 * k + 1)%nat mu_logvar ->
  CVAE.sample mu_logvar g = Raise RuntimeError.
Proof.
  intros Hne Hk Hw. destruct mu_logvar as [|r t]; [contradiction|].
  inversion Hw as [|? ? Hr _]; subst.
  unfold CVAE.sample, left_half, right_half. cbn [last_dim]. rewrite Hr.
  replace ((2 * k + 1) / 2)%nat with k
    by (apply (Nat.div_unique (2 * k + 1) 2 k 1); lia).
  cbn [map normal_like].
  pose proof (length_draw (length (firstn k r)) g) as Hd.
  destruct (draw (length (firstn k r)) g) as [n g1]. cbn [fst] in Hd.
  pose proof (normal_like_shape (map (firstn k) t) g1) as Hs.
  destruct (normal_like (map (firstn k) t) g1) as [ns g2]. cbn [fst] in Hs.
  apply Forall2_length in Hs.
  unfold bmat, half_exp. cbn [length map].
  rewrite !length_map in *. rewrite Hs, Nat.eqb_refl. cbn [mapM2].
  rewrite length_firstn in Hd.
  rewrite bvec_raises; [reflexivity| | |].
  - rewrite length_map, length_skipn. lia.
  - lia.
  - rewrite length_map, length_skipn. lia.
Qed.

Lemma CVAE_sample_odd_width_raises_witness :
  CVAE.sample [[1; 2; 3; 4; 5]] (fun _ => 0) = Raise RuntimeError.
Proof.
  apply (CVAE_sample_odd_width_raises [[1; 2; 3; 4; 5]] 2 (fun _ => 0)).
  - discriminate.
  - lia.
  - unfold width. repeat constructor.
Defined.

(** ** [BiasLinear] with a [bias_size] of its own *)

Lemma mapM_raises {A B : Type} (f : A -> result B) (l : list A) (e : exn) :
  mapM f l = Raise e -> exists a, In a l /\ f a = Raise e.
Proof.
  induction l as [|a l IH]; simpl; [discriminate|].
  destruct (f a) as [b|e'] eqn:Hf; simpl.
  - destruct (mapM f l) as [bs|e'']; simpl; [discriminate|].
    intros H. destruct (IH H) as [a' [Hin Ha']].
    exists a'. split; [right; exact Hin | exact Ha'].
  - intros H. exists a. split; [left; reflexivity | congruence].
Qed.

Lemma Linear_forward_raises (l : Linear.t) (x : mat) (e : exn) :
  Linear.forward l x = Raise e -> e = RuntimeError.
Proof.
  intros H. apply mapM_raises in H. destruct H as [r [_ H]].
  unfold Linear.forward1 in H.
  destruct (length r =? Linear.in_features l)%nat; [discriminate|].
  congruence.
Qed.

(** X16: a [BiasLinear(i, o, bias_size=b)] with [b] other than [o] is built,
    but its [forward] raises [RuntimeError] on every input: [_bias] has [o]
    entries (it is shaped like the bias of the inner layer) while [_weight]
    has [b] rows, so the product [_bias @ _weight] has no meaning. *)
Theorem BiasLinear_bias_size_mismatch_raises (i o b : nat) (g g' : rng)
        (m : BiasLinear.t) (x : mat) :
  BiasLinear.init i o (Some b) g = Ok (m, g') ->
  b <> o ->
  BiasLinear.forward m x = Raise RuntimeError.
Proof.
  intros H Hb. unfold BiasLinear.init in H.
  pose proof (Linear_init_dims i o g) as Hl.
  destruct (Linear.init i o g) as [l g1]. cbn [fst] in Hl.
  destruct b as [|b]; [discriminate H|].
  pose proof (length_normal_ (length (Linear.bias l)) 0 (1 / INR (S b)) g1)
    as Hn.
  destruct (normal_ (length (Linear.bias l)) 0 (1 / INR (S b)) g1) as [v g2].
  pose proof (draw_mat_shape (S b) o g2) as [Hw _].
  destruct (draw_mat (S b) o g2) as [w g3].
  injection H as <- _. cbn [fst] in *.
  destruct Hl as [_ [_ [_ [_ Hbias]]]].
  unfold BiasLinear.forward. cbn [BiasLinear._linear BiasLinear._bias
                                   BiasLinear._weight].
  destruct (Linear.forward l x) as [y|e] eqn:Hf; cbn [bind].
  - unfold vecmat.
    assert (E : (length v =? length w)%nat = false)
      by (apply Nat.eqb_neq; lia).
    rewrite E. reflexivity.
  - rewrite (Linear_forward_raises l x e Hf). reflexivity.
Qed.

Lemma BiasLinear_bias_size_mismatch_raises_witness :
  exists (m : BiasLinear.t) (g' : rng),
    BiasLinear.init 1 1 (Some 2%nat) (fun _ => 0) = Ok (m, g')
    /\ BiasLinear.forward m [[1]] = Raise RuntimeError.
Proof.
  eexists; eexists. split; [reflexivity|].
  eapply (BiasLinear_bias_size_mismatch_raises 1 1 2 (fun _ => 0)).
  - reflexivity.
  - discriminate.
Defined.

(** ** [DeepSet]: the encoder that [__init__] builds and its output *)

Lemma Conv1d_init_dims (i o : nat) (g : rng) :
  Conv1d_dims (fst (Conv1d.init i o g)) i o.
Proof.
  unfold Conv1d.init.
  pose proof (draw_mat_shape o i g) as [Hw _].
  destruct (draw_mat o i g) as [w g1]. cbn [fst] in Hw.
  pose proof (length_draw o g1) as Hb.
  destruct (draw o g1) as [b g2]. cbn [fst] in Hb.
  unfold Conv1d_dims. simpl. repeat split; assumption.
Qed.

Lemma build_cons (n idx d d_ : nat) (ws : list (nat * nat)) (g : rng) :
  DeepSet.build n idx ((d, d_) :: ws) g
  = (let (c, g1) := Conv1d.init d d_ g in
     let (s, g2) := DeepSet.build n (S idx) ws g1 in
     ((DeepSet.E_Conv1d c
       :: (if (idx <? n - 1)%nat then [DeepSet.E_ReLU] else [])) ++ s, g2)).
Proof. reflexivity. Qed.

(** In the loop of [__init__] the test [idx < len(encoder_hidden) - 1] holds
    at every pass: every convolution, the last one too, is followed by a
    [ReLU]. *)
Lemma build_chain (n : nat) (rest : list nat) :
  positive rest ->
  forall (a idx : nat) (g g' : rng) (s : list DeepSet.enc_layer),
    n = (idx + length rest + 1)%nat ->
    DeepSet.build n idx (MLP.pairs (a :: rest)) g = (s, g') ->
    conv_relu_chain s a (last (a :: rest) 0%nat)
    /\ (rest <> [] -> s <> []).
Proof.
  induction rest as [|b rest IH]; intros Hp a idx g g' s Hn.
  - simpl. intros H; injection H as <- _.
    split; [constructor | intros H; contradiction].
  - rewrite pairs_cons2, build_cons.
    pose proof (Conv1d_init_dims a b g) as Hc.
    destruct (Conv1d.init a b g) as [c g1]. cbn [fst] in Hc.
    destruct (DeepSet.build n (S idx) (MLP.pairs (b :: rest)) g1)
      as [s' g2] eqn:Hb.
    apply positive_cons in Hp. destruct Hp as [Hb0 Hp].
    assert (E : (idx <? n - 1)%nat = true)
      by (apply Nat.ltb_lt; simpl in Hn; lia).
    rewrite E. intros H; injection H as <- _.
    change (last (a :: b :: rest) 0%nat) with (last (b :: rest) 0%nat).
    simpl. split; [|discriminate].
    apply (chain_cons c s' a b); [lia | exact Hc|].
    apply (IH Hp b (S idx) g1 g2 s'); [simpl in Hn; lia | exact Hb].
Qed.

Lemma Forall_zipWith {A B C : Type} (P : C -> Prop) (f : A -> B -> C)
      (u : list A) (v : list B) :
  (forall a b, P (f a b)) -> Forall P (zipWith f u v).
Proof.
  intros H. revert v. induction u as [|a u IH]; intros [|b v]; simpl;
    constructor; [apply H | apply IH].
Qed.

Lemma last_dim3_shape (c n : nat) (x : tensor3) :
  (0 < c)%nat -> x <> [] -> shape3 c n x -> last_dim3 x = n.
Proof.
  intros Hc Hne Hx. destruct x as [|xb x]; [contradiction|].
  inversion Hx as [|? ? [Hl Hw] _]; subst.
  destruct xb as [|ch xb]; [simpl in Hc; lia|].
  inversion Hw; subst. reflexivity.
Qed.

Lemma Conv1d_forward_shape (c : Conv1d.t) (i o n : nat) (x : tensor3) :
  Conv1d_dims c i o -> (0 < i)%nat -> x <> [] -> shape3 i n x ->
  exists y,
    Conv1d.forward c x = Ok y /\ length y = length x /\ shape3 o n y.
Proof.
  intros [D1 [D2 D3]] Hi Hne Hx. unfold Conv1d.forward.
  rewrite (last_dim3_shape i n x Hi Hne Hx).
  apply mapM_total. intros xb Hin.
  unfold shape3 in Hx. rewrite Forall_forall in Hx.
  destruct (Hx xb Hin) as [Hl _].
  unfold Conv1d.forward_item. rewrite Hl, D1, Nat.eqb_refl.
  eexists. split; [reflexivity|]. split.
  - rewrite length_zipWith_min, D2, D3. apply Nat.min_id.
  - unfold width. apply Forall_zipWith. intros w b.
    rewrite length_map, length_seq. reflexivity.
Qed.

Lemma relu3_shape (c n : nat) (x : tensor3) :
  shape3 c n x ->
  shape3 c n (map relu x)
  /\ Forall (entries (fun v => 0 <= v)) (map relu x).
Proof.
  intros Hx. split.
  - unfold shape3 in *. apply Forall_map. revert Hx. apply Forall_impl.
    intros xb [Hl Hw]. unfold relu. rewrite length_map. split; [exact Hl|].
    unfold width in *. apply Forall_map. revert Hw. apply Forall_impl.
    intros r Hr. rewrite length_map. exact Hr.
  - apply Forall_map, Forall_forall. intros xb _.
    unfold entries, relu. apply Forall_map, Forall_forall. intros r _.
    apply Forall_map, Forall_forall. intros v _. apply Rmax_l.
Qed.

Lemma encode_chain (n : nat) (s : list DeepSet.enc_layer) (i o : nat) :
  conv_relu_chain s i o ->
  forall x : tensor3,
    (0 < i)%nat -> x <> [] -> shape3 i n x ->
    exists y,
      DeepSet.encode s x = Ok y /\ length y = length x /\ shape3 o n y
      /\ (s <> [] -> Forall (entries (fun v => 0 <= v)) y).
Proof.
  induction 1 as [i|c s i mid o Hmid Hc Hs IH]; intros x Hi Hne Hx.
  - exists x. repeat split; [exact Hx|]. intros H. contradiction.
  - destruct (Conv1d_forward_shape c i mid n x Hc Hi Hne Hx)
      as [y1 [Hy1 [Hl1 Hs1]]].
    cbn [DeepSet.encode DeepSet.enc_forward]. rewrite Hy1. cbn [bind].
    destruct (relu3_shape mid n y1 Hs1) as [Hs2 Hn2].
    assert (Hne2 : map relu y1 <> []).
    { apply length_pos_nonempty. rewrite length_map, Hl1.
      destruct x; [contradiction | simpl; lia]. }
    destruct (IH (map relu y1) Hmid Hne2 Hs2) as [y [Hy [Hl [Hsy Hny]]]].
    exists y. repeat split.
    + exact Hy.
    + rewrite Hl, length_map. exact Hl1.
    + exact Hsy.
    + intros _. destruct s as [|l s].
      * simpl in Hy. injection Hy as <-. exact Hn2.
      * apply Hny. discriminate.
Qed.

Lemma rsum_nonneg (v : vec) : Forall (fun a => 0 <= a) v -> 0 <= rsum v.
Proof.
  unfold rsum. induction 1 as [|a v Ha _ IH]; simpl; lra.
Qed.

Lemma mean_nonneg (v : vec) :
  (0 < length v)%nat -> Forall (fun a => 0 <= a) v -> 0 <= DeepSet.mean v.
Proof.
  intros Hl Hv. unfold DeepSet.mean, Rdiv. apply Rmult_le_pos.
  - apply rsum_nonneg, Hv.
  - left. apply Rinv_0_lt_compat. apply lt_0_INR. exact Hl.
Qed.

(** X17: the encoder that [DeepSet.__init__] builds ends with a [ReLU] (the
    test of line 25 holds at every pass of the loop).  So on a batch of sets
    of [n > 0] elements with [element_dim] channels each, all sizes positive,
    [forward] returns one row per set, of [encoding_dim] entries, none of them
    negative; [output_dim] plays no part. *)
Theorem DeepSet_forward_shape_nonneg (element_dim encoding_dim : nat)
        (encoder_hidden : list nat) (output_dim : nat) (g g' : rng)
        (m : DeepSet.t) (x : tensor3) (n : nat) :
  DeepSet.init element_dim encoding_dim encoder_hidden output_dim g
  = (m, g') ->
  (0 < element_dim)%nat -> positive encoder_hidden ->
  (0 < encoding_dim)%nat ->
  (0 < n)%nat -> x <> [] -> shape3 element_dim n x ->
  exists y,
    DeepSet.forward m x = Ok y
    /\ length y = length x
    /\ width encoding_dim y
    /\ entries (fun v => 0 <= v) y.
Proof.
  intros H He Hh Henc Hn Hne Hx. unfold DeepSet.init in H.
  destruct (DeepSet.build _ _ _ g) as [s g1] eqn:Hb.
  injection H as <- _.
  apply (build_chain _ (encoder_hidden ++ [encoding_dim])) in Hb.
  - destruct Hb as [Hb Hs'].
    rewrite app_comm_cons, last_last in Hb.
    assert (Hs'' : s <> [])
      by (apply Hs'; destruct encoder_hidden; discriminate).
    destruct (encode_chain n s element_dim encoding_dim Hb x He Hne Hx)
      as [y [Hy [Hl [Hs Hnn]]]].
    unfold DeepSet.forward. cbn [DeepSet.encoder]. rewrite Hy. cbn [bind].
    exists (DeepSet.aggregator y). unfold DeepSet.aggregator.
    specialize (Hnn Hs''). repeat split.
    + rewrite length_map. exact Hl.
    + unfold width. apply Forall_map. revert Hs. apply Forall_impl.
      intros xb [Hc _]. rewrite length_map. exact Hc.
    + unfold entries. apply Forall_map.
      unfold shape3 in Hs. rewrite Forall_forall in Hs, Hnn.
      apply Forall_forall. intros xb Hin.
      destruct (Hs xb Hin) as [_ Hw]. specialize (Hnn xb Hin).
      apply Forall_map. unfold entries in Hnn. unfold width in Hw.
      rewrite Forall_forall in Hw, Hnn. apply Forall_forall. intros r Hr.
      apply mean_nonneg; [rewrite (Hw r Hr); exact Hn | exact (Hnn r Hr)].
  - apply positive_app. split; [exact Hh|].
    constructor; [lia | constructor].
  - simpl. lia.
Qed.

Lemma DeepSet_forward_shape_nonneg_witness :
  exists (m : DeepSet.t) (g' : rng),
    DeepSet.init 2 1 [3%nat] 128 (fun _ => -1) = (m, g')
    /\ exists y,
         DeepSet.forward m [[[1; 2; 3]; [4; 5; 6]]] = Ok y
         /\ length y = 1%nat
         /\ width 1 y
         /\ entries (fun v => 0 <= v) y.
Proof.
  eexists; eexists. split; [reflexivity|].
  eapply (DeepSet_forward_shape_nonneg 2 1 [3%nat] 128 (fun _ => -1) _ _
            [[[1; 2; 3]; [4; 5; 6]]] 3).
  - reflexivity.
  - lia.
  - unfold positive. repeat constructor. discriminate.
  - lia.
  - lia.
  - discriminate.
  - unfold shape3, width. repeat constructor.
Defined.

(** X18: [forward] of a built [DeepSet] raises [RuntimeError] on every batch
    whose first set has another number of channels than [element_dim]: the
    first module of the encoder is the convolution on [element_dim]
    channels. *)
Theorem DeepSet_forward_wrong_channels_raises (element_dim encoding_dim : nat)
        (encoder_hidden : list nat) (output_dim : nat) (g g' : rng)
        (m : DeepSet.t) (xb : mat) (x : tensor3) :
  DeepSet.init element_dim encoding_dim encoder_hidden output_dim g
  = (m, g') ->
  length xb <> element_dim ->
  DeepSet.forward m (xb :: x) = Raise RuntimeError.
Proof.
  intros H Hl. unfold DeepSet.init in H.
  change (MLP.pairs (element_dim :: encoder_hidden ++ [encoding_dim]))
    with (combine (element_dim :: encoder_hidden ++ [encoding_dim])
                  (encoder_hidden ++ [encoding_dim])) in H.
  destruct (encoder_hidden ++ [encoding_dim]) as [|b rest] eqn:E;
    [destruct encoder_hidden; discriminate E|].
  cbn [combine] in H. rewrite build_cons in H.
  pose proof (Conv1d_init_dims element_dim b g) as [Hc _].
  destruct (Conv1d.init element_dim b g) as [c g1]. cbn [fst] in Hc.
  destruct (DeepSet.build _ _ _ g1) as [s g2].
  injection H as <- _.
  unfold DeepSet.forward. cbn [DeepSet.encoder app DeepSet.encode
                                DeepSet.enc_forward].
  unfold Conv1d.forward. cbn [mapM]. unfold Conv1d.forward_item at 1.
  rewrite Hc. apply Nat.eqb_neq in Hl. rewrite Hl. reflexivity.
Qed.

Lemma DeepSet_forward_wrong_channels_raises_witness :
  exists (m : DeepSet.t) (g' : rng),
    DeepSet.init 2 1 [3%nat] 128 (fun _ => 0) = (m, g')
    /\ DeepSet.forward m [[[1; 2; 3]]] = Raise RuntimeError.
Proof.
  eexists; eexists. split; [reflexivity|].
  eapply (DeepSet_forward_wrong_channels_raises 2 1 [3%nat] 128 (fun _ => 0)).
  - reflexivity.
  - simpl. lia.
Defined.

(** ** [TwinValueFunction]: construction and shapes *)

Lemma WLinear_init_Ok (i o : nat) (g : rng) :
  exists w g', WLinear.init i (S o) 100 g = Ok (w, g').
Proof.
  unfold WLinear.init.
  destruct (normal_ 100 0 (1 / INR (S o)) g) as [z0 g1].
  destruct (Linear.init 100 (i * S o + S o) g1) as [l g2].
  eexists; eexists; reflexivity.
Qed.

Lemma WLinear_init_dims (i o : nat) (g g' : rng) (w : WLinear.t) :
  WLinear.init i o 100 g = Ok (w, g') -> (0 < i)%nat ->
  layer_dims (L_WLinear w) i o.
Proof.
  intros H Hi. apply (make_dims MLP.K_WLinear i o g g');
    [discriminate | exact Hi|].
  unfold MLP.make. rewrite H. reflexivity.
Qed.

Lemma WLinear_init_positive (i o : nat) (g g' : rng) (w : WLinear.t) :
  WLinear.init i o 100 g = Ok (w, g') -> (0 < o)%nat.
Proof. destruct o; [discriminate | lia]. Qed.

Lemma chain_app (s1 s2 : list layer) (mid o : nat) :
  forall i : nat, chain s1 i mid -> chain s2 mid o -> chain (s1 ++ s2) i o.
Proof.
  induction s1 as [|l s1 IH]; intros i H1 H2; simpl in *.
  - subst. exact H2.
  - destruct H1 as [m [Hl H1]]. exists m. split; [exact Hl|].
    apply IH; assumption.
Qed.

Lemma hidden_layers_Ok (n hidden_dim : nat) :
  forall g : rng,
    exists ls g',
      TwinValueFunction.hidden_layers n (S hidden_dim) g = Ok (ls, g').
Proof.
  induction n as [|n IH]; intros g; cbn [TwinValueFunction.hidden_layers].
  - eexists; eexists; reflexivity.
  - destruct (WLinear_init_Ok (S hidden_dim) hidden_dim g) as [w [g1 Hw]].
    rewrite Hw. cbn [bind]. destruct (IH g1) as [ls [g2 Hl]].
    rewrite Hl. cbn [bind]. eexists; eexists; reflexivity.
Qed.

Lemma hidden_layers_chain (n hidden_dim : nat) :
  forall (g g' : rng) (ls : list layer),
    (0 < hidden_dim)%nat ->
    TwinValueFunction.hidden_layers n hidden_dim g = Ok (ls, g') ->
    chain ls hidden_dim hidden_dim
    /\ map kind_of ls = concat (repeat [Some MLP.K_WLinear; None] n).
Proof.
  induction n as [|n IH]; intros g g' ls Hh;
    cbn [TwinValueFunction.hidden_layers].
  - intros H; injection H as <- _. split; reflexivity.
  - destruct (WLinear.init hidden_dim hidden_dim 100 g) as [[w g1]|e] eqn:Hw;
      [|discriminate].
    cbn [bind].
    destruct (TwinValueFunction.hidden_layers n hidden_dim g1)
      as [[ls' g2]|e] eqn:Hl; [|discriminate].
    cbn [bind]. intros H; injection H as <- _.
    destruct (IH g1 g2 ls' Hh Hl) as [IH1 IH2]. split.
    + simpl. exists hidden_dim. split.
      * exact (WLinear_init_dims _ _ _ _ _ Hw Hh).
      * exists hidden_dim. split; [reflexivity | exact IH1].
    + simpl. rewrite IH2. reflexivity.
Qed.

Lemma get_model_layers_zero (observation_dim action_dim depth : nat)
      (g : rng) :
  TwinValueFunction.get_model_layers observation_dim action_dim 0 depth g
  = Raise ZeroDivisionError.
Proof. reflexivity. Qed.

Lemma get_model_layers_Ok (observation_dim action_dim hidden_dim depth : nat)
      (g : rng) :
  exists ls g',
    TwinValueFunction.get_model_layers observation_dim action_dim
                                       (S hidden_dim) depth g
    = Ok (ls, g')
    /\ map kind_of ls = twin_kinds depth.
Proof.
  unfold TwinValueFunction.get_model_layers.
  destruct (WLinear_init_Ok (observation_dim + action_dim) hidden_dim g)
    as [w0 [g1 H0]].
  rewrite H0. cbn [bind].
  destruct (hidden_layers_Ok (depth - 2) hidden_dim g1) as [hs [g2 Hh]].
  rewrite Hh. cbn [bind].
  destruct (WLinear_init_Ok (S hidden_dim) 0 g2) as [w1 [g3 H1]].
  rewrite H1. cbn [bind]. eexists; eexists. split; [reflexivity|].
  apply hidden_layers_chain in Hh; [|lia]. destruct Hh as [_ Hk].
  unfold twin_kinds. simpl. rewrite map_app, Hk. reflexivity.
Qed.

Lemma get_model_layers_chain (observation_dim action_dim hidden_dim depth : nat)
      (g g' : rng) (ls : list layer) :
  (0 < observation_dim + action_dim)%nat ->
  TwinValueFunction.get_model_layers observation_dim action_dim hidden_dim
                                     depth g
  = Ok (ls, g') ->
  chain ls (observation_dim + action_dim) 1.
Proof.
  intros Hi. unfold TwinValueFunction.get_model_layers.
  destruct (WLinear.init (observation_dim + action_dim) hidden_dim 100 g)
    as [[w0 g1]|e] eqn:H0; [|discriminate].
  cbn [bind].
  destruct (TwinValueFunction.hidden_layers (depth - 2) hidden_dim g1)
    as [[hs g2]|e] eqn:Hh; [|discriminate].
  cbn [bind].
  destruct (WLinear.init hidden_dim 1 100 g2) as [[w1 g3]|e] eqn:H1;
    [|discriminate].
  cbn [bind]. intros H; injection H as <- _.
  pose proof (WLinear_init_positive _ _ _ _ _ H0) as Hh0.
  apply (hidden_layers_chain _ _ _ _ _ Hh0) in Hh. destruct Hh as [Hc _].
  simpl. exists hidden_dim. split.
  - exact (WLinear_init_dims _ _ _ _ _ H0 Hi).
  - exists hidden_dim. split; [reflexivity|].
    apply (chain_app hs _ hidden_dim 1 hidden_dim Hc).
    simpl. exists 1%nat. split; [|reflexivity].
    exact (WLinear_init_dims _ _ _ _ _ H1 Hh0).
Qed.

(** X19: [TwinValueFunction.__init__] raises [ZeroDivisionError] when
    [hidden_dim] is 0 (the latent vector of a [WLinear] is drawn with the
    standard deviation [1 / out_features]) and builds the model for every
    other [hidden_dim].  Each of the two stacks is then a [WLinear] and a
    [ReLU], [depth - 2] more such pairs, and a last [WLinear]; a [depth] below
    2 gives the stacks of [depth = 2]. *)
Theorem TwinValueFunction_init_builds_iff (observation_dim action_dim
        hidden_dim depth : nat) (g : rng) :
  (hidden_dim = 0%nat ->
   TwinValueFunction.init observation_dim action_dim hidden_dim depth g
   = Raise ZeroDivisionError)
  /\ (hidden_dim <> 0%nat ->
      exists m g',
        TwinValueFunction.init observation_dim action_dim hidden_dim depth g
        = Ok (m, g')
        /\ TwinValueFunction.obs_dim m = observation_dim
        /\ TwinValueFunction.act_dim m = action_dim
        /\ map kind_of (TwinValueFunction.f1 m) = twin_kinds depth
        /\ map kind_of (TwinValueFunction.f2 m) = twin_kinds depth
        /\ twin_kinds depth = twin_kinds (Nat.max depth 2)).
Proof.
  split.
  - intros ->. reflexivity.
  - intros Hh. destruct hidden_dim as [|h]; [contradiction|].
    unfold TwinValueFunction.init.
    destruct (get_model_layers_Ok observation_dim action_dim h depth g)
      as [l1 [g1 [H1 K1]]].
    rewrite H1. cbn [bind].
    destruct (get_model_layers_Ok observation_dim action_dim h depth g1)
      as [l2 [g2 [H2 K2]]].
    rewrite H2. cbn [bind]. eexists; eexists.
    split; [reflexivity|]. cbn. repeat split; try assumption.
    unfold twin_kinds.
    replace (Nat.max depth 2 - 2)%nat with (depth - 2)%nat by lia.
    reflexivity.
Qed.

(** X20: a built [TwinValueFunction] maps a batch with rows of
    [observation_dim + action_dim] entries (a positive number) through both
    stacks to two tensors of one column and as many rows; with [return_min]
    it returns their entry-wise minimum. *)
Theorem TwinValueFunction_forward_shape (observation_dim action_dim
        hidden_dim depth : nat) (g g' : rng) (m : TwinValueFunction.t)
        (x : mat) :
  TwinValueFunction.init observation_dim action_dim hidden_dim depth g
  = Ok (m, g') ->
  (0 < observation_dim + action_dim)%nat ->
  x <> [] ->
  width (observation_dim + action_dim) x ->
  exists x1 x2,
    TwinValueFunction.forward m x false = Ok (TwinValueFunction.Both x1 x2)
    /\ length x1 = length x /\ width 1 x1
    /\ length x2 = length x /\ width 1 x2
    /\ TwinValueFunction.forward m x true
       = Ok (TwinValueFunction.Min (zipWith (zipWith Rmin) x1 x2)).
Proof.
  intros H Hi Hne Hx. unfold TwinValueFunction.init in H.
  destruct (TwinValueFunction.get_model_layers _ _ _ _ g)
    as [[l1 g1]|e] eqn:H1; [|discriminate].
  cbn [bind] in H.
  destruct (TwinValueFunction.get_model_layers _ _ _ _ g1)
    as [[l2 g2]|e] eqn:H2; [|discriminate].
  cbn [bind] in H. injection H as <- _.
  apply (get_model_layers_chain _ _ _ _ _ _ _ Hi) in H1, H2.
  destruct (Sequential_dims l1 _ _ x H1 Hne Hx) as [x1 [Hx1 [L1 W1]]].
  destruct (Sequential_dims l2 _ _ x H2 Hne Hx) as [x2 [Hx2 [L2 W2]]].
  exists x1, x2. unfold TwinValueFunction.forward.
  cbn [TwinValueFunction.f1 TwinValueFunction.f2]. rewrite Hx1, Hx2.
  cbn [bind]. repeat split; try assumption.
  rewrite bmat_same_shape; [reflexivity|].
  apply (uniform_same_shape 1); [congruence | assumption | assumption].
Qed.

Lemma TwinValueFunction_forward_shape_witness :
  exists (m : TwinValueFunction.t) (g' : rng),
    TwinValueFunction.init 1 1 1 2 (fun _ => 0) = Ok (m, g')
    /\ exists x1 x2,
         TwinValueFunction.forward m [[1; 2]] false
         = Ok (TwinValueFunction.Both x1 x2)
         /\ length x1 = 1%nat /\ width 1 x1
         /\ length x2 = 1%nat /\ width 1 x2
         /\ TwinValueFunction.forward m [[1; 2]] true
            = Ok (TwinValueFunction.Min (zipWith (zipWith Rmin) x1 x2)).
Proof.
  eexists; eexists. split; [reflexivity|].
  eapply (TwinValueFunction_forward_shape 1 1 1 2 (fun _ => 0)).
  - reflexivity.
  - lia.
  - discriminate.
  - unfold width. repeat constructor.
Defined.

(** ** [MLP.forward] with a head: the trunk, the last layer and the head *)

Lemma build_seq_nonempty (k : MLP.kind) (n idx i o : nat)
      (ws : list (nat * nat)) (g g' : rng) (s : list (MLP.mname * layer))
      (aps : list MLP.param) :
  MLP.build_seq k n idx ((i, o) :: ws) g = Ok (s, aps, g') -> s <> [].
Proof.
  rewrite build_seq_cons.
  destruct (MLP.make k i o g) as [[w g1]|e]; [|discriminate]. cbn [bind].
  destruct (layer_adaptation_parameters w) as [ap|e]; [|discriminate].
  cbn [bind].
  destruct (MLP.build_seq k n (S idx) ws g1) as [[[s' aps'] g2]|e];
    [|discriminate].
  cbn [bind]. intros H; injection H as <- _ _. discriminate.
Qed.

(** [seq[:-2]] and [seq[-2:]] of a built stack: the first runs from the input
    width to the last hidden width [p] (the input width itself when there is
    one layer only) and ends before the last [ReLU]; the second is that
    [ReLU] and the last layer. *)
Lemma build_seq_split (k : MLP.kind) (n : nat) (rest : list nat) :
  k <> MLP.K_Linear ->
  forall (a idx : nat) (g g' : rng) (s : list (MLP.mname * layer))
         (aps : list MLP.param),
    (0 < a)%nat -> rest <> [] ->
    n = (idx + length rest + 1)%nat ->
    MLP.build_seq k n idx (MLP.pairs (a :: rest)) g = Ok (s, aps, g') ->
    let p := last (removelast (a :: rest)) 0%nat in
    chain (map snd (firstn (length s - 2) s)) a p
    /\ chain (map snd (skipn (length s - 2) s)) p (last (a :: rest) 0%nat)
    /\ (0 < p)%nat.
Proof.
  intros Hk. induction rest as [|b rest IH];
    intros a idx g g' s aps Ha Hne Hn; [contradiction|].
  rewrite pairs_cons2, build_seq_cons.
  destruct (MLP.make k a b g) as [[w g1]|e] eqn:Hm; [|discriminate].
  cbn [bind].
  destruct (layer_adaptation_parameters w) as [ap|e]; [|discriminate].
  cbn [bind].
  destruct (MLP.build_seq k n (S idx) (MLP.pairs (b :: rest)) g1)
    as [[[s' aps'] g2]|e] eqn:Hb; [|discriminate].
  cbn [bind]. intros H; injection H as <- _ _.
  pose proof (make_Ok_positive k a b g g1 w Hk Hm) as Hb0.
  pose proof (make_dims k a b g g1 w Hk Ha Hm) as Hd.
  destruct rest as [|c rest].
  - (* one layer left *)
    simpl in Hb. injection Hb as <- _ _.
    assert (E : (idx <? n - 2)%nat = false)
      by (apply Nat.ltb_ge; simpl in Hn; lia).
    rewrite E. simpl. repeat split; [|exact Ha].
    exists b. split; [exact Hd | reflexivity].
  - assert (E : (idx <? n - 2)%nat = true)
      by (apply Nat.ltb_lt; simpl in Hn; lia).
    rewrite E.
    assert (Hs' : s' <> []).
    { rewrite pairs_cons2 in Hb. exact (build_seq_nonempty _ _ _ _ _ _ _ _ _ _ Hb). }
    destruct (IH b (S idx) g1 g2 s' aps' Hb0 ltac:(discriminate)
                 ltac:(simpl in Hn |- *; lia) Hb) as [I1 [I2 I3]].
    change (last (removelast (a :: b :: c :: rest)) 0%nat)
      with (last (removelast (b :: c :: rest)) 0%nat).
    change (last (a :: b :: c :: rest) 0%nat)
      with (last (b :: c :: rest) 0%nat).
    cbv zeta in I1, I2, I3 |- *.
    set (p := last (removelast (b :: c :: rest)) 0%nat) in *.
    cbn [app length].
    destruct s' as [|x1 [|x2 s'']]; [contradiction| |].
    + cbn [length Nat.sub firstn skipn map snd] in *.
      split; [|split; [|exact I3]].
      * exists b. split; [exact Hd | exact I1].
      * exists p. split; [reflexivity | exact I2].
    + cbn [length Nat.sub firstn skipn map snd] in *.
      rewrite Nat.sub_0_r in I1, I2.
      split; [|split; [exact I2 | exact I3]].
      exists b. split; [exact Hd|]. exists b. split; [reflexivity | exact I1].
Qed.

Lemma cat_dims (p q : nat) (a b : mat) :
  length a = length b -> width p a -> width q b ->
  exists c, cat a b = Ok c /\ length c = length a /\ width (p + q) c.
Proof.
  intros Hl Ha Hb. unfold cat.
  assert (E : (length a =? length b)%nat = true)
    by (apply Nat.eqb_eq; exact Hl).
  rewrite E. eexists. split; [reflexivity|]. split.
  - apply length_zipWith. exact Hl.
  - clear Hl E. revert b Hb. unfold width in *.
    induction Ha as [|r a Hr _ IH]; intros b Hb; [constructor|].
    destruct Hb as [|r' b Hr' Hb]; simpl; constructor.
    + rewrite length_app. congruence.
    + apply IH, Hb.
Qed.

Lemma last_cons_default {A : Type} (l : list A) :
  forall a d : A, last (a :: l) d = last l a.
Proof.
  induction l as [|b l IH]; intros a d; [reflexivity|].
  change (last (a :: b :: l) d) with (last (b :: l) d).
  rewrite (IH b d), (IH b a). reflexivity.
Qed.

Lemma removelast_built_widths (layer_widths : list nat) (deterministic : bool) :
  layer_widths <> [] ->
  removelast (built_widths layer_widths deterministic)
  = removelast layer_widths.
Proof.
  intros H. unfold built_widths, MLP.double_last.
  destruct deterministic; simpl; [reflexivity|]. apply removelast_last.
Qed.

Lemma nonempty_of_length (x y : mat) : length y = length x -> x <> [] -> y <> [].
Proof. destruct x, y; simpl; intros; try congruence; discriminate. Qed.

(** The three stacks of a network built with a head: [seq[:-2]], [seq[-2:]]
    and the head, with the widths between which each runs. *)
Lemma init_head_chains (layer_widths : list nat) (fa : mat -> mat)
      (bias_linear : bool) (e : list nat) (w_linear deterministic : bool)
      (g g' : rng) (m : MLP.t) :
  MLP.init layer_widths fa bias_linear (Some e) w_linear deterministic g
  = Ok (m, g') ->
  bias_linear = true \/ w_linear = true ->
  (0 < hd 0 layer_widths)%nat ->
  let p := last (removelast layer_widths) 0%nat in
  MLP._head m = true
  /\ MLP._final_activation m = fa
  /\ MLP.deterministic m = deterministic
  /\ (0 < p)%nat
  /\ chain (map snd (MLP.pre_seq m)) (hd 0%nat layer_widths) p
  /\ chain (map snd (MLP.post_seq m)) p
           ((if deterministic then 1 else 2) * last layer_widths 0)%nat
  /\ chain (map snd (MLP.head_seq m)) (p + last layer_widths 0)%nat
           (last e (p + last layer_widths 0)%nat).
Proof.
  intros H Hk Ha.
  pose proof (linear_adaptable _ _ Hk) as Hk'.
  apply init_Ok_inv in H. destruct H as [Hlen H]. cbv zeta in H.
  destruct H as [s [aps [g1 [Hb [h [haps [Hh ->]]]]]]].
  destruct layer_widths as [|a rest]; [simpl in Hlen; lia|].
  assert (Hr : rest <> []) by (intros ->; simpl in Hlen; lia).
  pose proof (removelast_built_widths (a :: rest) deterministic
                                      ltac:(discriminate)) as Hrl.
  destruct (built_widths_cons a rest deterministic Hr) as [rest' [Hbw Hlast]].
  unfold built_widths in Hbw, Hrl. rewrite Hbw in Hb, Hrl.
  simpl hd in *.
  assert (Hr' : rest' <> []).
  { intros ->. destruct rest; [contradiction|]. simpl in Hrl.
    destruct rest; discriminate Hrl. }
  apply (build_seq_split _ _ _ Hk' a 0%nat g g1 s aps Ha Hr') in Hb;
    [|simpl; lia].
  cbv zeta in Hb |- *. rewrite Hrl, Hlast in Hb. destruct Hb as [Hpre [Hpost Hp]].
  set (p := last (removelast (a :: rest)) 0%nat) in *.
  apply (build_head_chain _ _ Hk' (p + last (a :: rest) 0)%nat 0%nat g1 g' h
                          haps ltac:(lia)) in Hh.
  rewrite (last_cons_default e) in Hh.
  unfold MLP.pre_seq, MLP.post_seq. cbn [MLP._head MLP._final_activation
    MLP.deterministic MLP.seq MLP.head_seq].
  repeat split; assumption.
Qed.

(** X21: on a network built with a head on an adaptable primitive, [forward]
    with [acts] succeeds on every batch [x] with rows of [layer_widths[0]]
    entries and [acts] of as many rows with [layer_widths[-1]] entries.  The
    head reads the output of [seq[:-2]] (the stack before its last [ReLU] and
    layer; [x] itself when the stack has one layer) next to [acts], and its
    output has one row per input row, of the last head width (of the width of
    its input when [extra_head_layers] is empty).  The primary output is the
    output of the whole stack after the final activation and the clamp. *)
Theorem MLP_forward_head_shape (layer_widths : list nat) (fa : mat -> mat)
        (bias_linear : bool) (e : list nat) (w_linear deterministic : bool)
        (g g' : rng) (m : MLP.t) (x acts : mat) :
  MLP.init layer_widths fa bias_linear (Some e) w_linear deterministic g
  = Ok (m, g') ->
  bias_linear = true \/ w_linear = true ->
  (0 < hd 0 layer_widths)%nat ->
  x <> [] ->
  width (hd 0%nat layer_widths) x ->
  length acts = length x ->
  width (last layer_widths 0%nat) acts ->
  exists y head_output,
    MLP.run (MLP.seq m) x = Ok y
    /\ MLP.forward m x (Some acts)
       = Ok (MLP.WithHead
               (let out := clamp LOG_VAR_MIN LOG_VAR_MAX (fa y) in
                if deterministic then MLP.Point out
                else MLP.Gauss (left_half out) (half_exp (right_half out)))
               head_output)
    /\ length head_output = length x
    /\ width (last e (last (removelast layer_widths) 0
                      + last layer_widths 0)%nat) head_output.
Proof.
  intros H Hk Ha Hne Hx Hal Haw.
  destruct (init_head_chains _ _ _ _ _ _ _ _ _ H Hk Ha)
    as [Hhead [Hfa [Hdet [Hp [Hpre [Hpost Hh]]]]]].
  set (p := last (removelast layer_widths) 0%nat) in *.
  destruct (Sequential_dims _ _ _ x Hpre Hne Hx) as [hx [Hhx [Lh Wh]]].
  pose proof (nonempty_of_length x hx Lh Hne) as Hhne.
  destruct (Sequential_dims _ _ _ hx Hpost Hhne Wh) as [y [Hy [Ly Wy]]].
  destruct (cat_dims p (last layer_widths 0%nat) hx acts
                     ltac:(congruence) Wh Haw) as [hi [Hhi [Lhi Whi]]].
  assert (Hine : hi <> []).
  { apply (nonempty_of_length x); [congruence | exact Hne]. }
  destruct (Sequential_dims _ _ _ hi Hh Hine Whi) as [ho [Hho [Lho Who]]].
  exists y, ho. split; [|split; [|split]].
  - rewrite run_pre_post. unfold MLP.run. rewrite Hhx. cbn [bind]. exact Hy.
  - unfold MLP.forward, MLP.run. rewrite Hhead, Hfa, Hdet.
    rewrite Hhx. cbn [bind]. rewrite Hhi. cbn [bind]. rewrite Hy. cbn [bind].
    rewrite Hho. cbn [bind]. destruct deterministic; reflexivity.
  - congruence.
  - exact Who.
Qed.

Lemma MLP_forward_head_shape_witness :
  exists (m : MLP.t) (g' : rng),
    MLP.init [2; 3; 1]%nat (fun x => x) true (Some [4%nat]) false false
             (fun _ => 0)
    = Ok (m, g')
    /\ exists y head_output,
         MLP.run (MLP.seq m) [[1; 2]] = Ok y
         /\ MLP.forward m [[1; 2]] (Some [[5]])
            = Ok (MLP.WithHead
                    (let out := clamp LOG_VAR_MIN LOG_VAR_MAX y in
                     MLP.Gauss (left_half out) (half_exp (right_half out)))
                    head_output)
         /\ length head_output = 1%nat
         /\ width 4 head_output.
Proof.
  eexists; eexists. split; [reflexivity|].
  eapply (MLP_forward_head_shape
            [2; 3; 1]%nat (fun x => x) true [4%nat] false false (fun _ => 0)).
  - reflexivity.
  - left. reflexivity.
  - simpl. lia.
  - discriminate.
  - unfold width. repeat constructor.
  - reflexivity.
  - unfold width. repeat constructor.
Defined.

(** X22: on a network built with a head, [forward] raises [RuntimeError]
    whenever [acts] has another number of rows than a batch [x] that fits the
    stack: the output of [seq[:-2]] has one row per row of [x], and its
    concatenation with [acts] fails. *)
Theorem MLP_forward_head_rows_mismatch_raises (layer_widths : list nat)
        (fa : mat -> mat) (bias_linear : bool) (e : list nat)
        (w_linear deterministic : bool) (g g' : rng) (m : MLP.t)
        (x acts : mat) :
  MLP.init layer_widths fa bias_linear (Some e) w_linear deterministic g
  = Ok (m, g') ->
  bias_linear = true \/ w_linear = true ->
  (0 < hd 0 layer_widths)%nat ->
  x <> [] ->
  width (hd 0%nat layer_widths) x ->
  length acts <> length x ->
  MLP.forward m x (Some acts) = Raise RuntimeError.
Proof.
  intros H Hk Ha Hne Hx Hal.
  destruct (init_head_chains _ _ _ _ _ _ _ _ _ H Hk Ha)
    as [Hhead [_ [_ [_ [Hpre _]]]]].
  destruct (Sequential_dims _ _ _ x Hpre Hne Hx) as [hx [Hhx [Lh _]]].
  unfold MLP.forward, MLP.run. rewrite Hhead, Hhx. cbn [bind].
  unfold cat.
  assert (E : (length hx =? length acts)%nat = false)
    by (apply Nat.eqb_neq; congruence).
  rewrite E. reflexivity.
Qed.

Lemma MLP_forward_head_rows_mismatch_raises_witness :
  exists (m : MLP.t) (g' : rng),
    MLP.init [2; 3; 1]%nat (fun x => x) true (Some [4%nat]) false true
             (fun _ => 0)
    = Ok (m, g')
    /\ MLP.forward m [[1; 2]] (Some [[5]; [6]]) = Raise RuntimeError.
Proof.
  eexists; eexists. split; [reflexivity|].
  eapply (MLP_forward_head_rows_mismatch_raises
            [2; 3; 1]%nat (fun x => x) true [4%nat] false true (fun _ => 0)).
  - reflexivity.
  - left. reflexivity.
  - simpl. lia.
  - discriminate.
  - unfold width. repeat constructor.
  - simpl. lia.
Defined.

(** ** [WLinear.forward] does not compare the input width with
    [in_features] *)

Lemma bvec_scalar (f : R -> R -> R) (r b : vec) :
  length b = 1%nat ->
  exists v, bvec f r b = Ok v /\ length v = length r.
Proof.
  intros Hb. destruct b as [|b0 [|b1 b]]; try discriminate Hb.
  unfold bvec. destruct (length r =? length [b0])%nat eqn:E.
  - apply Nat.eqb_eq in E. eexists. split; [reflexivity|].
    apply length_zipWith. exact E.
  - destruct r as [|a [|a' r]].
    + eexists. split; reflexivity.
    + discriminate E.
    + eexists. split; [reflexivity|]. apply length_map.
Qed.

Lemma add_vec_scalar (y : mat) (b : vec) (c : nat) :
  width c y -> length b = 1%nat ->
  exists y', add_vec y b = Ok y' /\ length y' = length y /\ width c y'.
Proof.
  intros Hy Hb. unfold add_vec. apply mapM_total. intros r Hr.
  destruct (bvec_scalar Rplus r b Hb) as [v [Hv Hl]].
  exists v. split; [exact Hv|]. rewrite Hl. exact (width_In c y r Hy Hr).
Qed.

(** X23: [WLinear.forward] shapes the generated weight by the width of its
    input ([view(x.shape[-1], -1)]) and never looks at [in_features].  So a
    [WLinear(i, 1)], the last layer of each stack of a [TwinValueFunction],
    accepts rows of every length [i'] that divides [i], and returns [i / i']
    columns (the single bias is broadcast) where one column is meant. *)
Theorem WLinear_forward_unchecked_width (i dim i' c : nat) (g g' : rng)
        (w : WLinear.t) (x : mat) :
  WLinear.init i 1 dim g = Ok (w, g') ->
  (0 < i')%nat -> (0 < c)%nat -> i = (i' * c)%nat ->
  x <> [] -> width i' x ->
  exists y, WLinear.forward w x = Ok y /\ length y = length x /\ width c y.
Proof.
  intros H Hi Hc Hic Hne Hx. unfold WLinear.init in H.
  pose proof (length_normal_ dim 0 (1 / INR 1) g) as Hz.
  destruct (normal_ dim 0 (1 / INR 1) g) as [z0 g1]. cbn [fst] in Hz.
  pose proof (Linear_init_dims dim (i * 1 + 1) g1) as Hl.
  destruct (Linear.init dim (i * 1 + 1) g1) as [l g2]. cbn [fst] in Hl.
  injection H as <- _. unfold WLinear.forward.
  cbn [WLinear.fc WLinear.z WLinear.w_idx].
  destruct (Linear_forward1_dims l dim (i * 1 + 1) z0 Hl Hz)
    as [theta [Ht Htl]].
  rewrite Ht. cbn [bind]. rewrite (last_dim_width i' x Hne Hx).
  destruct (view_dims (firstn (i * 1) theta) i' c Hi) as [wm [Hv [Hwl Hww]]].
  { rewrite length_firstn, Htl. lia. }
  rewrite Hv. cbn [bind].
  assert (Hwne : wm <> []) by (apply length_pos_nonempty; lia).
  rewrite (last_dim_width c wm Hwne Hww).
  assert (Hmm : exists y, matmul x wm c = Ok y /\ length y = length x
                          /\ width c y).
  { unfold matmul. apply mapM_total. intros r Hr.
    apply vecmat_dims; [|exact Hww].
    rewrite (width_In i' x r Hx Hr). congruence. }
  destruct Hmm as [y [Hy [Hlen Hwy]]]. rewrite Hy. cbn [bind].
  destruct (add_vec_scalar y (skipn (i * 1) theta) c Hwy)
    as [y' [Hy' [Hlen' Hw']]].
  { rewrite length_skipn, Htl. lia. }
  exists y'. repeat split; [exact Hy' | congruence | exact Hw'].
Qed.

Lemma WLinear_forward_unchecked_width_witness :
  exists (w : WLinear.t) (g' : rng),
    WLinear.init 4 1 3 (fun _ => 0) = Ok (w, g')
    /\ exists y,
         WLinear.forward w [[1; 2]] = Ok y
         /\ length y = 1%nat /\ width 2 y.
Proof.
  eexists; eexists. split; [reflexivity|].
  eapply (WLinear_forward_unchecked_width 4 3 2 2 (fun _ => 0)).
  - reflexivity.
  - lia.
  - lia.
  - reflexivity.
  - discriminate.
  - unfold width. repeat constructor.
Defined.

(** ** [WLinearMix]: construction, shapes and the bound of the output *)

Lemma init_m_dims (n dim : nat) :
  forall g : rng,
    length (fst (WLinearMix.init_m n dim g)) = n
    /\ Forall (fun l => Linear_dims l dim dim)
              (fst (WLinearMix.init_m n dim g)).
Proof.
  induction n as [|n IH]; intros g; cbn [WLinearMix.init_m].
  - split; constructor.
  - pose proof (Linear_init_dims dim dim g) as Hl.
    destruct (Linear.init dim dim g) as [l g1]. cbn [fst] in Hl.
    destruct (IH g1) as [I1 I2].
    destruct (WLinearMix.init_m n dim g1) as [ls g2]. cbn [fst] in *.
    split; [simpl; lia | constructor; assumption].
Qed.

Lemma hidden_dims (dim : nat) (ms : list Linear.t) :
  Forall (fun l => Linear_dims l dim dim) ms ->
  forall theta : vec,
    length theta = dim ->
    exists t, WLinearMix.hidden ms theta = Ok t /\ length t = dim.
Proof.
  induction 1 as [|l ms Hl _ IH]; intros theta Ht; cbn [WLinearMix.hidden].
  - exists theta. split; [reflexivity | exact Ht].
  - destruct (Linear_forward1_dims l dim dim theta Hl Ht) as [t [H1 H2]].
    rewrite H1. cbn [bind]. apply IH. rewrite length_map. exact H2.
Qed.

Lemma tanh_bound (v : R) : Rabs (tanh v) <= 1.
Proof.
  unfold tanh, sinh, cosh.
  pose proof (exp_pos v) as Ha. pose proof (exp_pos (- v)) as Hb.
  set (a := exp v) in *. set (b := exp (- v)) in *.
  assert (Hd : 0 < (a + b) / 2) by lra.
  assert (E : (a - b) / 2 / ((a + b) / 2) * ((a + b) / 2) = (a - b) / 2)
    by (field; lra).
  apply Rabs_le. split;
    apply (Rmult_le_reg_r ((a + b) / 2)); try exact Hd; rewrite E; lra.
Qed.

Lemma chunks_entries (P : R -> Prop) (n c : nat) :
  forall t : vec, Forall P t -> Forall (Forall P) (chunks n c t).
Proof.
  induction n as [|n IH]; intros t Ht; simpl; constructor.
  - apply Forall_firstn, Ht.
  - apply IH, Forall_skipn, Ht.
Qed.

Lemma length_concat_width (c : nat) (t : mat) :
  width c t -> length (concat t) = (length t * c)%nat.
Proof.
  unfold width. induction 1 as [|r t Hr _ IH]; simpl; [reflexivity|].
  rewrite length_app, IH, Hr. reflexivity.
Qed.

Lemma view_cols_dims (t : vec) (r c : nat) :
  (0 < c)%nat -> length t = (r * c)%nat ->
  exists w, view_cols t c = Ok w /\ length w = r /\ width c w.
Proof.
  intros Hc Ht. unfold view_cols. destruct c as [|c]; [lia|].
  rewrite Ht, Nat.Div0.mod_mul, Nat.eqb_refl.
  rewrite Nat.div_mul by discriminate.
  eexists. split; [reflexivity|]. apply chunks_dims. exact Ht.
Qed.

Lemma view_cols_entries (P : R -> Prop) (t : vec) (c : nat) (w : mat) :
  view_cols t c = Ok w -> Forall P t -> entries P w.
Proof.
  unfold view_cols. destruct c as [|c]; [discriminate|].
  destruct (length t mod S c =? 0)%nat; [|discriminate].
  intros H Ht.
  pose proof (chunks_entries P (length t / S c) (S c) t Ht) as Hc.
  injection H as H. rewrite <- H. exact Hc.
Qed.

Lemma view_entries (P : R -> Prop) (t : vec) (rows : nat) (w : mat) :
  view t rows = Ok w -> Forall P t -> entries P w.
Proof.
  unfold view. destruct rows as [|rows]; [discriminate|].
  destruct (length t mod S rows =? 0)%nat; [|discriminate].
  intros H Ht.
  pose proof (chunks_entries P (S rows) (length t / S rows) t Ht) as Hc.
  injection H as H. rewrite <- H. exact Hc.
Qed.

Lemma view3_dims (t : vec) (d0 d1 d2 : nat) :
  (0 < d0 * d2)%nat -> length t = (d0 * (d1 * d2))%nat ->
  exists w,
    view3 t d0 d2 = Ok w /\ length w = d0
    /\ Forall (fun wk : mat => length wk = d1 /\ width d2 wk) w.
Proof.
  intros Hd Ht. unfold view3.
  destruct (d0 * d2)%nat as [|k] eqn:E; [lia|]. rewrite <- E.
  replace (length t) with (d1 * (d0 * d2))%nat by lia.
  rewrite Nat.Div0.mod_mul, Nat.eqb_refl. cbv zeta.
  rewrite Nat.div_mul by lia.
  eexists. split; [reflexivity|].
  destruct (chunks_dims d0 (d1 * d2) t Ht) as [C1 C2].
  split; [rewrite length_map; exact C1|].
  apply Forall_map. unfold width in C2. revert C2. apply Forall_impl.
  intros blk Hb. apply chunks_dims. exact Hb.
Qed.

Lemma view3_entries (P : R -> Prop) (t : vec) (d0 d2 : nat) (w : list mat) :
  view3 t d0 d2 = Ok w -> Forall P t -> Forall (entries P) w.
Proof.
  unfold view3. destruct (d0 * d2)%nat as [|k]; [discriminate|].
  destruct (length t mod S k =? 0)%nat; [|discriminate].
  cbv zeta. intros H Ht. injection H as <-.
  apply Forall_map.
  pose proof (chunks_entries P d0 (length t / S k * d2) t Ht) as Hc.
  revert Hc. apply Forall_impl. intros blk Hb. apply chunks_entries, Hb.
Qed.

Lemma l1_nonneg (r : vec) : 0 <= l1 r.
Proof.
  unfold l1, rsum. induction r as [|a r IH]; simpl; [lra|].
  pose proof (Rabs_pos a). lra.
Qed.

Lemma dot_bound (w : vec) :
  Forall (fun a => Rabs a <= 1) w ->
  forall r : vec, Rabs (dot w r) <= l1 r.
Proof.
  induction 1 as [|a w Ha _ IH]; intros r.
  - unfold dot. simpl. rewrite Rabs_R0. apply l1_nonneg.
  - destruct r as [|b r].
    + unfold dot, l1. simpl. rewrite Rabs_R0. lra.
    + specialize (IH r). unfold dot, l1, rsum in *. simpl.
      pose proof (Rabs_triang (a * b)
                    (fold_right Rplus 0 (zipWith Rmult w r))) as T.
      rewrite Rabs_mult in T.
      pose proof (Rabs_pos a). pose proof (Rabs_pos b). nra.
Qed.

Lemma Forall_zipWith2 {A B C : Type} (P : A -> Prop) (Q : B -> Prop)
      (S : C -> Prop) (f : A -> B -> C) (u : list A) (v : list B) :
  (forall a b, P a -> Q b -> S (f a b)) ->
  Forall P u -> Forall Q v -> Forall S (zipWith f u v).
Proof.
  intros H Hu. revert v. induction Hu as [|a u Ha _ IH]; intros v Hv.
  - constructor.
  - destruct Hv as [|b v Hb Hv]; simpl; constructor.
    + apply H; assumption.
    + apply IH, Hv.
Qed.

(** One item of the mixture: [w[k] @ x[r] + b[k]] for every row. *)
Lemma mix_item (wk : mat) (bk : vec) (o : nat) (x : mat) :
  length wk = o -> entries (fun a => Rabs a <= 1) wk ->
  length bk = o -> Forall (fun a => Rabs a <= 1) bk ->
  exists yk,
    add_vec (map (fun r => map (fun wrow => dot wrow r) wk) x) bk = Ok yk
    /\ width o yk /\ rows_within 1 x yk.
Proof.
  intros Hw Hwe Hb Hbe. unfold add_vec.
  induction x as [|r x IH]; cbn [map mapM].
  - exists []. repeat split; constructor.
  - rewrite bvec_same_length by (rewrite length_map; congruence).
    cbn [bind]. destruct IH as [yk [Hy [Wy Ry]]]. rewrite Hy. cbn [bind].
    eexists. split; [reflexivity|]. split.
    + constructor; [|exact Wy].
      rewrite length_zipWith; rewrite length_map; congruence.
    + constructor; [|exact Ry].
      apply (Forall_zipWith2 (fun d => Rabs d <= l1 r)
                             (fun a => Rabs a <= 1)).
      * intros d a Hd Ha. pose proof (Rabs_triang d a). lra.
      * apply Forall_map. unfold entries in Hwe. revert Hwe.
        apply Forall_impl. intros wrow Hr. apply dot_bound, Hr.
      * exact Hbe.
Qed.

Lemma mix_stack (o : nat) (x : mat) (w : list mat) :
  forall b : mat,
    length w = length b ->
    Forall (fun wk : mat => length wk = o
                            /\ entries (fun a => Rabs a <= 1) wk) w ->
    width o b -> entries (fun a => Rabs a <= 1) b ->
    exists st,
      mapM2 (fun wk bk =>
               add_vec (map (fun r => map (fun wrow => dot wrow r) wk) x) bk)
            w b
      = Ok st
      /\ length st = length w
      /\ Forall (fun yk => width o yk /\ rows_within 1 x yk) st.
Proof.
  induction w as [|wk w IH]; intros [|bk b] Hl Hw Hb Hbe;
    try discriminate Hl; cbn [mapM2].
  - exists []. repeat split. constructor.
  - inversion Hw as [|? ? [W1 W2] Hw']; subst.
    inversion Hb as [|? ? B1 Hb']; subst.
    inversion Hbe as [|? ? B2 Hbe']; subst.
    destruct (mix_item wk bk (length wk) x eq_refl W2 B1 B2)
      as [yk [Hy [Wy Ry]]].
    rewrite Hy. cbn [bind].
    destruct (IH b ltac:(simpl in Hl; lia) Hw' Hb' Hbe') as [st [Hs [Ls Fs]]].
    rewrite Hs. cbn [bind]. eexists. split; [reflexivity|]. split.
    + simpl. rewrite Ls. reflexivity.
    + constructor; [split; assumption | exact Fs].
Qed.

Lemma rows_within_add (c1 c2 : R) (x a b : mat) :
  rows_within c1 x a -> rows_within c2 x b ->
  rows_within (c1 + c2) x (zipWith (zipWith Rplus) a b).
Proof.
  unfold rows_within. intros Ha. revert b.
  induction Ha as [|xr ar x a Hr _ IH]; intros b Hb.
  - inversion Hb; subst. constructor.
  - inversion Hb as [|? br ? b' Hr' Hb']; subst. simpl. constructor.
    + apply (Forall_zipWith2 (fun v => Rabs v <= c1 * (l1 xr + 1))
                             (fun v => Rabs v <= c2 * (l1 xr + 1)));
        [|exact Hr|exact Hr'].
      intros u v Hu Hv. pose proof (Rabs_triang u v).
      rewrite Rmult_plus_distr_r. lra.
    + apply IH, Hb'.
Qed.

Lemma rows_within_fold (x : mat) (rest : list mat) :
  forall (c : R) (acc : mat),
    rows_within c x acc -> Forall (rows_within 1 x) rest ->
    rows_within (c + INR (length rest)) x
                (fold_left (zipWith (zipWith Rplus)) rest acc).
Proof.
  induction rest as [|a rest IH]; intros c acc Hacc Hrest.
  - simpl. replace (c + 0) with c by lra. exact Hacc.
  - inversion Hrest as [|? ? Ha Hrest']; subst.
    cbn [fold_left]. change (length (a :: rest)) with (S (length rest)).
    rewrite S_INR.
    replace (c + (INR (length rest) + 1)) with (c + 1 + INR (length rest))
      by lra.
    apply IH; [|exact Hrest']. apply rows_within_add; assumption.
Qed.

Lemma rows_within_scale (c : R) (x y : mat) :
  0 < c -> rows_within c x y ->
  rows_within 1 x (map (map (fun v => v / c)) y).
Proof.
  intros Hc. unfold rows_within.
  induction 1 as [|xr yr x y Hr _ IH]; simpl; constructor; [|exact IH].
  apply Forall_map. revert Hr. apply Forall_impl. intros v Hv.
  unfold Rdiv. rewrite Rabs_mult, Rabs_inv, (Rabs_right c) by lra.
  apply (Rmult_le_reg_r c); [exact Hc|].
  rewrite Rmult_assoc, Rinv_l by lra. lra.
Qed.

Lemma width_fold (o : nat) (rest : list mat) :
  forall acc : mat,
    width o acc -> Forall (width o) rest ->
    width o (fold_left (zipWith (zipWith Rplus)) rest acc).
Proof.
  induction rest as [|a rest IH]; intros acc Hacc Hrest; [exact Hacc|].
  inversion Hrest; subst. cbn [fold_left]. apply IH; [|assumption].
  apply width_zipWith; assumption.
Qed.

Lemma mean0_bound (o : nat) (x : mat) (st : list mat) :
  st <> [] ->
  Forall (fun yk => width o yk /\ rows_within 1 x yk) st ->
  length (mean0 st) = length x
  /\ width o (mean0 st)
  /\ rows_within 1 x (mean0 st).
Proof.
  intros Hne Hst. destruct st as [|s0 rest]; [contradiction|].
  inversion Hst as [|? ? [W0 R0] Hrest]; subst.
  assert (HR : rows_within 1 x (mean0 (s0 :: rest))).
  { unfold mean0. apply rows_within_scale.
    - apply lt_0_INR. simpl. lia.
    - change (length (s0 :: rest)) with (S (length rest)). rewrite S_INR.
      replace (INR (length rest) + 1) with (1 + INR (length rest)) by lra.
      cbn [sum0]. apply rows_within_fold; [exact R0|].
      revert Hrest. apply Forall_impl. intros yk [_ H]. exact H. }
  split; [|split; [|exact HR]].
  - symmetry. exact (Forall2_length HR).
  - unfold mean0. cbn [sum0].
    assert (Hw : width o (fold_left (zipWith (zipWith Rplus)) rest s0)).
    { apply width_fold; [exact W0|]. revert Hrest. apply Forall_impl.
      intros yk [H _]. exact H. }
    unfold width in *. apply Forall_map. revert Hw. apply Forall_impl.
    intros r Hr. rewrite length_map. exact Hr.
Qed.

(** X24: [WLinearMix.__init__] with a positive [dim] raises
    [ZeroDivisionError] exactly when [n_mix] is 0 or [in_features] and
    [out_features] are both 0 (the latent vector is drawn with the standard
    deviation [1 / (max(in_features, out_features) * n_mix)]).  Otherwise it
    builds the module: [z] has [dim] entries, [m] holds [depth - 1] maps from
    [dim] to [dim], [out] maps [dim] to [n_mix * (in_features * out_features
    + out_features)], and [scales] is [n_mix] ones. *)
Theorem WLinearMix_init_builds_iff (in_features out_features depth n_mix
        dim : nat) (g : rng) :
  (0 < dim)%nat ->
  (n_mix = 0%nat \/ (in_features = 0%nat /\ out_features = 0%nat) ->
   WLinearMix.init in_features out_features depth n_mix dim g
   = Raise ZeroDivisionError)
  /\ (~ (n_mix = 0%nat \/ (in_features = 0%nat /\ out_features = 0%nat)) ->
      exists s g',
        WLinearMix.init in_features out_features depth n_mix dim g
        = Ok (s, g')
        /\ length (WLinearMix.z s) = dim
        /\ length (WLinearMix.m s) = (depth - 1)%nat
        /\ Forall (fun l => Linear_dims l dim dim) (WLinearMix.m s)
        /\ Linear_dims (WLinearMix.out s) dim
             (n_mix * (in_features * out_features + out_features))
        /\ WLinearMix.scales s = repeat 1 n_mix
        /\ WLinearMix.n_mix s = n_mix
        /\ WLinearMix.w_idx s = (in_features * out_features)%nat).
Proof.
  intros _. unfold WLinearMix.init. split.
  - intros H.
    assert (E : (Nat.max in_features out_features * n_mix)%nat = 0%nat)
      by (destruct H as [->|[-> ->]]; simpl; lia).
    rewrite E. reflexivity.
  - intros H.
    destruct (Nat.max in_features out_features * n_mix)%nat as [|k] eqn:E.
    + exfalso. apply H. apply Nat.eq_mul_0 in E. destruct E as [E|E];
        [right; lia | left; exact E].
    + pose proof (length_normal_ dim 0 (1 / INR (S k)) g) as Hz.
      destruct (normal_ dim 0 (1 / INR (S k)) g) as [z0 g1].
      pose proof (init_m_dims (depth - 1) dim g1) as [Hm1 Hm2].
      destruct (WLinearMix.init_m (depth - 1) dim g1) as [ms g2].
      pose proof (Linear_init_dims
                    dim (n_mix * (in_features * out_features + out_features))
                    g2) as Ho.
      destruct (Linear.init _ _ g2) as [o g3]. cbn [fst] in *.
      eexists; eexists. split; [reflexivity|]. cbn.
      split; [exact Hz|]. split; [exact Hm1|]. split; [exact Hm2|].
      split; [exact Ho|]. repeat split.
Qed.

Lemma WLinearMix_init_builds_iff_witness :
  (2%nat = 0%nat \/ (2%nat = 0%nat /\ 1%nat = 0%nat) ->
   WLinearMix.init 2 1 3 2 1 (fun _ => 0) = Raise ZeroDivisionError)
  /\ (~ (2%nat = 0%nat \/ (2%nat = 0%nat /\ 1%nat = 0%nat)) ->
      exists s g',
        WLinearMix.init 2 1 3 2 1 (fun _ => 0) = Ok (s, g')
        /\ length (WLinearMix.z s) = 1%nat
        /\ length (WLinearMix.m s) = (3 - 1)%nat
        /\ Forall (fun l => Linear_dims l 1 1) (WLinearMix.m s)
        /\ Linear_dims (WLinearMix.out s) 1 (2 * (2 * 1 + 1))
        /\ WLinearMix.scales s = repeat 1 2
        /\ WLinearMix.n_mix s = 2%nat
        /\ WLinearMix.w_idx s = (2 * 1)%nat).
Proof.
  apply (WLinearMix_init_builds_iff 2 1 3 2 1 (fun _ => 0)). lia.
Defined.

(** X25: on a built [WLinearMix] with positive [in_features] and
    [out_features], [forward] maps every non-empty batch with rows of
    [in_features] entries to as many rows of [out_features] entries, and every
    entry of a row of the output is at most the sum of the absolute values of
    the input row plus 1 in absolute value: the generated weights and biases
    have passed [tanh], and the output is the mean over the mixture.
    [scales] is not read. *)
Theorem WLinearMix_forward_bounded (in_features out_features depth n_mix
        dim : nat) (g g' : rng) (s : WLinearMix.t) (x : mat) :
  WLinearMix.init in_features out_features depth n_mix dim g = Ok (s, g') ->
  (0 < in_features)%nat -> (0 < out_features)%nat ->
  x <> [] -> width in_features x ->
  exists y,
    WLinearMix.forward s x = Ok y
    /\ length y = length x
    /\ width out_features y
    /\ Forall2 (fun xr yr : vec =>
                  Forall (fun v => Rabs v <= l1 xr + 1) yr) x y.
Proof.
  intros H Hi Ho Hne Hx. unfold WLinearMix.init in H.
  destruct (Nat.max in_features out_features * n_mix)%nat as [|k] eqn:E;
    [discriminate H|].
  assert (Hn : (0 < n_mix)%nat) by (destruct n_mix; lia).
  pose proof (length_normal_ dim 0 (1 / INR (S k)) g) as Hz.
  destruct (normal_ dim 0 (1 / INR (S k)) g) as [z0 g1].
  pose proof (init_m_dims (depth - 1) dim g1) as [_ Hm].
  destruct (WLinearMix.init_m (depth - 1) dim g1) as [ms g2].
  pose proof (Linear_init_dims
                dim (n_mix * (in_features * out_features + out_features))
                g2) as Hout.
  destruct (Linear.init _ _ g2) as [o g3]. cbn [fst] in *.
  injection H as <- _. unfold WLinearMix.forward.
  cbn [WLinearMix.m WLinearMix.z WLinearMix.out WLinearMix.n_mix
       WLinearMix.w_idx].
  destruct (hidden_dims dim ms Hm z0 Hz) as [t1 [H1 L1]].
  rewrite H1. cbn [bind].
  destruct (Linear_forward1_dims o _ _ t1 Hout L1) as [t2 [H2 L2]].
  rewrite H2. cbn [bind].
  assert (Ht : Forall (fun a => Rabs a <= 1) (map tanh t2)).
  { apply Forall_map, Forall_forall. intros v _. apply tanh_bound. }
  destruct (view_cols_dims (map tanh t2)
              (in_features * out_features + out_features) n_mix Hn)
    as [th [Hv [Lth Wth]]].
  { rewrite length_map, L2. lia. }
  rewrite Hv. cbn [bind].
  pose proof (view_cols_entries _ _ _ _ Hv Ht) as Eth.
  rewrite (last_dim_width in_features x Hne Hx).
  destruct (view3_dims (concat (firstn (in_features * out_features) th))
                       n_mix out_features in_features)
    as [w [Hw [Lw Dw]]].
  { lia. }
  { rewrite (length_concat_width n_mix).
    - rewrite length_firstn, Lth. lia.
    - unfold width in *. apply Forall_firstn, Wth. }
  rewrite Hw. cbn [bind].
  assert (Ew : Forall (entries (fun a => Rabs a <= 1)) w).
  { apply (view3_entries _ _ _ _ _ Hw). apply Forall_concat.
    apply Forall_firstn. exact Eth. }
  destruct (view_dims (concat (skipn (in_features * out_features) th))
                      n_mix out_features Hn)
    as [b [Hb [Lb Wb]]].
  { rewrite (length_concat_width n_mix).
    - rewrite length_skipn, Lth. lia.
    - unfold width in *. apply Forall_skipn, Wth. }
  rewrite Hb. cbn [bind].
  assert (Eb : entries (fun a => Rabs a <= 1) b).
  { apply (view_entries _ _ _ _ Hb). apply Forall_concat.
    apply Forall_skipn. exact Eth. }
  destruct (mix_stack out_features x w b) as [st [Hs [Ls Fs]]].
  - congruence.
  - rewrite Forall_forall in Dw, Ew. apply Forall_forall. intros wk Hin.
    split; [exact (proj1 (Dw wk Hin)) | exact (Ew wk Hin)].
  - exact Wb.
  - exact Eb.
  - rewrite Hs. cbn [bind].
    assert (Hst : st <> []) by (apply length_pos_nonempty; lia).
    destruct (mean0_bound out_features x st Hst Fs) as [M1 [M2 M3]].
    exists (mean0 st). repeat split; try assumption.
    unfold rows_within in M3. revert M3. apply Forall2_impl.
    intros xr yr. apply Forall_impl. intros v Hv'. lra.
Qed.

Lemma WLinearMix_forward_bounded_witness :
  exists (s : WLinearMix.t) (g' : rng),
    WLinearMix.init 2 1 2 2 1 (fun _ => 0) = Ok (s, g')
    /\ exists y,
         WLinearMix.forward s [[3; -4]] = Ok y
         /\ length y = 1%nat
         /\ width 1 y
         /\ Forall2 (fun xr yr : vec =>
                       Forall (fun v => Rabs v <= l1 xr + 1) yr)
                    [[3; -4]] y.
Proof.
  eexists; eexists. split; [reflexivity|].
  eapply (WLinearMix_forward_bounded 2 1 2 2 1 (fun _ => 0)).
  - reflexivity.
  - lia.
  - lia.
  - discriminate.
  - unfold width. repeat constructor.
Defined.

(** ** A network of [BiasLinear] layers checks the width of its input *)

Lemma mapM_raises_some {A B : Type} (f : A -> result B) (l : list A)
      (e : exn) :
  (exists a, In a l /\ f a = Raise e) ->
  (forall a e', f a = Raise e' -> e' = e) ->
  mapM f l = Raise e.
Proof.
  induction l as [|a l IH]; intros [a0 [Hin Ha]] Hall; [contradiction|].
  cbn [mapM]. destruct (f a) as [b|e'] eqn:Hf; cbn [bind].
  - destruct Hin as [->|Hin]; [congruence|].
    rewrite IH; [reflexivity | exists a0; split; assumption | exact Hall].
  - f_equal. exact (Hall a e' Hf).
Qed.

Lemma make_BiasLinear_in (i o : nat) (g g' : rng) (w : layer) :
  MLP.make MLP.K_BiasLinear i o g = Ok (w, g') ->
  exists b, w = L_BiasLinear b
            /\ Linear.in_features (BiasLinear._linear b) = i.
Proof.
  unfold MLP.make, BiasLinear.init.
  pose proof (Linear_init_dims i o g) as [Hl _].
  destruct (Linear.init i o g) as [l g1]. cbn [fst] in Hl.
  destruct o as [|o]; [discriminate|].
  destruct (normal_ _ _ _ g1) as [b0 g2].
  destruct (draw_mat _ _ g2) as [w0 g3]. cbn [bind].
  intros H. injection H as <- _. eexists. split; [reflexivity | exact Hl].
Qed.

Lemma built_widths_cons2 (a b : nat) (rest : list nat) (deterministic : bool) :
  exists b' rest',
    built_widths (a :: b :: rest) deterministic = a :: b' :: rest'.
Proof.
  unfold built_widths, MLP.double_last.
  destruct deterministic; cbn [negb]; [eexists; eexists; reflexivity|].
  destruct rest; simpl; eexists; eexists; reflexivity.
Qed.

Lemma init_first_make (layer_widths : list nat) (fa : mat -> mat)
      (bias_linear : bool) (extra : option (list nat))
      (w_linear deterministic : bool) (g g' : rng) (m : MLP.t) :
  MLP.init layer_widths fa bias_linear extra w_linear deterministic g
  = Ok (m, g') ->
  exists w rest o g1,
    MLP.seq m = (MLP.fc 0, w) :: rest
    /\ MLP.make (MLP.linear bias_linear w_linear) (hd 0%nat layer_widths) o g
       = Ok (w, g1).
Proof.
  intros H. apply init_Ok_inv in H. destruct H as [Hlen H]. cbv zeta in H.
  destruct H as [s [aps [g1 [Hb H]]]].
  assert (Hs : MLP.seq m = s).
  { destruct extra as [e|].
    - destruct H as [h [haps [_ ->]]]. reflexivity.
    - subst m. reflexivity. }
  destruct layer_widths as [|a [|b rest]]; simpl in Hlen; try lia.
  destruct (built_widths_cons2 a b rest deterministic) as [b' [rest' Hbw]].
  unfold built_widths in Hbw. rewrite Hbw in Hb.
  rewrite pairs_cons2, build_seq_cons in Hb.
  destruct (MLP.make _ a b' g) as [[w g2]|e0] eqn:Hm; [|discriminate].
  cbn [bind] in Hb.
  destruct (layer_adaptation_parameters w) as [ap|e0]; [|discriminate].
  cbn [bind] in Hb.
  destruct (MLP.build_seq _ _ 1 _ g2) as [[[s' aps'] g3]|e0]; [|discriminate].
  cbn [bind] in Hb. injection Hb as Hb _ _.
  exists w. eexists. exists b', g2. split; [|exact Hm].
  rewrite Hs, <- Hb. reflexivity.
Qed.

(** X26: a network built with [bias_linear] (and not [w_linear]) checks the
    width of its input: [forward] raises [RuntimeError] on every batch with a
    row that has not [layer_widths[0]] entries.  (A [WLinear] layer does no
    such check.) *)
Theorem MLP_bias_linear_wrong_width_raises (layer_widths : list nat)
        (fa : mat -> mat) (extra : option (list nat)) (deterministic : bool)
        (g g' : rng) (m : MLP.t) (x : mat) :
  MLP.init layer_widths fa true extra false deterministic g = Ok (m, g') ->
  (exists r, In r x /\ length r <> hd 0%nat layer_widths) ->
  MLP.forward m x None = Raise RuntimeError.
Proof.
  intros H [r [Hin Hr]].
  destruct (init_first_make _ _ _ _ _ _ _ _ _ H) as [w [rest [o [g1 [Hs Hm]]]]].
  destruct (make_BiasLinear_in _ _ _ _ _ Hm) as [b [-> Hb]].
  rewrite forward_head_not_taken by (right; reflexivity).
  unfold MLP.run. rewrite Hs. cbn [map snd Sequential layer_forward].
  unfold BiasLinear.forward, Linear.forward.
  rewrite (mapM_raises_some _ x RuntimeError); [reflexivity| |].
  - exists r. split; [exact Hin|]. unfold Linear.forward1. rewrite Hb.
    apply Nat.eqb_neq in Hr. rewrite Hr. reflexivity.
  - intros a e'. unfold Linear.forward1.
    destruct (length a =? _)%nat; [discriminate | congruence].
Qed.

Lemma MLP_bias_linear_wrong_width_raises_witness :
  exists (m : MLP.t) (g' : rng),
    MLP.init [2; 3]%nat (fun x => x) true None false true (fun _ => 0)
    = Ok (m, g')
    /\ MLP.forward m [[1]] None = Raise RuntimeError.
Proof.
  eexists; eexists. split; [reflexivity|].
  eapply (MLP_bias_linear_wrong_width_raises
            [2; 3]%nat (fun x => x) None true (fun _ => 0)).
  - reflexivity.
  - exists [1]. split; [left; reflexivity | simpl; lia].
Defined.

(** ** [TwinValueFunction.adaptation_parameters] *)

Lemma get_model_layers_kinds (observation_dim action_dim hidden_dim
      depth : nat) (g g' : rng) (ls : list layer) :
  TwinValueFunction.get_model_layers observation_dim action_dim hidden_dim
                                     depth g
  = Ok (ls, g') ->
  map kind_of ls = twin_kinds depth.
Proof.
  intros H. destruct hidden_dim as [|h].
  - rewrite get_model_layers_zero in H. discriminate H.
  - destruct (get_model_layers_Ok observation_dim action_dim h depth g)
      as [ls0 [g0 [H0 K0]]].
    rewrite H0 in H. injection H as <- _. exact K0.
Qed.

Lemma flat_map_seq_shift {A : Type} (f : nat -> list A) (n : nat) :
  forall start : nat,
    flat_map f (seq (S start) n) = flat_map (fun i => f (S i)) (seq start n).
Proof.
  induction n as [|n IH]; intros start; simpl; [reflexivity|].
  rewrite IH. reflexivity.
Qed.

Lemma stack_parameters_twin (c : TwinValueFunction.stack) (n : nat) :
  forall (idx : nat) (s : list layer),
    map kind_of s
    = concat (repeat [Some MLP.K_WLinear; None] n) ++ [Some MLP.K_WLinear] ->
    TwinValueFunction.stack_parameters c idx s
    = flat_map (fun i => [(c, (idx + 2 * i)%nat, P_z);
                          (c, (idx + 2 * i)%nat, P_fc_weight);
                          (c, (idx + 2 * i)%nat, P_fc_bias)])
               (seq 0 (S n)).
Proof.
  induction n as [|n IH]; intros idx s Hs.
  - destruct s as [|[| |w|] [|l s]]; try discriminate Hs.
    simpl. rewrite Nat.add_0_r. reflexivity.
  - destruct s as [|[| |w|] [|[| | |] s]]; try discriminate Hs.
    simpl in Hs. injection Hs as Hs.
    cbn [TwinValueFunction.stack_parameters layer_parameters map app
         WLinear.parameters].
    rewrite (IH (S (S idx)) s Hs).
    change (seq 0 (S (S n))) with (0%nat :: seq 1 (S n)).
    cbn [flat_map]. rewrite flat_map_seq_shift, Nat.add_0_r.
    cbn [app]. f_equal. f_equal. f_equal.
    apply flat_map_ext. intros i.
    replace (S (S idx) + 2 * i)%nat with (idx + 2 * S i)%nat by lia.
    reflexivity.
Qed.

(** X27: on a built [TwinValueFunction], [adaptation_parameters] returns all
    the parameters of both stacks: for each of the [max(depth, 2)] [WLinear]
    layers of [f1], at the even indices of the stack, its latent vector [z]
    and the weight and bias of its generating map, and then the same for
    [f2]; [6 * max(depth, 2)] tensors, of which a third are latent
    vectors. *)
Theorem TwinValueFunction_adaptation_parameters_all (observation_dim
        action_dim hidden_dim depth : nat) (g g' : rng)
        (m : TwinValueFunction.t) :
  TwinValueFunction.init observation_dim action_dim hidden_dim depth g
  = Ok (m, g') ->
  TwinValueFunction.adaptation_parameters m
  = twin_params TwinValueFunction.F1 (Nat.max depth 2)
    ++ twin_params TwinValueFunction.F2 (Nat.max depth 2)
  /\ length (TwinValueFunction.adaptation_parameters m)
     = (6 * Nat.max depth 2)%nat.
Proof.
  intros H. unfold TwinValueFunction.init in H.
  destruct (TwinValueFunction.get_model_layers _ _ _ _ g)
    as [[l1 g1]|e] eqn:H1; [|discriminate].
  cbn [bind] in H.
  destruct (TwinValueFunction.get_model_layers _ _ _ _ g1)
    as [[l2 g2]|e] eqn:H2; [|discriminate].
  cbn [bind] in H. injection H as <- _.
  apply get_model_layers_kinds in H1, H2.
  assert (E : Nat.max depth 2 = S (S (depth - 2))) by lia.
  assert (P : forall c l, map kind_of l = twin_kinds depth ->
                          TwinValueFunction.stack_parameters c 0 l
                          = twin_params c (Nat.max depth 2)).
  { intros c l Hl. rewrite E.
    rewrite (stack_parameters_twin c (S (depth - 2)) 0 l).
    - reflexivity.
    - rewrite Hl. reflexivity. }
  unfold TwinValueFunction.adaptation_parameters,
    TwinValueFunction.parameters.
  cbn [TwinValueFunction.f1 TwinValueFunction.f2].
  rewrite (P _ _ H1), (P _ _ H2). split; [reflexivity|].
  assert (L : forall (c : TwinValueFunction.stack) (n start : nat),
             length (flat_map (fun i => [(c, (2 * i)%nat, P_z);
                                         (c, (2 * i)%nat, P_fc_weight);
                                         (c, (2 * i)%nat, P_fc_bias)])
                              (seq start n))
             = (3 * n)%nat).
  { intros c n. induction n as [|n IH]; intros start; [reflexivity|].
    cbn [seq flat_map length app]. rewrite IH. lia. }
  unfold twin_params. rewrite length_app, !L. lia.
Qed.

Lemma TwinValueFunction_adaptation_parameters_all_witness :
  exists (m : TwinValueFunction.t) (g' : rng),
    TwinValueFunction.init 1 1 1 2 (fun _ => 0) = Ok (m, g')
    /\ TwinValueFunction.adaptation_parameters m
       = twin_params TwinValueFunction.F1 (Nat.max 2 2)
         ++ twin_params TwinValueFunction.F2 (Nat.max 2 2)
    /\ length (TwinValueFunction.adaptation_parameters m)
       = (6 * Nat.max 2 2)%nat.
Proof.
  eexists; eexists. split; [reflexivity|].
  eapply (TwinValueFunction_adaptation_parameters_all 1 1 1 2 (fun _ => 0)).
  reflexivity.
Defined.
